(** * Sales dashboard (src/App.jsx): loader, filter, aggregations, vote tally

    A shallow embedding of the data-flow of [App]: the CSV row filter of the
    loader ([cleanData]), the facet lists ([years], [suppliers]) and the
    facet filter ([filteredData]), the three reducers ([monthlyData],
    [typeData], [stats]), the cells of the table preview, and the voting
    handlers ([handleVote], the [onAuthStateChanged] and [onSnapshot]
    listeners).

    Conventions.
    - A JavaScript string is a [string]; one [ascii] stands for one code
      unit (code units below 256).
    - A row produced by the CSV parser (header mode, no dynamic typing) is
      an object whose properties are strings: a [gmap string string]; a
      missing property reads as [None] ([undefined]).
    - A JavaScript number is an IEEE 754 binary64 value: [float].  The
      reducers are written once over an interface [Number]; the program is
      its instance [float_number].  The instance [whole_number], the same
      numbers read as whole amounts, serves in proofs only: for sales that
      are whole amounts with a total below [2^53] the binary64 sums are
      exact and equal the sums of whole amounts.
    - The voting handlers are given twice.  Taken in sequence
      ([handleVote], [authStateChanged], [run]), every handler finishes its
      requests before the next event of the page: the reading for what
      one call, or calls that follow each other, do.  In [Async] the
      handlers yield at their requests and overlap, on one page or on
      several pages that share the store; every run in sequence is one of
      its runs ([run_in_sequence]). *)

From Stdlib Require Import ZArith String Ascii List Floats Lia Bool.
From Stdlib Require Import Sorting.Sorted Sorting.Permutation OrderedTypeEx.
From stdpp Require Import base option list gmap strings.

Local Open Scope Z_scope.
Local Open Scope string_scope.

(** ** Strings *)

Module Str.

Definition is_digit (c : ascii) : bool :=
  let n := N_of_ascii c in ((48 <=? n) && (n <=? 57))%N.

Definition digit_val (c : ascii) : Z := Z.of_N (N_of_ascii c) - 48.

(** [StrWhiteSpaceChar] among the code units below 256: TAB, LF, VT, FF,
    CR, SP and NBSP. *)
Definition is_space (c : ascii) : bool :=
  let n := N_of_ascii c in
  (((9 <=? n) && (n <=? 13)) || (n =? 32) || (n =? 160))%N.

Fixpoint trim_start (s : string) : string :=
  match s with
  | String c s' => if is_space c then trim_start s' else s
  | EmptyString => s
  end.

(** Longest run of decimal digits at the head of [s]: the digits read as
    a number on top of [acc], how many there were, and what follows. *)
Fixpoint span_digits (s : string) (acc : Z) (n : nat) : Z * nat * string :=
  match s with
  | String c s' =>
      if is_digit c then span_digits s' (10 * acc + digit_val c) (S n)
      else (acc, n, s)
  | EmptyString => (acc, n, s)
  end.

(** [s.startsWith(p)] with the remainder. *)
Fixpoint strip_prefix (p s : string) : option string :=
  match p, s with
  | EmptyString, _ => Some s
  | String a p', String b s' =>
      if Ascii.eqb a b then strip_prefix p' s' else None
  | String _ _, EmptyString => None
  end.

Fixpoint repeat_char (c : ascii) (n : nat) : string :=
  match n with
  | O => EmptyString
  | S n' => String c (repeat_char c n')
  end.

(** [s.padStart(n, c)] for a one-character filler [c]. *)
Definition padStart (n : nat) (c : ascii) (s : string) : string :=
  repeat_char c (n - String.length s) ++ s.

(** [s.split(sep)] for a one-character separator. *)
Fixpoint split_aux (sep : ascii) (s : string) (cur : string) : list string :=
  match s with
  | EmptyString => [cur]
  | String c s' =>
      if Ascii.eqb c sep then cur :: split_aux sep s' EmptyString
      else split_aux sep s' (cur ++ String c EmptyString)
  end.

Definition split (sep : ascii) (s : string) : list string :=
  split_aux sep s EmptyString.

(** [true] when every character of [s] satisfies [p]. *)
Fixpoint all (p : ascii -> bool) (s : string) : bool :=
match s with
| EmptyString => true
| String c s' => p c && all p s'
end.

End Str.

(** ** Numbers *)

(** What the reducers use of the number type: the literal [0], [+], the
    truth value of a number in a condition, and [parseFloat]. *)
Class Number (num : Type) := {
  num_zero : num;
  num_add : num -> num -> num;
  num_falsy : num -> bool;
  parseFloat : string -> num
}.

Module JSNumber.

(** The sign, decimal mantissa and decimal exponent of the longest prefix
    of the input that is a [StrDecimalLiteral], [Infinity] apart. *)
Inductive literal :=
| LitNaN
| LitInfinity (neg : bool)
| LitDecimal (neg : bool) (m : Z) (e10 : Z).

Definition read_sign (s : string) : bool * string :=
  match s with
  | String "-" s' => (true, s')
  | String "+" s' => (false, s')
  | _ => (false, s)
  end.

(** [ExponentPart]: [e] or [E], an optional sign, at least one digit;
    anything else is not part of the literal. *)
Definition read_exponent (s : string) : Z :=
  match s with
  | String c s' =>
      if Ascii.eqb c "e" || Ascii.eqb c "E" then
        let '(neg, s'') := read_sign s' in
        let '(e, n, _) := Str.span_digits s'' 0 O in
        match n with
        | O => 0
        | S _ => if neg then - e else e
        end
      else 0
  | EmptyString => 0
  end.

Definition read_literal (input : string) : literal :=
  let '(neg, s) := read_sign (Str.trim_start input) in
  match Str.strip_prefix "Infinity" s with
  | Some _ => LitInfinity neg
  | None =>
      let '(ip, ni, s1) := Str.span_digits s 0 O in
      match s1 with
      | String "." s2 =>
          let '(m, nf, s3) := Str.span_digits s2 ip O in
          match ni, nf with
          | O, O => LitNaN
          | _, _ => LitDecimal neg m (read_exponent s3 - Z.of_nat nf)
          end
      | _ =>
          match ni with
          | O => LitNaN
          | S _ => LitDecimal neg ip (read_exponent s1)
          end
      end
  end.

(** The binary64 value nearest to [(-1)^neg * m * 10^e10], ties to even. *)
Definition round_decimal (neg : bool) (m e10 : Z) : float :=
  match m with
  | Zpos p =>
      if (0 <=? e10)%Z then
        SF2Prim (binary_round prec emax neg (p * Z.to_pos (10 ^ e10)) 0)
      else
        SF2Prim (SFdiv prec emax (S754_finite neg p 0)
                   (S754_finite false (Z.to_pos (10 ^ (- e10))) 0))
  | _ => if neg then neg_zero else zero
  end.

Definition parseFloat (input : string) : float :=
  match read_literal input with
  | LitNaN => nan
  | LitInfinity neg => if neg then neg_infinity else infinity
  | LitDecimal neg m e10 => round_decimal neg m e10
  end.

(** [!x] for a number [x]: true for [+0], [-0] and [NaN]. *)
Definition falsy (x : float) : bool := is_zero x || is_nan x.

End JSNumber.

#[export] Instance float_number : Number float := {
  num_zero := zero;
  num_add := PrimFloat.add;
  num_falsy := JSNumber.falsy;
  parseFloat := JSNumber.parseFloat
}.

(** [parseInt(s)] without a radix: leading white space, a sign, [0x] or
    [0X] for base 16, then the longest run of digits of the base.  [None] is
    [NaN].  The integer is kept exact; the program only uses it, less one,
    as an index into the twelve [MONTHS], which rounding to binary64 does
    not change. *)
Module JSInt.

Definition hex_val (c : ascii) : option Z :=
  let n := Z.of_N (N_of_ascii c) in
  if (48 <=? n)%Z && (n <=? 57)%Z then Some (n - 48)
  else if (97 <=? n)%Z && (n <=? 102)%Z then Some (n - 87)
  else if (65 <=? n)%Z && (n <=? 70)%Z then Some (n - 55)
  else None.

Fixpoint span_hex (s : string) (acc : Z) (n : nat) : Z * nat :=
  match s with
  | String c s' =>
      match hex_val c with
      | Some d => span_hex s' (16 * acc + d) (S n)
      | None => (acc, n)
      end
  | EmptyString => (acc, n)
  end.

Definition strip_hex_prefix (s : string) : option string :=
  match s with
  | String "0" (String c s') =>
      if Ascii.eqb c "x" || Ascii.eqb c "X" then Some s' else None
  | _ => None
  end.

Definition parseInt (input : string) : option Z :=
  let '(neg, s) := JSNumber.read_sign (Str.trim_start input) in
  let '(v, n) :=
    match strip_hex_prefix s with
    | Some s' => span_hex s' 0 O
    | None => let '(v, n, _) := Str.span_digits s 0 O in (v, n)
    end in
  match n with
  | O => None
  | S _ => Some (if neg then - v else v)
  end.

End JSInt.

(** ** Arrays and objects *)

(** [l.sort(cmp)]: the sort is stable; a comparator result [<= 0] keeps the
    left element first. *)
Section ArraySort.
Context {A : Type} (cmp : A -> A -> Z).

Fixpoint sort_insert (x : A) (l : list A) : list A :=
  match l with
  | [] => [x]
  | y :: l' => if (cmp x y <=? 0)%Z then x :: y :: l' else y :: sort_insert x l'
  end.

Fixpoint Array_sort (l : list A) : list A :=
  match l with
  | [] => []
  | x :: l' => sort_insert x (Array_sort l')
  end.
End ArraySort.

(** A plain object used as a dictionary: its own properties in creation
    order.  Reading goes through [get], writing through [set], which keeps
    the place of a property that exists and appends a new one.  Enumeration
    ([entries], [keys], [values]) lists array-index keys first, in
    ascending numeric order, then the other keys in creation order.
    Properties inherited from [Object.prototype] are not modelled: the keys
    the reducers use on loaded rows are never such names. *)
Module Obj.
Section Obj.
Context {V : Type}.

Fixpoint get (k : string) (o : list (string * V)) : option V :=
  match o with
  | [] => None
  | (k', v) :: o' => if String.eqb k k' then Some v else get k o'
  end.

Fixpoint set (k : string) (v : V) (o : list (string * V)) : list (string * V) :=
  match o with
  | [] => [(k, v)]
  | (k', v') :: o' =>
      if String.eqb k k' then (k, v) :: o' else (k', v') :: set k v o'
  end.

(** The canonical decimal numeral of an integer in [0, 2^32 - 2]. *)
Definition array_index (k : string) : option Z :=
  let '(v, n, rest) := Str.span_digits k 0 O in
  match rest, n with
  | EmptyString, S _ =>
      if (String.eqb k "0" || negb (String.prefix "0" k))
         && (v <=? 4294967294)%Z
      then Some v else None
  | _, _ => None
  end.

Definition is_array_index (k : string) : bool :=
  match array_index k with Some _ => true | None => false end.

Definition index_cmp (a b : string * V) : Z :=
  default 0 (array_index (fst a)) - default 0 (array_index (fst b)).

Definition entries (o : list (string * V)) : list (string * V) :=
  Array_sort index_cmp (List.filter (fun e => is_array_index (fst e)) o)
  ++ List.filter (fun e => negb (is_array_index (fst e))) o.

(** [o[k] = f(o[k])] for a property that exists. *)
Fixpoint alter (f : V -> V) (k : string) (o : list (string * V)) : list (string * V) :=
  match o with
  | [] => []
  | (k', v) :: o' =>
      if String.eqb k k' then (k', f v) :: o' else (k', v) :: alter f k o'
  end.

Definition keys (o : list (string * V)) : list string := map fst (entries o).
Definition values (o : list (string * V)) : list V := map snd (entries o).
End Obj.
End Obj.

(** ** Rows *)

Abbreviation row := (gmap string string).

(** The truth value of a property that is a string or [undefined]. *)
Definition truthy (v : option string) : bool :=
  match v with
  | Some s => negb (String.eqb s "")
  | None => false
  end.

(** [v !== s] for a property [v] and a string [s]. *)
Definition strict_neq (v : option string) (s : string) : bool :=
  match v with
  | Some x => negb (String.eqb x s)
  | None => true
  end.

(** A property inside a template literal. *)
Definition template (v : option string) : string := default "undefined" v.

Definition MONTHS : list string :=
  ["Jan"; "Feb"; "Mar"; "Apr"; "May"; "Jun"; "Jul"; "Aug"; "Sep"; "Oct"; "Nov"; "Dec"].

Definition ITEM_TYPES : list string :=
  ["BEER"; "WINE"; "LIQUOR"; "KEGS"; "NON-ALCOHOL"].

(** [l.includes(v)] for an array of strings. *)
Definition includes (l : list string) (v : option string) : bool :=
  match v with
  | Some s => existsb (String.eqb s) l
  | None => false
  end.

(** ** Dataset loader *)

Definition valid_row (r : row) : bool :=
  truthy (r !! "YEAR") && truthy (r !! "MONTH") && truthy (r !! "ITEM TYPE")
  && includes ITEM_TYPES (r !! "ITEM TYPE").

(** The [complete] callback: [results.data.filter(...)]. *)
Definition cleanData (results : list row) : list row :=
  List.filter valid_row results.

(** ** Filter engine *)

Record selection := {
  selectedType : string;
  selectedYear : string;
  selectedSupplier : string
}.

Definition keep_row (sel : selection) (r : row) : bool :=
  if negb (String.eqb (selectedType sel) "ALL")
     && strict_neq (r !! "ITEM TYPE") (selectedType sel) then false
  else if negb (String.eqb (selectedYear sel) "ALL")
     && strict_neq (r !! "YEAR") (selectedYear sel) then false
  else if negb (String.eqb (selectedSupplier sel) "ALL")
     && strict_neq (r !! "SUPPLIER") (selectedSupplier sel) then false
  else true.

Definition filteredData (data : list row) (sel : selection) : list row :=
  List.filter (keep_row sel) data.

(** ** Aggregation engine *)

Record bucket (num : Type) := Bucket {
  retail : num;
  warehouse : num;
  count : nat
}.
Arguments Bucket {num}.
Arguments retail {num}.
Arguments warehouse {num}.
Arguments count {num}.

Module Chart.
Record t (num : Type) := Make {
  labels : list string;
  retail : list num;
  warehouse : list num
}.
Arguments Make {num}.
Arguments labels {num}.
Arguments retail {num}.
Arguments warehouse {num}.
End Chart.

Record summary (num : Type) := Summary {
  totalRecords : nat;
  totalRetail : num;
  totalWarehouse : num;
  totalSales : num
}.
Arguments Summary {num}.
Arguments totalRecords {num}.
Arguments totalRetail {num}.
Arguments totalWarehouse {num}.
Arguments totalSales {num}.

Section Reducers.
Context {num : Type} `{Number num}.

(** [parseFloat(v || 0)]: a falsy property is replaced by the number [0],
    which [parseFloat] first turns into the string ["0"]. *)
Definition sales (v : option string) : num :=
  parseFloat (if truthy v then template v else "0").

Definition retailSales (r : row) : num := sales (r !! "RETAIL SALES").
Definition warehouseSales (r : row) : num := sales (r !! "WAREHOUSE SALES").

(** *** Monthly *)

(** The template [`${row.YEAR}-${row.MONTH.padStart(2, '0')}`]; calling
    [padStart] on a missing [MONTH] throws, which is [None]. *)
Definition monthKey (r : row) : option string :=
  match r !! "MONTH" with
  | Some m => Some (template (r !! "YEAR") ++ "-" ++ Str.padStart 2 "0" m)
  | None => None
  end.

Definition empty_bucket : bucket num := Bucket num_zero num_zero O.

Definition add_row (r : row) (b : bucket num) : bucket num :=
  Bucket (num_add (retail b) (retailSales r))
         (num_add (warehouse b) (warehouseSales r))
         (S (count b)).

(** One turn of the [forEach] of [monthlyData]; a bucket is an object and
    so never falsy: it is created only when the key is new. *)
Definition monthly_step (aggregated : list (string * bucket num)) (r : row)
  : option (list (string * bucket num)) :=
  match monthKey r with
  | Some key =>
      let aggregated1 :=
        match Obj.get key aggregated with
        | None => Obj.set key empty_bucket aggregated
        | Some _ => aggregated
        end in
      Some (Obj.alter (add_row r) key aggregated1)
  | None => None
  end.

Fixpoint monthly_loop (aggregated : list (string * bucket num)) (rows : list row)
  : option (list (string * bucket num)) :=
  match rows with
  | [] => Some aggregated
  | r :: rows' =>
      match monthly_step aggregated r with
      | Some aggregated' => monthly_loop aggregated' rows'
      | None => None
      end
  end.

(** [MONTHS[n - 1]] for [n] the result of [parseInt]. *)
Definition month_name (n : option Z) : option string :=
  match n with
  | Some v => if (1 <=? v)%Z then MONTHS !! Z.to_nat (v - 1) else None
  | None => None
  end.

(** [const [year, month] = key.split('-')] and the label template. *)
Definition label (key : string) : string :=
  let parts := Str.split "-" key in
  let year := parts !! 0%nat in
  let month := parts !! 1%nat in
  template (month_name (JSInt.parseInt (template month))) ++ " " ++ template year.

Section Monthly.
(** [a.localeCompare(b)]: the collation of the host, which the
    program does not define. *)
Variable localeCompare : string -> string -> Z.

Definition by_key (a b : string * bucket num) : Z :=
  localeCompare (fst a) (fst b).

(** The local [sorted] of [monthlyData]. *)
Definition monthlySorted (filtered : list row) : option (list (string * bucket num)) :=
  match monthly_loop [] filtered with
  | Some aggregated => Some (Array_sort by_key (Obj.entries aggregated))
  | None => None
  end.

Definition monthlyData (filtered : list row) : option (Chart.t num) :=
  match monthlySorted filtered with
  | Some sorted =>
      Some (Chart.Make (map (fun e => label (fst e)) sorted)
                       (map (fun e => retail (snd e)) sorted)
                       (map (fun e => warehouse (snd e)) sorted))
  | None => None
  end.
End Monthly.

(** *** Category *)

(** One turn of the [forEach] of [typeData].  [!aggregated[type]] holds
    for a missing property and for a falsy number. *)
Definition type_step (aggregated : list (string * num)) (r : row)
  : list (string * num) :=
  let type := template (r !! "ITEM TYPE") in
  let aggregated1 :=
    match Obj.get type aggregated with
    | None => Obj.set type num_zero aggregated
    | Some v => if num_falsy v then Obj.set type num_zero aggregated else aggregated
    end in
  Obj.alter (fun v => num_add v (num_add (retailSales r) (warehouseSales r)))
            type aggregated1.

Definition typeAggregated (filtered : list row) : list (string * num) :=
  fold_left type_step filtered [].

(** [{ labels: Object.keys(aggregated), values: Object.values(aggregated) }] *)
Definition typeData (filtered : list row) : list string * list num :=
  let aggregated := typeAggregated filtered in
  (Obj.keys aggregated, Obj.values aggregated).

(** The sum of an array of numbers, from [0], left to right. *)
Definition sum (l : list num) : num := fold_left num_add l num_zero.

(** *** Summary *)

Definition stats_step (acc : num * num) (r : row) : num * num :=
  (num_add (fst acc) (retailSales r), num_add (snd acc) (warehouseSales r)).

(** The totals of [stats] before [toLocaleString] formats them for
    display. *)
Definition stats (filtered : list row) : summary num :=
  let '(totalRetail, totalWarehouse) :=
    fold_left stats_step filtered (num_zero, num_zero) in
  Summary (length filtered) totalRetail totalWarehouse
          (num_add totalRetail totalWarehouse).

End Reducers.

(** ** Vote tally *)

(** The two documents of the remote store that the handlers touch, and the
    two pieces of React state they set.  The store is an outside service:
    a request either resolves, with the effect of its contract, or is
    rejected and leaves the store as it was.  Which requests are rejected
    is the environment's choice, given as the list [net] of the outcomes of
    the requests to come ([true]: resolves); requests past the end of the
    list resolve.  In this first reading a handler is taken in sequence:
    its requests and the code after them complete before the next event of
    the page, and no other page writes to the store meanwhile.  The
    handlers that overlap are in [Async] below. *)

Record voteDoc := VoteDoc {
  vote : string;
  timestamp : Z
}.

Record store := Store {
  userVotes : gmap string voteDoc;      (* collection userVotes, by uid *)
  salesData : option (gmap string Z)    (* document votes/salesData *)
}.

Record app := App {
  user : option string;                 (* uid of the signed-in user *)
  userVote : option string
}.

Definition setUser (u : option string) (st : app) : app :=
  App u (userVote st).
Definition setUserVote (v : option string) (st : app) : app :=
  App (user st) v.

Definition env := (store * list bool)%type.

(** A request: [None] is a rejected promise. *)
Definition remote (A : Type) := env -> option A * env.

Definition await {A B} (m : remote A) (k : A -> remote B) : remote B :=
  fun e =>
    match m e with
    | (Some a, e') => k a e'
    | (None, e') => (None, e')
    end.

Notation "'let*' x := m 'in' k" := (await m (fun x => k))
  (at level 10, x pattern, m at level 100, k at level 200).

Definition request {A} (op : store -> A * store) : remote A :=
  fun '(db, net) =>
    match net with
    | false :: net' => (None, (db, net'))
    | true :: net' => let '(a, db') := op db in (Some a, (db', net'))
    | [] => let '(a, db') := op db in (Some a, (db', []))
    end.

(** [setDoc(doc(db, 'userVotes', uid), d)] *)
Definition setDoc_userVotes (uid : string) (d : voteDoc) : remote unit :=
  request (fun db => (tt, Store (<[uid := d]> (userVotes db)) (salesData db))).

(** [getDoc(doc(db, 'userVotes', uid))] *)
Definition getDoc_userVotes (uid : string) : remote (option voteDoc) :=
  request (fun db => (userVotes db !! uid, db)).

(** [getDoc(doc(db, 'votes', 'salesData'))] *)
Definition getDoc_votes : remote (option (gmap string Z)) :=
  request (fun db => (salesData db, db)).

(** [setDoc(voteRef, d)] *)
Definition setDoc_votes (d : gmap string Z) : remote unit :=
  request (fun db => (tt, Store (userVotes db) (Some d))).

(** [setDoc(voteRef, { [field]: increment(1) }, { merge: true })]: the
    field is raised by one, from [0] when it is missing, and the other
    fields stay. *)
Definition setDoc_votes_increment (field : string) : remote unit :=
  request (fun db =>
    let d := default ∅ (salesData db) in
    (tt, Store (userVotes db) (Some (<[field := default 0 (d !! field) + 1]> d)))).

(** The body of the [try] block of [handleVote], up to [setUserVote]. *)
Definition cast (uid voteType : string) (now : Z) : remote unit :=
  let* _ := setDoc_userVotes uid (VoteDoc voteType now) in
  let* voteSnap := getDoc_votes in
  match voteSnap with
  | Some _ => setDoc_votes_increment voteType
  | None =>
      setDoc_votes {[ "support" := if String.eqb voteType "support" then 1 else 0;
                      "against" := if String.eqb voteType "against" then 1 else 0 ]}
  end.

(** [handleVote(voteType)], at time [now], run to its end; the [catch]
    only logs. *)
Definition handleVote (voteType : string) (now : Z) (st : app) (e : env) : app * env :=
  match user st with
  | None => (st, e)
  | Some uid =>
      if truthy (userVote st) then (st, e)
      else
        match cast uid voteType now e with
        | (Some _, e') => (setUserVote (Some voteType) st, e')
        | (None, e') => (st, e')
        end
  end.

(** The listener given to [onAuthStateChanged], with its read and the
    [then] callback run to their end; a rejected [getDoc] has no
    handler and changes nothing. *)
Definition authStateChanged (currentUser : option string) (st : app) (e : env) : app * env :=
  let st1 := setUser currentUser st in
  match currentUser with
  | Some uid =>
      match getDoc_userVotes uid e with
      | (Some (Some d), e') => (setUserVote (Some (vote d)) st1, e')
      | (_, e') => (st1, e')
      end
  | None => (setUserVote None st1, e)
  end.

(** What the viewer's session does when its handlers follow each other,
    one event at a time. *)
Inductive event :=
| AuthStateChanged (currentUser : option string)
| HandleVote (voteType : string) (now : Z).

Definition step (ev : event) (s : app * env) : app * env :=
  match ev with
  | AuthStateChanged u => authStateChanged u (fst s) (snd s)
  | HandleVote k now => handleVote k now (fst s) (snd s)
  end.

Definition run (evs : list event) (s : app * env) : app * env :=
  fold_left (fun s ev => step ev s) evs s.

(** [useState(null)] twice. *)
Definition initial_app : app := App None None.

(** The count of one bucket of the shared counter; a missing document or
    field counts as [0]. *)
Definition tally (db : store) (field : string) : Z :=
  default 0 (default ∅ (salesData db) !! field).

(** ** Vote tally: handlers that overlap *)

(** [handleVote] and the listener of [onAuthStateChanged] yield at every
    request: other handlers of the page, and the handlers of other pages
    on the same store, run before they go on.  Here a handler that has
    yielded is a pending task; an event is a sign-in or sign-out, a click
    on a vote button, or a pending task going on, in any order.  The
    continuation of the first and of the second [await] of [handleVote]
    only sends the next request, which nothing can observe before the
    store serves it, so it is taken together with the serving of that
    request; the callback of the listener and the [setUserVote] after the
    third [await] set React state and are steps of their own. *)
Module Async.

(** A page open on the dashboard. *)
Definition viewer := nat.
Bind Scope nat_scope with viewer.

Inductive task :=
| GetVote (uid : string)
    (* listener: [getDoc(doc(db, 'userVotes', uid))] is on its way *)
| GotVote (docSnap : option voteDoc)
    (* listener: the read has resolved, the [then] callback is due *)
| SetRecord (uid voteType : string) (now : Z)
    (* handleVote at its first [await] *)
| GetCounter (voteType : string)
    (* handleVote at its second [await] *)
| SetCounter (voteType : string) (found : bool)
    (* handleVote at its third [await]; [found] is [voteSnap.exists()] *)
| Voted (voteType : string).
    (* handleVote: the third request has resolved, [setUserVote] is due *)

Record world := World {
  db : store;                               (* the remote store, shared *)
  sessions : gmap viewer app;               (* the React state of each page *)
  pending : gmap nat (viewer * task);       (* the handlers that have yielded *)
  next : nat                                (* the number of the next task *)
}.

(** A page that has not rendered yet holds [useState(null)] twice. *)
Definition session (w : world) (v : viewer) : app :=
  default initial_app (sessions w !! v).

Definition render (v : viewer) (f : app -> app) (w : world) : world :=
  World (db w) (<[v := f (session w v)]> (sessions w)) (pending w) (next w).

Definition spawn (v : viewer) (t : task) (w : world) : world :=
  World (db w) (sessions w) (<[next w := (v, t)]> (pending w)) (S (next w)).

(** The listener, up to the sending of its read. *)
Definition authStateChanged (v : viewer) (currentUser : option string) (w : world)
  : world :=
  let w1 := render v (setUser currentUser) w in
  match currentUser with
  | Some uid => spawn v (GetVote uid) w1
  | None => render v (setUserVote None) w1
  end.

(** [handleVote], up to the sending of its first request; the guard
    reads the state of the page as rendered when the button is clicked. *)
Definition handleVote (v : viewer) (voteType : string) (now : Z) (w : world) : world :=
  match user (session w v) with
  | None => w
  | Some uid =>
      if truthy (userVote (session w v)) then w
      else spawn v (SetRecord uid voteType now) w
  end.

(** One request served by the store, resolving or rejected. *)
Definition served {A} (m : remote A) (ok : bool) (w : world) : option A * world :=
  let '(a, (db', _)) := m (db w, [ok]) in
  (a, World db' (sessions w) (pending w) (next w)).

(** A pending task of page [v] goes on: what remains of it, if anything,
    and the world after it.  A rejected request ends the task: the
    [catch] of [handleVote] only logs, and the read of the listener has no
    handler for a rejection. *)
Definition continue (v : viewer) (t : task) (ok : bool) (w : world)
  : option task * world :=
  match t with
  | GetVote uid =>
      match served (getDoc_userVotes uid) ok w with
      | (Some docSnap, w') => (Some (GotVote docSnap), w')
      | (None, w') => (None, w')
      end
  | GotVote docSnap =>
      (None, match docSnap with
             | Some d => render v (setUserVote (Some (vote d))) w
             | None => w
             end)
  | SetRecord uid voteType now =>
      match served (setDoc_userVotes uid (VoteDoc voteType now)) ok w with
      | (Some _, w') => (Some (GetCounter voteType), w')
      | (None, w') => (None, w')
      end
  | GetCounter voteType =>
      match served getDoc_votes ok w with
      | (Some voteSnap, w') =>
          (Some (SetCounter voteType
                   match voteSnap with Some _ => true | None => false end), w')
      | (None, w') => (None, w')
      end
  | SetCounter voteType found =>
      match served
              (if found then setDoc_votes_increment voteType
               else setDoc_votes
                      {[ "support" := if String.eqb voteType "support" then 1 else 0;
                         "against" := if String.eqb voteType "against" then 1 else 0 ]})
              ok w with
      | (Some _, w') => (Some (Voted voteType), w')
      | (None, w') => (None, w')
      end
  | Voted voteType => (None, render v (setUserVote (Some voteType)) w)
  end.

Inductive event :=
| AuthStateChanged (v : viewer) (currentUser : option string)
| HandleVote (v : viewer) (voteType : string) (now : Z)
| Settle (i : nat) (ok : bool).

Definition step (ev : event) (w : world) : world :=
  match ev with
  | AuthStateChanged v u => authStateChanged v u w
  | HandleVote v k now => handleVote v k now w
  | Settle i ok =>
      match pending w !! i with
      | Some (v, t) =>
          let '(t', w') := continue v t ok w in
          World (db w') (sessions w')
                match t' with
                | Some t1 => <[i := (v, t1)]> (pending w')
                | None => delete i (pending w')
                end
                (next w')
      | None => w
      end
  end.

Definition run (evs : list event) (w : world) : world :=
  fold_left (fun w ev => step ev w) evs w.

(** Page [v] has no handler pending. *)
Definition quiet (v : viewer) (w : world) : Prop :=
  forall i t, pending w !! i <> Some (v, t).

(** An event that is not of page [v]: a sign-in, sign-out or click on
    another page, or a task of another page going on. *)
Definition foreign_event (v : viewer) (ev : event) (w : world) : Prop :=
  match ev with
  | AuthStateChanged v' _ | HandleVote v' _ _ => v' <> v
  | Settle i _ => forall t, pending w !! i <> Some (v, t)
  end.

Fixpoint foreign (v : viewer) (evs : list event) (w : world) : Prop :=
  match evs with
  | [] => True
  | ev :: evs' => foreign_event v ev w /\ foreign v evs' (step ev w)
  end.

(** What the events of other pages leave alone of page [v]: its state and
    its pending tasks, none being added; the numbers already given to
    tasks are not given again. *)
Definition kept (v : viewer) (w w' : world) : Prop :=
  session w' v = session w v
  /\ (next w <= next w')%nat
  /\ (forall i t, pending w' !! i = Some (v, t) -> pending w !! i = Some (v, t))
  /\ (forall i, (i < next w)%nat -> pending w !! i = None -> pending w' !! i = None)
  /\ (forall i t, (i < next w)%nat ->
        pending w !! i = Some (v, t) -> pending w' !! i = Some (v, t)).

(** The counter document exists and no write that would create it is
    pending. *)
Definition counter_settled (w : world) : Prop :=
  is_Some (salesData (db w))
  /\ forall i v k, pending w !! i <> Some (v, SetCounter k false).

End Async.

(** The events of page [v] that make up one event of the session taken in
    sequence: the handler and, one after the other, the steps of its task,
    numbered [i], with the outcomes of the schedule [net] (a request past
    the end of the schedule resolves). *)
Definition in_sequence (v : Async.viewer) (i : nat) (net : list bool) (ev : event)
  : list Async.event :=
  match ev with
  | AuthStateChanged u =>
      [Async.AuthStateChanged v u; Async.Settle i (nth 0 net true); Async.Settle i true]
  | HandleVote k now =>
      [Async.HandleVote v k now; Async.Settle i (nth 0 net true);
       Async.Settle i (nth 1 net true); Async.Settle i (nth 2 net true);
       Async.Settle i true]
  end.

(** ** The specification's vocabulary *)

(** What the specification calls a present field: the property exists and
    is not the empty string. *)
Definition present (v : option string) : Prop :=
  exists s, v = Some s /\ s <> "".

(** The five recognised item types, as the specification lists them. *)
Definition recognised (v : option string) : Prop :=
  v = Some "BEER" \/ v = Some "WINE" \/ v = Some "LIQUOR" \/ v = Some "KEGS"
  \/ v = Some "NON-ALCOHOL".

(** A record matches a selection when every facet that is not ["ALL"]
    equals the record's field. *)
Definition matches (sel : selection) (r : row) : Prop :=
  (selectedType sel <> "ALL" -> r !! "ITEM TYPE" = Some (selectedType sel))
  /\ (selectedYear sel <> "ALL" -> r !! "YEAR" = Some (selectedYear sel))
  /\ (selectedSupplier sel <> "ALL" -> r !! "SUPPLIER" = Some (selectedSupplier sel)).

(** The record type of the specification: a month from 1 to 12 and sales
    that are numbers not below zero, next to the three validated fields. *)
Definition month_in_range (r : row) : Prop :=
  exists n, JSInt.parseInt (template (r !! "MONTH")) = Some n /\ 1 <= n <= 12.

Definition non_negative (x : float) : Prop := PrimFloat.leb zero x = true.

Definition SalesRecord (r : row) : Prop :=
  present (r !! "YEAR") /\ present (r !! "MONTH") /\ month_in_range r
  /\ recognised (r !! "ITEM TYPE")
  /\ non_negative (retailSales r) /\ non_negative (warehouseSales r).

(** A decimal numeral: digits only, at least one; and its value. *)
Definition numeral (s : string) : Prop :=
  s <> "" /\ Str.all Str.is_digit s = true.

Fixpoint decimal (s : string) (acc : Z) : Z :=
  match s with
  | EmptyString => acc
  | String c s' => decimal s' (10 * acc + Str.digit_val c)
  end.

Definition numeral_value (s : string) : Z := decimal s 0.

(** Text without a hyphen. *)
Definition hyphen_free (s : string) : Prop :=
  Str.all (fun c => negb (Ascii.eqb c "-")) s = true.

(** A row of the calendar: its YEAR holds no hyphen and its MONTH is a
    numeral of 1 to 12. *)
Definition calendar_row (r : row) : Prop :=
  exists y m, r !! "YEAR" = Some y /\ r !! "MONTH" = Some m
              /\ hyphen_free y /\ numeral m /\ 1 <= numeral_value m <= 12.

(** The month padded with a zero to two digits, and the key "YEAR-MM". *)
Definition two_digits (m : string) : string :=
  if (String.length m <? 2)%nat then "0" ++ m else m.

Definition period_key (y m : string) : string := y ++ "-" ++ two_digits m.

(** 1 is "Jan", ..., 12 is "Dec". *)
Definition abbreviation (n : Z) : string :=
  match n with
  | 1 => "Jan" | 2 => "Feb" | 3 => "Mar" | 4 => "Apr" | 5 => "May" | 6 => "Jun"
  | 7 => "Jul" | 8 => "Aug" | 9 => "Sep" | 10 => "Oct" | 11 => "Nov" | 12 => "Dec"
  | _ => "undefined"
  end.

(** The rows of a list whose key is [k], in the order of the list. *)
Definition rows_of_key (k : string) (rows : list row) : list row :=
  List.filter (fun r => bool_decide (monthKey r = Some k)) rows.

(** The bucket of a list of rows: the sums of their retail and warehouse
    sales, from [0] in the order of the list, and their number. *)
Definition bucket_of {num} `{Number num} (rows : list row) : bucket num :=
  Bucket (fold_left num_add (map retailSales rows) num_zero)
         (fold_left num_add (map warehouseSales rows) num_zero)
         (length rows).

Section Totals.
Context {num : Type} `{Number num}.

(** The sum of a list of numbers from the right, and the sum of the values
    of an object. *)
Definition sumr (l : list num) : num := fold_right num_add num_zero l.

Definition total (o : list (string * num)) : num := sumr (map snd o).

(** What the bucket of a key becomes once the rows [rs] of that key have
    been added to it. *)
Definition grown (o : option (bucket num)) (rs : list row) : option (bucket num) :=
  match rs with
  | [] => o
  | _ :: _ => Some (fold_left (fun b r => add_row r b) rs (default empty_bucket o))
  end.

End Totals.

(** ** Whole amounts *)

(** The binary64 number of a whole number: [z] itself when it lies between
    [0] and [2^53 - 1], where every whole number is one binary64 number. *)
Definition SFint (z : Z) : spec_float := binary_normalize prec emax z 0 false.

Definition Z2F (z : Z) : float := SF2Prim (SFint z).

(** [p] with [k] binary zeros appended, for [k] not below zero. *)
Definition shl (p : positive) (k : Z) : positive :=
  match k with
  | Zpos n => Pos.iter xO p n
  | _ => p
  end.

(** The whole number from [0] to [2^53 - 1] that a number is, if it is
    one: the candidate is read off the mantissa and exponent and kept when
    its binary64 number is the given one. *)
Definition candidate (x : spec_float) : Z :=
  match x with
  | S754_zero false => 0
  | S754_finite false m e => Z.shiftl (Zpos m) e
  | _ => -1
  end.

Definition whole (x : float) : option Z :=
  let z := candidate (Prim2SF x) in
  if (0 <=? z)%Z && (z <? 2 ^ 53)%Z && PrimFloat.Leibniz.eqb (Z2F z) x
  then Some z else None.

Definition amount (x : float) : Z := default 0 (whole x).

(** A row whose two sales fields the program reads as whole amounts, and
    the exact total of the sales of a list of rows. *)
Definition whole_row (r : row) : Prop :=
  is_Some (whole (retailSales r)) /\ is_Some (whole (warehouseSales r)).

Definition whole_total (rows : list row) : Z :=
  fold_right (fun r t => amount (retailSales r) + amount (warehouseSales r) + t) 0 rows.

(** The program's numbers read as whole amounts (a number that is not one
    reads as [0]), with exact sums: the arithmetic with which the proofs
    compare the binary64 sums of whole amounts.  No statement about the
    program is made in it. *)
Definition whole_number : Number Z := {|
  num_zero := 0;
  num_add := Z.add;
  num_falsy := fun x => (x =? 0)%Z;
  parseFloat := fun s => amount (JSNumber.parseFloat s)
|}.

(** An object with each value replaced by its image under [h]. *)
Definition lift {V W} (h : V -> W) (o : list (string * V)) : list (string * W) :=
  map (fun e => (fst e, h (snd e))) o.

Definition lift_bucket (b : bucket Z) : bucket float :=
  Bucket (Z2F (retail b)) (Z2F (warehouse b)) (count b).

(** Objects of whole amounts not below zero, and the sum of the sales
    that the buckets of an object hold. *)
Definition nonneg (az : list (string * Z)) : Prop :=
  Forall (fun e => 0 <= snd e) az.

Definition nonneg_b (acc : list (string * bucket Z)) : Prop :=
  Forall (fun e => 0 <= retail (snd e) /\ 0 <= warehouse (snd e)) acc.

Definition series (acc : list (string * bucket Z)) : Z :=
  fold_right (fun e t => retail (snd e) + warehouse (snd e) + t) 0 acc.

(** ** Sample data *)

Definition mkrow (l : list (string * string)) : row := list_to_map l.

Definition row_hyphen_year : row :=
  mkrow [("YEAR", "20-20"); ("MONTH", "1"); ("ITEM TYPE", "BEER");
         ("RETAIL SALES", "10"); ("WAREHOUSE SALES", "5")].

Definition row_month13 : row :=
  mkrow [("YEAR", "2020"); ("MONTH", "13"); ("ITEM TYPE", "BEER");
         ("RETAIL SALES", "-5"); ("WAREHOUSE SALES", "1")].

Definition row_abc : row :=
  mkrow [("YEAR", "2020"); ("MONTH", "1"); ("ITEM TYPE", "BEER");
         ("RETAIL SALES", "abc"); ("WAREHOUSE SALES", "5")].

Definition all_facets : selection := Build_selection "ALL" "ALL" "ALL".

(** A collation by code units. *)
Definition lexCompare (a b : string) : Z :=
  match String.compare a b with Lt => -1 | Eq => 0 | Gt => 1 end.

Definition row_no_retail : row :=
  mkrow [("YEAR", "2020"); ("MONTH", "1"); ("ITEM TYPE", "BEER");
         ("WAREHOUSE SALES", "5")].

(** Two rows with sales of one decimal. *)
Definition rows_tenths : list row :=
  [mkrow [("YEAR", "2020"); ("MONTH", "1"); ("ITEM TYPE", "BEER");
          ("RETAIL SALES", "0"); ("WAREHOUSE SALES", "0.1")];
   mkrow [("YEAR", "2020"); ("MONTH", "2"); ("ITEM TYPE", "WINE");
          ("RETAIL SALES", "0.2"); ("WAREHOUSE SALES", "0.3")]].

(** Two rows of one type, the first with a text for its retail sales. *)
Definition rows_nan_then_one : list row :=
  [row_abc;
   mkrow [("YEAR", "2020"); ("MONTH", "1"); ("ITEM TYPE", "BEER");
          ("RETAIL SALES", "1"); ("WAREHOUSE SALES", "0")]].

(** The two rows of the scenario of the specification. *)
Definition rows_scenario : list row :=
  [mkrow [("YEAR", "2020"); ("MONTH", "1"); ("ITEM TYPE", "BEER");
          ("RETAIL SALES", "10"); ("WAREHOUSE SALES", "5")];
   mkrow [("YEAR", "2020"); ("MONTH", "1"); ("ITEM TYPE", "WINE");
          ("RETAIL SALES", "20"); ("WAREHOUSE SALES", "0")]].

(** Three rows of the calendar, two of them of one month. *)
Definition rows_calendar : list row :=
  [mkrow [("YEAR", "2020"); ("MONTH", "1"); ("ITEM TYPE", "BEER");
          ("RETAIL SALES", "10"); ("WAREHOUSE SALES", "5")];
   mkrow [("YEAR", "2019"); ("MONTH", "12"); ("ITEM TYPE", "WINE");
          ("RETAIL SALES", "0.5"); ("WAREHOUSE SALES", "0")];
   mkrow [("YEAR", "2020"); ("MONTH", "01"); ("ITEM TYPE", "WINE");
          ("RETAIL SALES", "20"); ("WAREHOUSE SALES", "0")]].

(** Three rows of whole amounts, two of them of one month. *)
Definition rows_months : list row :=
  [mkrow [("YEAR", "2020"); ("MONTH", "1"); ("ITEM TYPE", "BEER");
          ("RETAIL SALES", "10"); ("WAREHOUSE SALES", "5")];
   mkrow [("YEAR", "2019"); ("MONTH", "12"); ("ITEM TYPE", "WINE");
          ("RETAIL SALES", "12.00"); ("WAREHOUSE SALES", "")];
   mkrow [("YEAR", "2020"); ("MONTH", "01"); ("ITEM TYPE", "WINE");
          ("RETAIL SALES", "20")]].

(** The next [n] requests of a schedule all resolve. *)
Definition resolving (n : nat) (net : list bool) : bool :=
  forallb (fun b => b) (firstn n net).

(** The store after a vote of [k] by [uid] has gone through: the record of
    [uid] written, and the bucket raised or the counter created. *)
Definition voted (uid k : string) (now : Z) (db : store) : store :=
  Store (<[uid := VoteDoc k now]> (userVotes db))
        (Some match salesData db with
              | Some d => <[k := default 0 (d !! k) + 1]> d
              | None => {[ "support" := if String.eqb k "support" then 1 else 0;
                           "against" := if String.eqb k "against" then 1 else 0 ]}
              end).

(** A store with one vote on record, and a session that signs in, votes
    and signs out. *)
Definition sample_store : store :=
  Store {[ "alice" := VoteDoc "against" 7 ]} (Some {[ "support" := 2; "against" := 5 ]}).

Definition sample_session : list event :=
  [AuthStateChanged (Some "carol"); HandleVote "support" 11; AuthStateChanged None].

(** ** Facet lists, table preview and vote counts *)

(** [s.toLowerCase()] on code units below 256: the letters A to Z and the
    accented capitals of Latin-1 move up by 32. *)
Definition lower_char (c : ascii) : ascii :=
  let n := N_of_ascii c in
  if ((65 <=? n) && (n <=? 90) || (192 <=? n) && (n <=? 214)
      || (216 <=? n) && (n <=? 222))%N
  then ascii_of_N (n + 32) else c.

Fixpoint toLowerCase (s : string) : string :=
  match s with
  | EmptyString => EmptyString
  | String c s' => String (lower_char c) (toLowerCase s')
  end.

(** [[...new Set(l)]]: the values of [l] without repetition, in the order of
    their first occurrence. *)
Section JSSet.
Context {A : Type} `{EqDecision A}.

Definition Set_has (s : list A) (x : A) : bool :=
  existsb (fun y => bool_decide (x = y)) s.

Definition Set_add (s : list A) (x : A) : list A :=
  if Set_has s x then s else (s ++ [x])%list.

Definition new_Set (l : list A) : list A := fold_left Set_add l [].

End JSSet.

(** The order of [l.sort()] without a comparator: [undefined] goes after
    everything else, strings are compared by code units. *)
Definition default_compare (x y : option string) : Z :=
  match x, y with
  | None, None => 0
  | None, Some _ => 1
  | Some _, None => -1
  | Some a, Some b =>
      match String.compare a b with Lt => -1 | Eq => 0 | Gt => 1 end
  end.

(** [[...new Set(data.map(row => row.YEAR))].sort()] *)
Definition years (data : list row) : list (option string) :=
  Array_sort default_compare (new_Set (map (fun r : row => r !! "YEAR") data)).

(** [[...new Set(data.map(row => row.SUPPLIER))].filter(Boolean).sort()
    .slice(0, 50)] *)
Definition suppliers (data : list row) : list (option string) :=
  firstn 50
    (Array_sort default_compare
       (List.filter truthy (new_Set (map (fun r : row => r !! "SUPPLIER") data)))).

(** The rows of the preview, [filteredData.slice(0, 100)], and the
    condition of the note under it, [filteredData.length > 100]. *)
Definition tableRows (filtered : list row) : list row := firstn 100 filtered.

Definition tableNote (filtered : list row) : bool := (100 <? length filtered)%nat.

(** The month cell, [MONTHS[parseInt(row.MONTH) - 1]]. *)
Definition tableMonth (r : row) : option string :=
  month_name (JSInt.parseInt (template (r !! "MONTH"))).

(** The class of the type badge, [`type-badge ${row['ITEM TYPE']
    .toLowerCase()}`]; calling [toLowerCase] on a missing ITEM TYPE throws,
    which is [None]. *)
Definition badge (r : row) : option string :=
  match r !! "ITEM TYPE" with
  | Some t => Some ("type-badge " ++ toLowerCase t)
  | None => None
  end.

(** [useState({ support: 0, against: 0 })] and the [onSnapshot] listener
    of the counter document: a document that exists replaces the state. *)
Definition initial_votes : gmap string Z := {[ "support" := 0; "against" := 0 ]}.

Definition votesSnapshot (docSnap : option (gmap string Z)) (votes : gmap string Z)
  : gmap string Z :=
  match docSnap with
  | Some d => d
  | None => votes
  end.

(** ** More vocabulary *)

(** Two selections put together: each facet is the one that is not
    ["ALL"]; they agree when no facet asks for two different values. *)
Definition merge_facet (a b : string) : string :=
  if String.eqb a "ALL" then b else a.

Definition merge (s1 s2 : selection) : selection :=
  Build_selection (merge_facet (selectedType s1) (selectedType s2))
                  (merge_facet (selectedYear s1) (selectedYear s2))
                  (merge_facet (selectedSupplier s1) (selectedSupplier s2)).

Definition facets_agree (a b : string) : Prop := a = "ALL" \/ b = "ALL" \/ a = b.

Definition agree (s1 s2 : selection) : Prop :=
  facets_agree (selectedType s1) (selectedType s2)
  /\ facets_agree (selectedYear s1) (selectedYear s2)
  /\ facets_agree (selectedSupplier s1) (selectedSupplier s2).

(** The order of the default sort on values that may be [undefined]. *)
Definition sorts_before (x y : option string) : Prop :=
  match x, y with
  | Some a, Some b => String.compare a b = Lt
  | Some _, None => True
  | None, _ => False
  end.

(** Four rows of two suppliers, one row without a supplier and one with an
    empty one. *)
Definition rows_suppliers : list row :=
  [mkrow [("YEAR", "2020"); ("MONTH", "1"); ("ITEM TYPE", "BEER"); ("SUPPLIER", "B CO")];
   mkrow [("YEAR", "2019"); ("MONTH", "3"); ("ITEM TYPE", "WINE"); ("SUPPLIER", "A CO")];
   mkrow [("YEAR", "2020"); ("MONTH", "2"); ("ITEM TYPE", "WINE")];
   mkrow [("YEAR", "2020"); ("MONTH", "2"); ("ITEM TYPE", "KEGS"); ("SUPPLIER", "")];
   mkrow [("YEAR", "2019"); ("MONTH", "5"); ("ITEM TYPE", "BEER"); ("SUPPLIER", "B CO")]].

(** The item type a row is counted under, and the rows of a list counted
    under [t], in the order of the list. *)
Definition type_of (r : row) : string := template (r !! "ITEM TYPE").

Definition rows_of_type (t : string) (rows : list row) : list row :=
  List.filter (fun r => bool_decide (type_of r = t)) rows.

Section MoreTotals.
Context {num : Type} `{Number num}.

(** The retail plus warehouse sales of the rows of a list, added one row
    after the other to a running total that starts at [0] and starts again
    from [0] whenever it is falsy. *)
Definition add_sales (v : num) (r : row) : num :=
  num_add (if num_falsy v then num_zero else v)
          (num_add (retailSales r) (warehouseSales r)).

Definition category_sum (rows : list row) : num :=
  fold_left add_sales rows num_zero.

(** The number of records the buckets of an object count. *)
Definition count_total (o : list (string * bucket num)) : nat :=
  list_sum (map (fun e => count (snd e)) o).

(** What the total of a type becomes once the rows [rs] of that type have
    been added to it. *)
Definition type_grown (o : option num) (rs : list row) : option num :=
  match rs with
  | [] => o
  | _ :: _ => Some (fold_left add_sales rs (default num_zero o))
  end.

End MoreTotals.

(** A counter document in order: both buckets are there and not below
    zero.  No document is in order too. *)
Definition counter_ok (doc : option (gmap string Z)) : Prop :=
  match doc with
  | None => True
  | Some d => exists s a, d !! "support" = Some s /\ d !! "against" = Some a
                          /\ 0 <= s /\ 0 <= a
  end.

(** * Properties *)

(** ** The model on small inputs *)

Example parseFloat_decimal : JSNumber.parseFloat "2.25" = 2.25%float.
Proof. reflexivity. Qed.

Example parseFloat_prefix : JSNumber.parseFloat "  -12.5e2abc" = (-1250)%float.
Proof. reflexivity. Qed.

Example parseFloat_text : JSNumber.parseFloat "abc" = nan.
Proof. reflexivity. Qed.

Example parseFloat_tie_to_even :
  JSNumber.parseFloat "9007199254740993" = 9007199254740992%float.
Proof. reflexivity. Qed.

Example parseInt_month : JSInt.parseInt "07" = Some 7 /\ JSInt.parseInt "x" = None.
Proof. split; reflexivity. Qed.

Example entries_index_keys_first :
  Obj.keys [("b", 1); ("10", 2); ("a", 3); ("9", 4); ("01", 5)]
  = ["9"; "10"; "b"; "a"; "01"].
Proof. reflexivity. Qed.

Example scenario_stats :
  stats (filteredData (cleanData rows_scenario) all_facets)
  = Summary 2%nat 30%float 5%float 35%float.
Proof. vm_compute. reflexivity. Qed.

Example scenario_monthly :
  monthlySorted lexCompare (filteredData (cleanData rows_scenario) all_facets)
  = Some [("2020-01", Bucket 30%float 5%float 2%nat)]
  /\ monthlyData lexCompare (filteredData (cleanData rows_scenario) all_facets)
     = Some (Chart.Make ["Jan 2020"] [30%float] [5%float]).
Proof. split; vm_compute; reflexivity. Qed.

Example scenario_category :
  typeData (filteredData (cleanData rows_scenario) all_facets)
  = (["BEER"; "WINE"], [15%float; 20%float]).
Proof. vm_compute. reflexivity. Qed.

Example scenario_votes :
  run [AuthStateChanged (Some "u1"); HandleVote "support" 5; HandleVote "against" 6]
      (initial_app, (Store ∅ None, []))
  = (App (Some "u1") (Some "support"),
     (Store {[ "u1" := VoteDoc "support" 5 ]}
            (Some {[ "support" := 1; "against" := 0 ]}), [])).
Proof. reflexivity. Qed.

Example whole_amounts :
  Z2F 35 = JSNumber.parseFloat "35"
  /\ whole (JSNumber.parseFloat "12.00") = Some 12
  /\ whole (JSNumber.parseFloat "0.5") = None
  /\ whole (JSNumber.parseFloat "-3") = None
  /\ whole (JSNumber.parseFloat "9007199254740991") = Some 9007199254740991
  /\ whole (JSNumber.parseFloat "9007199254740992") = None.
Proof. vm_compute. repeat split. Qed.

(** Two clicks on a vote button, the second before the first call has
    finished: both pass the guard and both are counted, where two calls
    that follow each other count once. *)
Example overlapping_clicks :
  let w := Async.World sample_store {[ 0%nat := App (Some "bob") None ]} ∅ 0 in
  let clicks := [Async.HandleVote 0 "support" 20; Async.HandleVote 0 "support" 21] in
  let tasks := [Async.Settle 0 true; Async.Settle 1 true; Async.Settle 0 true;
                Async.Settle 1 true; Async.Settle 0 true; Async.Settle 1 true;
                Async.Settle 0 true; Async.Settle 1 true] in
  tally sample_store "support" = 2
  /\ tally (Async.db (Async.run (clicks ++ tasks) w)) "support" = 4
  /\ Async.pending (Async.run (clicks ++ tasks) w) = ∅
  /\ tally (fst (snd (run [HandleVote "support" 20; HandleVote "support" 21]
                         (App (Some "bob") None, (sample_store, []))))) "support" = 3.
Proof. vm_compute. repeat split. Qed.

(** ** Loader and filter *)

Lemma truthy_present v : truthy v = true <-> present v.
Proof.
  unfold truthy, present. destruct v as [s|].
  - rewrite negb_true_iff, String.eqb_neq. split.
    + intros Hs. exists s. auto.
    + intros (s' & [= <-] & Hs). exact Hs.
  - split; [discriminate | intros (s & [=] & _)].
Qed.

Lemma includes_recognised v : includes ITEM_TYPES v = true <-> recognised v.
Proof.
  unfold includes, recognised, ITEM_TYPES. destruct v as [s|]; simpl.
  - rewrite !orb_true_iff, !String.eqb_eq. split.
    + intros [->|[->|[->|[->|[->|[=]]]]]]; auto 6.
    + intros [[= ->]|[[= ->]|[[= ->]|[[= ->]|[= ->]]]]]; auto 6.
  - split; [discriminate | intros [[=]|[[=]|[[=]|[[=]|[=]]]]]].
Qed.

Lemma valid_row_spec r :
  valid_row r = true <->
  present (r !! "YEAR") /\ present (r !! "MONTH") /\ present (r !! "ITEM TYPE")
  /\ recognised (r !! "ITEM TYPE").
Proof.
  unfold valid_row. rewrite !andb_true_iff, !truthy_present, includes_recognised.
  tauto.
Qed.

Lemma strict_neq_false v s : strict_neq v s = false <-> v = Some s.
Proof.
  unfold strict_neq. destruct v as [x|].
  - rewrite negb_false_iff, String.eqb_eq. split; [intros ->; reflexivity | intros [= ->]; reflexivity].
  - split; discriminate.
Qed.

Lemma facet_spec sel v :
  negb (String.eqb sel "ALL") && strict_neq v sel = false <->
  (sel <> "ALL" -> v = Some sel).
Proof.
  rewrite andb_false_iff, negb_false_iff, String.eqb_eq, strict_neq_false.
  destruct (String.eqb_spec sel "ALL"); intuition congruence.
Qed.

Lemma keep_row_spec sel r : keep_row sel r = true <-> matches sel r.
Proof.
  unfold keep_row, matches.
  rewrite <- !facet_spec.
  destruct (negb (String.eqb (selectedType sel) "ALL") && _);
    [intuition discriminate|].
  destruct (negb (String.eqb (selectedYear sel) "ALL") && _);
    [intuition discriminate|].
  destruct (negb (String.eqb (selectedSupplier sel) "ALL") && _);
    intuition discriminate.
Qed.

(** [filter] keeps a subsequence, and every subsequence of accepted
    elements is a subsequence of what it keeps. *)
Lemma filter_sublist {A} (f : A -> bool) (l : list A) : sublist (List.filter f l) l.
Proof.
  induction l as [|x l IH]; simpl; [constructor|].
  destruct (f x); [apply sublist_skip | apply sublist_cons]; exact IH.
Qed.

Lemma filter_greatest {A} (f : A -> bool) (l k : list A) :
  sublist k l -> Forall (fun x => f x = true) k -> sublist k (List.filter f l).
Proof.
  revert k. induction l as [|x l IH]; intros k Hk Hf; simpl.
  - apply sublist_nil_r in Hk. subst k. constructor.
  - apply sublist_cons_r in Hk. destruct Hk as [Hk | (k' & -> & Hk)].
    + destruct (f x); [apply sublist_cons|]; apply IH; assumption.
    + apply Forall_cons in Hf. destruct Hf as [Hx Hf]. rewrite Hx.
      apply sublist_skip, IH; assumption.
Qed.

(** C1.  [filteredData] returns exactly the records that match every facet
    of the selection that is not ["ALL"], by equality of strings, in the
    order of the input: its result is a subsequence of the input, holds a
    record iff the input holds it and it matches, and any subsequence of
    the input made of matching records is a subsequence of the result. *)
Theorem filteredData_exact (data : list row) (sel : selection) :
  sublist (filteredData data sel) data
  /\ (forall r, In r (filteredData data sel) <-> In r data /\ matches sel r)
  /\ (forall k, sublist k data -> Forall (matches sel) k ->
                sublist k (filteredData data sel)).
Proof.
  unfold filteredData. split; [apply filter_sublist | split].
  - intros r. rewrite filter_In, keep_row_spec. reflexivity.
  - intros k Hk Hm. apply filter_greatest; [exact Hk|].
    eapply Forall_impl; [exact Hm|]. intros r Hr. apply keep_row_spec, Hr.
Qed.

(** C2.  A row of the parsed result is retained iff its YEAR, MONTH and
    ITEM TYPE are present and ITEM TYPE is one of the five values; the
    other rows are left out and the load still yields a record set, in
    which no row with ITEM TYPE ["SODA"] appears. *)
Theorem cleanData_retains (results : list row) :
  (forall r, In r (cleanData results) <->
     In r results /\ present (r !! "YEAR") /\ present (r !! "MONTH")
     /\ present (r !! "ITEM TYPE") /\ recognised (r !! "ITEM TYPE"))
  /\ sublist (cleanData results) results
  /\ (forall r, r !! "ITEM TYPE" = Some "SODA" -> ~ In r (cleanData results)).
Proof.
  unfold cleanData. split; [|split].
  - intros r. rewrite filter_In, valid_row_spec. reflexivity.
  - apply filter_sublist.
  - intros r Hsoda Hin. apply filter_In in Hin. destruct Hin as [_ Hv].
    apply valid_row_spec in Hv. destruct Hv as (_ & _ & _ & Hrec).
    rewrite Hsoda in Hrec.
    destruct Hrec as [[=]|[[=]|[[=]|[[=]|[=]]]]].
Qed.


(** C8, as stated, fails: the loader keeps a row of month 13 with retail
    sales of -5, which is not a [SalesRecord]. *)
Lemma cleanData_keeps_month13 :
  In row_month13 (cleanData [row_month13])
  /\ ~ month_in_range row_month13
  /\ ~ non_negative (retailSales row_month13)
  /\ ~ SalesRecord row_month13.
Proof.
  assert (Hm : ~ month_in_range row_month13).
  { intros (n & Hn & Hle). vm_compute in Hn. injection Hn as <-. lia. }
  assert (Hr : ~ non_negative (retailSales row_month13)).
  { unfold non_negative. vm_compute. discriminate. }
  repeat split; try assumption.
  - vm_compute. left. reflexivity.
  - intros (_ & _ & H & _). exact (Hm H).
Qed.

(** C8, amended.  Every record the loader retains has a present YEAR, a
    present MONTH and an ITEM TYPE among the five values; the loader checks
    neither the range of the month nor the sales fields. *)
Theorem cleanData_validated (results : list row) :
  Forall (fun r => present (r !! "YEAR") /\ present (r !! "MONTH")
                   /\ present (r !! "ITEM TYPE") /\ recognised (r !! "ITEM TYPE"))
         (cleanData results).
Proof.
  apply List.Forall_forall. intros r Hin. apply filter_In in Hin.
  apply valid_row_spec, Hin.
Qed.


(** ** Sales fields that are missing *)

Section MissingField.
Context {num : Type} `{Number num}.

Lemma truthy_false v : truthy v = false <-> v = None \/ v = Some "".
Proof.
  unfold truthy. destruct v as [s|].
  - rewrite negb_false_iff, String.eqb_eq. split.
    + intros ->. right. reflexivity.
    + intros [[=]|[= ->]]. reflexivity.
  - split; auto.
Qed.

Lemma sales_falsy v : truthy v = false -> sales v = parseFloat "0".
Proof. intros Hv. unfold sales. rewrite Hv. reflexivity. Qed.

Variables (r : row) (field : string).
Hypothesis Hfield : field = "RETAIL SALES" \/ field = "WAREHOUSE SALES".
Hypothesis Hmissing : truthy (r !! field) = false.

Lemma zeroed_retailSales : retailSales (<[field := "0"]> r) = retailSales r.
Proof.
  unfold retailSales. destruct Hfield as [-> | ->].
  - rewrite lookup_insert_eq. rewrite (sales_falsy _ Hmissing). reflexivity.
  - rewrite lookup_insert_ne by discriminate. reflexivity.
Qed.

Lemma zeroed_warehouseSales : warehouseSales (<[field := "0"]> r) = warehouseSales r.
Proof.
  unfold warehouseSales. destruct Hfield as [-> | ->].
  - rewrite lookup_insert_ne by discriminate. reflexivity.
  - rewrite lookup_insert_eq. rewrite (sales_falsy _ Hmissing). reflexivity.
Qed.

Lemma zeroed_monthKey : monthKey (<[field := "0"]> r) = monthKey r.
Proof.
  unfold monthKey.
  destruct Hfield as [-> | ->]; rewrite !lookup_insert_ne by discriminate; reflexivity.
Qed.

Lemma zeroed_monthly_step a : monthly_step a (<[field := "0"]> r) = monthly_step a r.
Proof.
  unfold monthly_step, add_row.
  rewrite zeroed_monthKey, zeroed_retailSales, zeroed_warehouseSales. reflexivity.
Qed.

Lemma zeroed_type_step a : type_step a (<[field := "0"]> r) = type_step a r.
Proof.
  unfold type_step. rewrite zeroed_retailSales, zeroed_warehouseSales.
  destruct Hfield as [-> | ->]; rewrite !lookup_insert_ne by discriminate; reflexivity.
Qed.

Lemma zeroed_stats_step a : stats_step a (<[field := "0"]> r) = stats_step a r.
Proof.
  unfold stats_step. rewrite zeroed_retailSales, zeroed_warehouseSales. reflexivity.
Qed.

Lemma zeroed_monthly_loop before after a :
  monthly_loop a (before ++ <[field := "0"]> r :: after)
  = monthly_loop a (before ++ r :: after).
Proof.
  revert a. induction before as [|x before IH]; intros a; simpl.
  - rewrite zeroed_monthly_step. reflexivity.
  - destruct (monthly_step a x); [apply IH | reflexivity].
Qed.

Lemma zeroed_aggregates localeCompare before after :
  monthlyData localeCompare (before ++ <[field := "0"]> r :: after)
  = monthlyData localeCompare (before ++ r :: after)
  /\ typeData (before ++ <[field := "0"]> r :: after) = typeData (before ++ r :: after)
  /\ stats (before ++ <[field := "0"]> r :: after) = stats (before ++ r :: after).
Proof.
  split; [|split].
  - unfold monthlyData, monthlySorted. rewrite zeroed_monthly_loop. reflexivity.
  - unfold typeData, typeAggregated. rewrite !fold_left_app. simpl.
    rewrite zeroed_type_step. reflexivity.
  - unfold stats. rewrite !fold_left_app, !length_app. simpl.
    rewrite zeroed_stats_step. reflexivity.
Qed.

End MissingField.

(** C3, as stated, fails: a retained record whose RETAIL SALES is the text
    ["abc"] contributes [NaN], and the totals of all three aggregates
    become [NaN]. *)
Lemma non_numeric_sales_give_nan :
  let rows := filteredData (cleanData [row_abc]) all_facets in
  rows = [row_abc]
  /\ retailSales row_abc = nan
  /\ retailSales row_abc <> (zero : float)
  /\ Chart.retail <$> monthlyData lexCompare rows = Some [nan]
  /\ snd (typeData rows) = [nan]
  /\ totalRetail (stats rows) = nan
  /\ totalSales (stats rows) = nan.
Proof.
  repeat split; try (vm_compute; reflexivity).
  intros Heq. apply (f_equal is_nan) in Heq. vm_compute in Heq. discriminate.
Qed.

(** C3, amended.  A sales field that is missing or empty contributes exactly
    [0] to every aggregate: its contribution is the number [0], and the
    monthly, category and summary aggregates of any list are those of the
    list in which the field reads ["0"].  (A field that is not empty
    contributes whatever [parseFloat] makes of its text.) *)
Theorem missing_sales_contribute_zero
    (r : row) (field : string) (before after : list row)
    (localeCompare : string -> string -> Z) :
  field = "RETAIL SALES" \/ field = "WAREHOUSE SALES" ->
  r !! field = None \/ r !! field = Some "" ->
  sales (r !! field) = (zero : float)
  /\ monthlyData (num := float) localeCompare (before ++ r :: after)
     = monthlyData localeCompare (before ++ <[field := "0"]> r :: after)
  /\ typeData (num := float) (before ++ r :: after)
     = typeData (before ++ <[field := "0"]> r :: after)
  /\ stats (num := float) (before ++ r :: after)
     = stats (before ++ <[field := "0"]> r :: after).
Proof.
  intros Hfield Hmissing. apply truthy_false in Hmissing.
  split.
  - rewrite (sales_falsy _ Hmissing). reflexivity.
  - destruct (zeroed_aggregates r field Hfield Hmissing localeCompare before after)
      as (Hm & Ht & Hs).
    rewrite Hm, Ht, Hs. auto.
Qed.

Lemma missing_sales_contribute_zero_witness :
  sales (row_no_retail !! "RETAIL SALES") = (zero : float)
  /\ monthlyData (num := float) lexCompare ([row_month13] ++ row_no_retail :: [])
     = monthlyData lexCompare
         ([row_month13] ++ <["RETAIL SALES" := "0"]> row_no_retail :: [])
  /\ typeData (num := float) ([row_month13] ++ row_no_retail :: [])
     = typeData ([row_month13] ++ <["RETAIL SALES" := "0"]> row_no_retail :: [])
  /\ stats (num := float) ([row_month13] ++ row_no_retail :: [])
     = stats ([row_month13] ++ <["RETAIL SALES" := "0"]> row_no_retail :: []).
Proof.
  apply (missing_sales_contribute_zero row_no_retail "RETAIL SALES"
           [row_month13] [] lexCompare).
  - left. reflexivity.
  - left. reflexivity.
Defined.

(** ** Category totals against the summary *)

Section ObjFacts.
Context {V : Type}.
Implicit Types (o : list (string * V)) (k : string) (v : V).

Lemma get_set_eq k v o : Obj.get k (Obj.set k v o) = Some v.
Proof.
  induction o as [|[k' v'] o IH]; simpl.
  - rewrite String.eqb_refl. reflexivity.
  - destruct (String.eqb k k') eqn:E; simpl.
    + rewrite String.eqb_refl. reflexivity.
    + rewrite E. exact IH.
Qed.

Lemma set_new k v o : Obj.get k o = None -> Obj.set k v o = (o ++ [(k, v)])%list.
Proof.
  induction o as [|[k' v'] o IH]; simpl; [reflexivity|].
  destruct (String.eqb k k'); [discriminate|].
  intros Hget. rewrite IH by exact Hget. reflexivity.
Qed.

Lemma set_same k v o : Obj.get k o = Some v -> Obj.set k v o = o.
Proof.
  induction o as [|[k' v'] o IH]; simpl; [discriminate|].
  destruct (String.eqb_spec k k') as [->|Hne].
  - intros [= ->]. reflexivity.
  - intros Hget. rewrite IH by exact Hget. reflexivity.
Qed.

Lemma sort_insert_perm {A} (cmp : A -> A -> Z) x (l : list A) :
  Permutation (sort_insert cmp x l) (x :: l).
Proof.
  induction l as [|y l IH]; simpl; [reflexivity|].
  destruct (cmp x y <=? 0)%Z; [reflexivity|].
  rewrite IH. apply perm_swap.
Qed.

Lemma Array_sort_perm {A} (cmp : A -> A -> Z) (l : list A) :
  Permutation (Array_sort cmp l) l.
Proof.
  induction l as [|x l IH]; simpl; [reflexivity|].
  rewrite sort_insert_perm, IH. reflexivity.
Qed.

Lemma filter_split_perm {A} (f : A -> bool) (l : list A) :
  Permutation (List.filter f l ++ List.filter (fun x => negb (f x)) l) l.
Proof.
  induction l as [|x l IH]; simpl; [reflexivity|].
  destruct (f x); simpl.
  - rewrite IH. reflexivity.
  - rewrite <- Permutation_middle, IH. reflexivity.
Qed.

Lemma entries_perm o : Permutation (Obj.entries o) o.
Proof.
  unfold Obj.entries. rewrite Array_sort_perm. apply filter_split_perm.
Qed.

End ObjFacts.

Section Exact.
Context {num : Type} `{Number num}.
Hypothesis add_assoc : forall x y z : num,
  num_add x (num_add y z) = num_add (num_add x y) z.
Hypothesis add_comm : forall x y : num, num_add x y = num_add y x.
Hypothesis add_zero : forall x : num, num_add num_zero x = x.
Hypothesis falsy_zero : forall x : num, num_falsy x = true -> x = num_zero.

Lemma fold_left_add (l : list num) (a : num) :
  fold_left num_add l a = num_add a (sumr l).
Proof.
  revert a. induction l as [|x l IH]; intros a; simpl.
  - rewrite add_comm, add_zero. reflexivity.
  - rewrite IH, add_assoc. reflexivity.
Qed.

Lemma sum_sumr (l : list num) : sum l = sumr l.
Proof. unfold sum. rewrite fold_left_add. apply add_zero. Qed.

Lemma sumr_app (l1 l2 : list num) : sumr (l1 ++ l2) = num_add (sumr l1) (sumr l2).
Proof.
  induction l1 as [|x l1 IH]; simpl.
  - rewrite add_zero. reflexivity.
  - rewrite IH, add_assoc. reflexivity.
Qed.

Lemma sumr_perm (l1 l2 : list num) : Permutation l1 l2 -> sumr l1 = sumr l2.
Proof.
  induction 1 as [|x l1 l2 _ IH|x y l|l1 l2 l3 _ IH1 _ IH2]; simpl.
  - reflexivity.
  - rewrite IH. reflexivity.
  - rewrite !add_assoc, (add_comm y x). reflexivity.
  - rewrite IH1. exact IH2.
Qed.

Lemma total_alter (x : num) k o v :
  Obj.get k o = Some v ->
  total (Obj.alter (fun v => num_add v x) k o) = num_add (total o) x.
Proof.
  unfold total. revert v. induction o as [|[k' v'] o IH]; intros v; simpl; [discriminate|].
  destruct (String.eqb k k'); simpl.
  - intros _. rewrite <- !add_assoc, (add_comm x). reflexivity.
  - intros Hget. rewrite (IH _ Hget), add_assoc. reflexivity.
Qed.

Lemma total_type_step a r :
  total (type_step a r)
  = num_add (total a) (num_add (retailSales r) (warehouseSales r)).
Proof.
  unfold type_step.
  set (k := template (r !! "ITEM TYPE")).
  set (x := num_add (retailSales r) (warehouseSales r)).
  destruct (Obj.get k a) as [v|] eqn:Hget.
  - destruct (num_falsy v) eqn:Hf.
    + apply falsy_zero in Hf. subst v.
      rewrite (set_same _ _ _ Hget). apply (total_alter x k a _ Hget).
    + apply (total_alter x k a _ Hget).
  - rewrite (total_alter x k _ num_zero) by apply get_set_eq.
    rewrite (set_new _ _ _ Hget). unfold total.
    rewrite map_app, sumr_app. simpl.
    rewrite (add_zero num_zero), (add_comm (sumr (map snd a)) num_zero), add_zero.
    reflexivity.
Qed.

Lemma total_fold rows a acc :
  total a = num_add (fst acc) (snd acc) ->
  total (fold_left type_step rows a)
  = num_add (fst (fold_left stats_step rows acc))
            (snd (fold_left stats_step rows acc)).
Proof.
  revert a acc. induction rows as [|r rows IH]; intros a acc Hacc; simpl.
  - exact Hacc.
  - apply IH. rewrite total_type_step, Hacc. unfold stats_step. simpl.
    rewrite !add_assoc. f_equal.
    rewrite <- !add_assoc. f_equal. apply add_comm.
Qed.

Lemma category_sum_is_total (rows : list row) :
  sum (snd (typeData rows)) = totalSales (stats rows).
Proof.
  unfold typeData, stats, typeAggregated. simpl.
  rewrite sum_sumr. unfold Obj.values.
  rewrite (sumr_perm _ (map snd (fold_left type_step rows []))).
  2:{ apply Permutation_map, entries_perm. }
  pose proof (total_fold rows [] (num_zero, num_zero)) as Ht.
  destruct (fold_left stats_step rows (num_zero, num_zero)) as [tr tw] eqn:E.
  simpl in *. apply Ht. unfold total. simpl. rewrite add_zero. reflexivity.
Qed.

End Exact.

(** C9, as stated, fails, in two ways.  For two records with sales 0, 0.1
    and 0.2, 0.3 the category values sum to 0.6 while total sales is the
    next number above, because the two sums round differently.  And a
    category total that is [NaN] is falsy, so the next record of the type
    starts it again from [0], while the summary stays [NaN]: for records of
    one type with retail sales ["abc"] and ["1"] the category values sum to
    1 and total sales is [NaN]. *)
Lemma category_sum_rounds_apart :
  let rows := filteredData (cleanData rows_tenths) all_facets in
  let rows' := filteredData (cleanData rows_nan_then_one) all_facets in
  (rows = rows_tenths
   /\ sum (snd (typeData rows)) = JSNumber.parseFloat "0.6"
   /\ totalSales (stats rows) = JSNumber.parseFloat "0.6000000000000001"
   /\ sum (snd (typeData (num := float) rows)) <> totalSales (stats rows))
  /\ (rows' = rows_nan_then_one
      /\ snd (typeData rows') = [one]
      /\ sum (snd (typeData rows')) = one
      /\ totalSales (stats rows') = nan
      /\ sum (snd (typeData (num := float) rows')) <> totalSales (stats rows')).
Proof.
  split.
  - repeat split; try (vm_compute; reflexivity).
    intros Heq.
    apply (f_equal (fun x => PrimFloat.eqb x (JSNumber.parseFloat "0.6"))) in Heq.
    vm_compute in Heq. discriminate.
  - repeat split; try (vm_compute; reflexivity).
    intros Heq. apply (f_equal is_nan) in Heq. vm_compute in Heq. discriminate.
Qed.

(** ** Whole amounts in binary64 *)

Section WholeAmounts.

Lemma iter_pos_iter {A} (f : A -> A) (n : positive) : forall x,
  SpecFloat.iter_pos f n x = Pos.iter f x n.
Proof.
  induction n as [n IH|n IH|]; intros x; simpl.
  - rewrite !IH, !Pos.iter_swap. reflexivity.
  - rewrite !IH. reflexivity.
  - reflexivity.
Qed.

Lemma digits_iter (p n : positive) :
  Zpos (digits2_pos (Pos.iter xO p n)) = Zpos (digits2_pos p) + Zpos n.
Proof.
  induction n as [|n IH] using Pos.peano_ind.
  - simpl. lia.
  - rewrite Pos.iter_succ. simpl. lia.
Qed.

Lemma shr_iter (p n : positive) :
  SpecFloat.iter_pos shr_1 n (Build_shr_record (Zpos (Pos.iter xO p n)) false false)
  = Build_shr_record (Zpos p) false false.
Proof.
  rewrite iter_pos_iter.
  induction n as [|n IH] using Pos.peano_ind.
  - reflexivity.
  - rewrite !Pos.iter_succ. rewrite <- Pos.iter_swap. simpl. exact IH.
Qed.



Lemma shl_shl p a b : 0 <= a -> 0 <= b -> shl (shl p a) b = shl p (a + b).
Proof.
  destruct a as [|a|a], b as [|b|b]; intros Ha Hb; try lia; simpl; try reflexivity.
  rewrite Pos.add_comm, Pos.iter_add. reflexivity.
Qed.

Lemma digits_shl p k : 0 <= k ->
  Zpos (digits2_pos (shl p k)) = Zpos (digits2_pos p) + k.
Proof.
  destruct k as [|k|k]; intros Hk; try lia; simpl; [lia|]. apply digits_iter.
Qed.

Lemma Zpos_shl p k : 0 <= k -> Zpos (shl p k) = Zpos p * 2 ^ k.
Proof.
  destruct k as [|k|k]; intros Hk; try lia; simpl; [lia|].
  change (Z.pow_pos 2 k) with (2 ^ Zpos k).
  induction k as [|k IH] using Pos.peano_ind.
  - simpl. lia.
  - rewrite Pos.iter_succ, Pos2Z.inj_succ, Z.pow_succ_r by lia.
    rewrite Pos2Z.inj_xO, IH by lia. ring.
Qed.

Lemma shr_shl p e k : 0 <= k ->
  shr (Build_shr_record (Zpos (shl p k)) false false) e k
  = (Build_shr_record (Zpos p) false false, e + k).
Proof.
  destruct k as [|k|k]; intros Hk; try lia; simpl.
  - f_equal. lia.
  - rewrite shr_iter. reflexivity.
Qed.

Lemma fexp_small x : 0 < x <= 53 -> fexp prec emax x = x - 53.
Proof. intros Hx. unfold fexp, emin, prec, emax. lia. Qed.

Lemma shl_align_shl q k e' :
  0 <= k -> e' <= 0 ->
  exists j, 0 <= j /\ - e' <= j /\ shl_align (shl q k) (- k) e' = (shl q j, - j).
Proof.
  intros Hk He. unfold shl_align.
  destruct (e' - - k) as [|n|n] eqn:En.
  - exists k. repeat split; [lia | lia].
  - exists k. repeat split; [lia | lia].
  - exists (- e'). split; [lia|]. split; [lia|].
    change (Pos.iter xO (shl q k) n) with (shl (shl q k) (Zpos n)).
    rewrite shl_shl by lia. f_equal; [f_equal; lia | lia].
Qed.

Lemma binary_round_aux_shl s q j :
  0 <= j -> Zpos (digits2_pos q) <= 53 -> 53 - Zpos (digits2_pos q) <= j ->
  binary_round_aux prec emax s (Zpos (shl q j)) (- j) loc_Exact
  = S754_finite s (shl q (53 - Zpos (digits2_pos q))) (Zpos (digits2_pos q) - 53).
Proof.
  intros Hj Hd Hdj. set (d := Zpos (digits2_pos q)) in *.
  assert (Hd0 : 0 < d) by (unfold d; lia).
  unfold binary_round_aux, shr_fexp. cbn [Zdigits2 shr_record_of_loc].
  rewrite digits_shl by exact Hj. fold d.
  replace (d + j + - j) with d by lia.
  rewrite fexp_small by lia.
  replace (shl q j) with (shl (shl q (53 - d)) (d - 53 - - j)).
  2:{ rewrite shl_shl by lia. f_equal. lia. }
  rewrite shr_shl by lia.
  cbn [shr_m loc_of_shr_record round_nearest_even Zdigits2 shr_record_of_loc].
  rewrite digits_shl by lia. fold d.
  replace (d + (53 - d) + (- j + (d - 53 - - j))) with d by lia.
  rewrite fexp_small by lia.
  replace (d - 53 - (- j + (d - 53 - - j))) with 0 by lia.
  cbn [shr shr_m].
  replace (- j + (d - 53 - - j)) with (d - 53) by lia.
  replace (d - 53 <=? emax - prec)%Z with true; [reflexivity|].
  symmetry. apply Z.leb_le. unfold emax, prec. lia.
Qed.

(** Rounding a number of at most 53 binary digits changes nothing: it
    only moves the mantissa to its place. *)
Lemma binary_round_shl s q k :
  0 <= k -> Zpos (digits2_pos q) <= 53 ->
  binary_round prec emax s (shl q k) (- k)
  = S754_finite s (shl q (53 - Zpos (digits2_pos q))) (Zpos (digits2_pos q) - 53).
Proof.
  intros Hk Hd. set (d := Zpos (digits2_pos q)) in *.
  assert (Hd0 : 0 < d) by (unfold d; lia).
  unfold binary_round.
  rewrite digits_shl by exact Hk. fold d.
  replace (d + k + - k) with d by lia.
  rewrite fexp_small by lia.
  destruct (shl_align_shl q k (d - 53) Hk) as (j & Hj & Hdj & ->); [lia|].
  apply binary_round_aux_shl; fold d; lia.
Qed.

Lemma digits_bounds q :
  2 ^ (Zpos (digits2_pos q) - 1) <= Zpos q < 2 ^ Zpos (digits2_pos q).
Proof.
  induction q as [q IH|q IH|]; cbn [digits2_pos].
  - rewrite Pos2Z.inj_succ, Z.pow_succ_r by lia.
    replace (Z.succ (Zpos (digits2_pos q)) - 1) with (Z.succ (Zpos (digits2_pos q) - 1)) by lia.
    rewrite Z.pow_succ_r by lia. lia.
  - rewrite Pos2Z.inj_succ, Z.pow_succ_r by lia.
    replace (Z.succ (Zpos (digits2_pos q)) - 1) with (Z.succ (Zpos (digits2_pos q) - 1)) by lia.
    rewrite Z.pow_succ_r by lia. lia.
  - simpl. lia.
Qed.

Lemma digits_le_53 q : Zpos q < 2 ^ 53 -> Zpos (digits2_pos q) <= 53.
Proof.
  intros Hq. destruct (digits_bounds q) as [Hlo _].
  destruct (Z.le_gt_cases (Zpos (digits2_pos q)) 53) as [H|H]; [exact H|].
  assert (2 ^ 53 <= 2 ^ (Zpos (digits2_pos q) - 1)) by (apply Z.pow_le_mono_r; lia).
  lia.
Qed.

(** The binary64 number of a whole number from [1] to [2^53 - 1]. *)
Lemma SFint_pos q :
  Zpos q < 2 ^ 53 ->
  SFint (Zpos q)
  = S754_finite false (shl q (53 - Zpos (digits2_pos q))) (Zpos (digits2_pos q) - 53).
Proof.
  intros Hq. unfold SFint, binary_normalize.
  apply (binary_round_shl false q 0); [lia | apply digits_le_53, Hq].
Qed.

Lemma SFint_valid z : 0 <= z < 2 ^ 53 -> valid_binary (SFint z) = true.
Proof.
  intros Hz. destruct z as [|q|q]; [reflexivity | | lia].
  rewrite SFint_pos by lia. pose proof (digits_le_53 q ltac:(lia)) as Hd.
  unfold valid_binary, bounded, canonical_mantissa.
  rewrite digits_shl by lia.
  rewrite fexp_small by lia.
  apply andb_true_intro. split; [apply Z.eqb_eq; lia|].
  apply Z.leb_le. unfold emax, prec. lia.
Qed.

Lemma Prim2SF_Z2F z : 0 <= z < 2 ^ 53 -> Prim2SF (Z2F z) = SFint z.
Proof. intros Hz. apply Prim2SF_SF2Prim, SFint_valid, Hz. Qed.

Lemma shl_align_fst m e e' : e' <= e -> fst (shl_align m e e') = shl m (e - e').
Proof.
  intros He. unfold shl_align.
  destruct (e' - e) as [|n|n] eqn:En; simpl.
  - replace (e - e') with 0 by lia. reflexivity.
  - lia.
  - replace (e - e') with (Zpos n) by lia. reflexivity.
Qed.

Lemma SFadd_int a b :
  0 <= a -> 0 <= b -> a + b < 2 ^ 53 ->
  SFadd prec emax (SFint a) (SFint b) = SFint (a + b).
Proof.
  intros Ha Hb Hab.
  destruct a as [|qa|qa]; [|clear Ha|lia].
  { destruct b as [|qb|qb]; [reflexivity | | lia].
    change (0 + Zpos qb) with (Zpos qb). rewrite SFint_pos by lia. reflexivity. }
  destruct b as [|qb|qb]; [|clear Hb|lia].
  { rewrite Z.add_0_r. rewrite SFint_pos by lia. reflexivity. }
  rewrite (SFint_pos qa), (SFint_pos qb) by lia.
  set (da := Zpos (digits2_pos qa)). set (db := Zpos (digits2_pos qb)).
  assert (Hda : da <= 53) by (apply digits_le_53; lia).
  assert (Hdb : db <= 53) by (apply digits_le_53; lia).
  cbn [SFadd cond_Zopp].
  set (ez := Z.min (da - 53) (db - 53)).
  rewrite !shl_align_fst by lia.
  rewrite !shl_shl by lia.
  replace (53 - da + (da - 53 - ez)) with (- ez) by lia.
  replace (53 - db + (db - 53 - ez)) with (- ez) by lia.
  assert (Hsum : Zpos (shl qa (- ez)) + Zpos (shl qb (- ez)) = Zpos (shl (qa + qb) (- ez))).
  { rewrite !Zpos_shl by lia. rewrite Pos2Z.inj_add. ring. }
  rewrite Hsum. cbn [binary_normalize].
  replace ez with (- - ez) at 2 by lia.
  rewrite binary_round_shl by (try lia; apply digits_le_53; lia).
  symmetry. change (Zpos qa + Zpos qb) with (Zpos (qa + qb)).
  apply SFint_pos. lia.
Qed.

Theorem Z2F_add a b :
  0 <= a -> 0 <= b -> a + b < 2 ^ 53 -> (Z2F a + Z2F b)%float = Z2F (a + b).
Proof.
  intros Ha Hb Hab. apply Prim2SF_inj.
  rewrite add_spec, !Prim2SF_Z2F by lia. apply SFadd_int; assumption.
Qed.


Lemma falsy_Z2F z : 0 <= z < 2 ^ 53 -> JSNumber.falsy (Z2F z) = (z =? 0)%Z.
Proof.
  intros Hz. unfold JSNumber.falsy, is_zero, is_nan.
  rewrite !FloatAxioms.eqb_spec, !Prim2SF_Z2F by lia.
  destruct z as [|q|q]; [reflexivity | | lia].
  rewrite SFint_pos by lia. unfold SFeqb.
  change (Prim2SF zero) with (S754_zero false). cbn [SFcompare].
  rewrite Z.compare_refl, Pos.compare_cont_refl. reflexivity.
Qed.

Lemma whole_Some x z : whole x = Some z -> x = Z2F z /\ 0 <= z < 2 ^ 53.
Proof.
  unfold whole. set (c := candidate (Prim2SF x)).
  destruct (0 <=? c)%Z eqn:E1; [|discriminate].
  destruct (c <? 2 ^ 53)%Z eqn:E2; [|discriminate].
  destruct (PrimFloat.Leibniz.eqb (Z2F c) x) eqn:E3; [|discriminate].
  intros [= <-]. apply FloatAxioms.Leibniz.eqb_spec in E3.
  split; [symmetry; exact E3|]. apply Z.leb_le in E1. apply Z.ltb_lt in E2. lia.
Qed.

Lemma whole_Z2F z : 0 <= z < 2 ^ 53 -> whole (Z2F z) = Some z.
Proof.
  intros Hz. unfold whole. rewrite Prim2SF_Z2F by exact Hz.
  assert (Hc : candidate (SFint z) = z).
  { destruct z as [|q|q]; [reflexivity | | lia].
    rewrite SFint_pos by lia. pose proof (digits_le_53 q ltac:(lia)) as Hd.
    cbn [candidate]. rewrite Zpos_shl by lia.
    set (d := Zpos (digits2_pos q)) in *.
    replace (d - 53) with (- (53 - d)) by lia.
    rewrite <- Z.shiftl_mul_pow2 by lia. rewrite <- Z.shiftr_opp_r. rewrite Z.opp_involutive.
    rewrite Z.shiftr_shiftl_l by lia. rewrite Z.sub_diag. reflexivity. }
  rewrite Hc.
  replace (0 <=? z)%Z with true by (symmetry; apply Z.leb_le; lia).
  replace (z <? 2 ^ 53)%Z with true by (symmetry; apply Z.ltb_lt; lia).
  replace (PrimFloat.Leibniz.eqb (Z2F z) (Z2F z)) with true; [reflexivity|].
  symmetry. apply FloatAxioms.Leibniz.eqb_spec. reflexivity.
Qed.


End WholeAmounts.

(** ** The reducers on whole amounts *)

Section Lift.
Context {V W : Type} (h : V -> W).
Implicit Types (o : list (string * V)) (k : string).

Lemma get_lift k o : Obj.get k (lift h o) = h <$> Obj.get k o.
Proof.
  induction o as [|[k' v] o IH]; simpl; [reflexivity|].
  destruct (String.eqb k k'); [reflexivity | exact IH].
Qed.

Lemma set_lift k v o : Obj.set k (h v) (lift h o) = lift h (Obj.set k v o).
Proof.
  induction o as [|[k' v'] o IH]; simpl; [reflexivity|].
  destruct (String.eqb k k'); simpl; [reflexivity|]. rewrite IH. reflexivity.
Qed.

Lemma alter_lift (f : W -> W) (g : V -> V) k o :
  (forall v, Obj.get k o = Some v -> f (h v) = h (g v)) ->
  Obj.alter f k (lift h o) = lift h (Obj.alter g k o).
Proof.
  induction o as [|[k' v'] o IH]; simpl; intros Hfg; [reflexivity|].
  destruct (String.eqb k k'); simpl.
  - rewrite Hfg by reflexivity. reflexivity.
  - rewrite IH by exact Hfg. reflexivity.
Qed.

Lemma sort_insert_map {A B} (m : A -> B) (cmpA : A -> A -> Z) (cmpB : B -> B -> Z) x l :
  (forall a b, cmpB (m a) (m b) = cmpA a b) ->
  sort_insert cmpB (m x) (map m l) = map m (sort_insert cmpA x l).
Proof.
  intros Hcmp. induction l as [|y l IH]; simpl; [reflexivity|].
  rewrite Hcmp. destruct (cmpA x y <=? 0)%Z; simpl; [reflexivity|].
  rewrite IH. reflexivity.
Qed.

Lemma Array_sort_map {A B} (m : A -> B) (cmpA : A -> A -> Z) (cmpB : B -> B -> Z) l :
  (forall a b, cmpB (m a) (m b) = cmpA a b) ->
  Array_sort cmpB (map m l) = map m (Array_sort cmpA l).
Proof.
  intros Hcmp. induction l as [|y l IH]; simpl; [reflexivity|].
  rewrite IH. apply sort_insert_map, Hcmp.
Qed.

Lemma filter_map_fst {A B} (m : A -> B) (p : B -> bool) (q : A -> bool) l :
  (forall a, p (m a) = q a) ->
  List.filter p (map m l) = map m (List.filter q l).
Proof.
  intros Hpq. induction l as [|y l IH]; simpl; [reflexivity|].
  rewrite Hpq. destruct (q y); simpl; rewrite IH; reflexivity.
Qed.

Lemma entries_lift o : Obj.entries (lift h o) = lift h (Obj.entries o).
Proof.
  unfold Obj.entries, lift. rewrite map_app. f_equal.
  - rewrite (filter_map_fst _ _ (fun e => Obj.is_array_index (fst e)))
      by reflexivity.
    apply Array_sort_map. reflexivity.
  - apply filter_map_fst. reflexivity.
Qed.

Lemma values_lift o : Obj.values (lift h o) = map h (Obj.values o).
Proof.
  unfold Obj.values. rewrite entries_lift. unfold lift.
  rewrite !map_map. reflexivity.
Qed.

End Lift.

Section WholeReducers.
Implicit Types (az : list (string * Z)) (rows : list row) (r : row).

Lemma whole_amount x :
  is_Some (whole x) -> x = Z2F (amount x) /\ 0 <= amount x < 2 ^ 53.
Proof.
  intros [z Hz]. unfold amount. rewrite Hz. simpl. apply whole_Some, Hz.
Qed.

Lemma amount_nonneg x : 0 <= amount x.
Proof.
  unfold amount. destruct (whole x) as [z|] eqn:Hz; simpl; [|lia].
  apply whole_Some in Hz. lia.
Qed.

Lemma whole_total_nonneg rows : 0 <= whole_total rows.
Proof.
  induction rows as [|r rows IH]; cbn [whole_total fold_right]; [lia|].
  fold (whole_total rows).
  pose proof (amount_nonneg (retailSales r)). pose proof (amount_nonneg (warehouseSales r)).
  lia.
Qed.

Lemma totalZ_cons k v az : @total Z whole_number ((k, v) :: az) = v + @total Z whole_number az.
Proof. reflexivity. Qed.

Lemma total_nonneg az : nonneg az -> 0 <= @total Z whole_number az.
Proof.
  induction 1 as [|[k v] az Hv _ IH]; [unfold total; simpl; lia|].
  rewrite totalZ_cons. simpl in Hv. lia.
Qed.

Lemma get_bound az k v :
  nonneg az -> Obj.get k az = Some v -> 0 <= v <= @total Z whole_number az.
Proof.
  induction 1 as [|[k' v'] az Hv Haz IH]; simpl; [discriminate|].
  rewrite totalZ_cons. pose proof (total_nonneg az Haz). simpl in Hv.
  destruct (String.eqb k k').
  - intros [= <-]. lia.
  - intros Hget. specialize (IH Hget). lia.
Qed.

Lemma nonneg_set k az : nonneg az -> nonneg (Obj.set k 0 az).
Proof.
  induction 1 as [|[k' v'] az Hv Haz IH]; simpl.
  - constructor; [simpl; lia | constructor].
  - destruct (String.eqb k k'); constructor; simpl; auto; lia.
Qed.

Lemma nonneg_alter (f : Z -> Z) k az :
  (forall v, 0 <= v -> 0 <= f v) -> nonneg az -> nonneg (Obj.alter f k az).
Proof.
  intros Hf. induction 1 as [|[k' v'] az Hv Haz IH]; simpl; [constructor|].
  simpl in Hv. destruct (String.eqb k k'); constructor; simpl; auto.
Qed.

Lemma sales_nonneg r :
  0 <= @num_add Z whole_number (@retailSales Z whole_number r)
                               (@warehouseSales Z whole_number r).
Proof.
  change (0 <= amount (retailSales r) + amount (warehouseSales r)).
  pose proof (amount_nonneg (retailSales r)).
  pose proof (amount_nonneg (warehouseSales r)). lia.
Qed.

Lemma type_step_nonneg az r : nonneg az -> nonneg (@type_step Z whole_number az r).
Proof.
  intros Haz. unfold type_step.
  apply nonneg_alter.
  - intros v Hv. pose proof (sales_nonneg r) as Hs.
    change (@num_add Z whole_number) with Z.add in *. lia.
  - destruct (Obj.get _ az) as [v|]; [destruct (num_falsy v)|];
      auto using nonneg_set.
Qed.

Lemma type_step_total az r :
  @total Z whole_number (@type_step Z whole_number az r)
  = @total Z whole_number az + (amount (retailSales r) + amount (warehouseSales r)).
Proof.
  apply (@total_type_step Z whole_number); simpl; intros; lia.
Qed.

Lemma sales_sum r :
  whole_row r ->
  amount (retailSales r) + amount (warehouseSales r) < 2 ^ 53 ->
  (retailSales r + warehouseSales r)%float
  = Z2F (amount (retailSales r) + amount (warehouseSales r)).
Proof.
  intros [Hr Hw] Hlt.
  destruct (whole_amount _ Hr) as [Er Br]. destruct (whole_amount _ Hw) as [Ew Bw].
  rewrite Er at 1. rewrite Ew at 1. apply Z2F_add; lia.
Qed.

Lemma type_step_whole az r :
  @type_step Z whole_number az r
  = let k := template (r !! "ITEM TYPE") in
    Obj.alter (fun v => v + (amount (retailSales r) + amount (warehouseSales r))) k
      match Obj.get k az with
      | Some v => if (v =? 0)%Z then Obj.set k 0 az else az
      | None => Obj.set k 0 az
      end.
Proof. reflexivity. Qed.

Lemma type_step_lift az r :
  whole_row r -> nonneg az ->
  @total Z whole_number az + (amount (retailSales r) + amount (warehouseSales r)) < 2 ^ 53 ->
  type_step (lift Z2F az) r = lift Z2F (@type_step Z whole_number az r).
Proof.
  intros Hr Haz Hlt.
  pose proof (total_nonneg az Haz) as Ht.
  pose proof (amount_nonneg (retailSales r)) as Hr0.
  pose proof (amount_nonneg (warehouseSales r)) as Hw0.
  rewrite type_step_whole. unfold type_step. rewrite get_lift.
  set (k := template (r !! "ITEM TYPE")). cbv zeta.
  change (@num_add float float_number) with PrimFloat.add.
  rewrite (sales_sum r Hr) by lia.
  set (x := amount (retailSales r) + amount (warehouseSales r)) in *.
  assert (Hfresh : Obj.alter (fun v => (v + Z2F x)%float)
                     k (Obj.set k (@num_zero float _) (lift Z2F az))
                   = lift Z2F (Obj.alter (fun v => v + x) k (Obj.set k 0 az))).
  { change (@num_zero float _) with (Z2F 0). rewrite set_lift.
    apply alter_lift. intros v. rewrite get_set_eq. intros [= <-].
    apply Z2F_add; lia. }
  destruct (Obj.get k az) as [v|] eqn:Hget; simpl; [|exact Hfresh].
  destruct (get_bound az k v Haz Hget) as [Hv0 Hv1].
  change (@num_falsy float float_number) with JSNumber.falsy.
  rewrite falsy_Z2F by lia.
  destruct (v =? 0)%Z; [exact Hfresh|].
  apply alter_lift. intros v'. rewrite Hget. intros [= <-].
  apply Z2F_add; lia.
Qed.

Lemma type_loop_lift rows : forall az,
  Forall whole_row rows -> nonneg az ->
  @total Z whole_number az + whole_total rows < 2 ^ 53 ->
  fold_left type_step rows (lift Z2F az)
  = lift Z2F (fold_left (@type_step Z whole_number) rows az)
  /\ nonneg (fold_left (@type_step Z whole_number) rows az)
  /\ @total Z whole_number (fold_left (@type_step Z whole_number) rows az)
     = @total Z whole_number az + whole_total rows.
Proof.
  induction rows as [|r rows IH]; intros az Hrows Haz Hlt.
  - simpl. repeat split; [exact Haz | lia].
  - apply Forall_cons in Hrows as [Hr Hrows].
    cbn [whole_total fold_right] in Hlt. fold (whole_total rows) in Hlt.
    pose proof (whole_total_nonneg rows) as Hrest.
    cbn [fold_left]. rewrite type_step_lift by (try assumption; lia).
    destruct (IH (@type_step Z whole_number az r) Hrows (type_step_nonneg az r Haz))
      as (Hfold & Hnn & Htot).
    { rewrite type_step_total. lia. }
    rewrite Hfold, Htot, type_step_total.
    cbn [whole_total fold_right]. fold (whole_total rows).
    repeat split; [exact Hnn | lia].
Qed.

(** Adding up whole amounts in binary64 is exact below [2^53]. *)
Lemma fold_add_mono (l : list Z) : forall a,
  Forall (fun x => 0 <= x) l -> a <= fold_left Z.add l a.
Proof.
  induction l as [|x l IH]; intros a Hl; simpl; [lia|].
  apply Forall_cons in Hl as [Hx Hl]. specialize (IH (a + x) Hl). lia.
Qed.

Lemma fold_add_Z2F (l : list Z) : forall a,
  0 <= a -> Forall (fun x => 0 <= x) l -> fold_left Z.add l a < 2 ^ 53 ->
  fold_left PrimFloat.add (map Z2F l) (Z2F a) = Z2F (fold_left Z.add l a).
Proof.
  induction l as [|x l IH]; intros a Ha Hl Hlt; simpl; [reflexivity|].
  apply Forall_cons in Hl as [Hx Hl]. simpl in Hlt.
  pose proof (fold_add_mono l (a + x) Hl).
  rewrite Z2F_add by lia. apply IH; [lia | exact Hl | exact Hlt].
Qed.

Lemma sum_Z2F (l : list Z) :
  Forall (fun x => 0 <= x) l -> @sum Z whole_number l < 2 ^ 53 ->
  sum (map Z2F l) = Z2F (@sum Z whole_number l).
Proof. intros Hl Hlt. apply (fold_add_Z2F l 0); [lia | exact Hl | exact Hlt]. Qed.

Lemma stats_step_lift r a b :
  whole_row r -> 0 <= a -> 0 <= b ->
  a + amount (retailSales r) < 2 ^ 53 -> b + amount (warehouseSales r) < 2 ^ 53 ->
  stats_step (Z2F a, Z2F b) r
  = (Z2F (a + amount (retailSales r)), Z2F (b + amount (warehouseSales r))).
Proof.
  intros [Hr Hw] Ha Hb Hra Hwb. unfold stats_step. simpl.
  destruct (whole_amount _ Hr) as [Er Br]. destruct (whole_amount _ Hw) as [Ew Bw].
  rewrite Er at 1. rewrite Ew at 1. rewrite !Z2F_add by lia. reflexivity.
Qed.

Lemma stats_loop_lift rows : forall a b,
  Forall whole_row rows -> 0 <= a -> 0 <= b ->
  a + b + whole_total rows < 2 ^ 53 ->
  exists a' b',
    fold_left stats_step rows (Z2F a, Z2F b) = (Z2F a', Z2F b')
    /\ fold_left (@stats_step Z whole_number) rows (a, b) = (a', b')
    /\ 0 <= a' /\ 0 <= b' /\ a' + b' = a + b + whole_total rows.
Proof.
  induction rows as [|r rows IH]; intros a b Hrows Ha Hb Hlt.
  - exists a, b. simpl in *. repeat split; lia.
  - apply Forall_cons in Hrows as [Hr Hrows].
    cbn [whole_total fold_right] in Hlt. fold (whole_total rows) in Hlt.
    pose proof (whole_total_nonneg rows) as Hrest.
    pose proof (amount_nonneg (retailSales r)) as Hr0.
    pose proof (amount_nonneg (warehouseSales r)) as Hw0.
    cbn [fold_left]. rewrite stats_step_lift by (try assumption; lia).
    destruct (IH (a + amount (retailSales r)) (b + amount (warehouseSales r)) Hrows)
      as (a' & b' & Hf & Hz & Ha' & Hb' & Hsum); try lia.
    exists a', b'. rewrite Hf.
    cbn [whole_total fold_right]. fold (whole_total rows).
    repeat split; try lia. exact Hz.
Qed.

Lemma stats_lift rows :
  Forall whole_row rows -> whole_total rows < 2 ^ 53 ->
  exists tr tw,
    stats rows = Summary (length rows) (Z2F tr) (Z2F tw) (Z2F (tr + tw))
    /\ @stats Z whole_number rows = Summary (length rows) tr tw (tr + tw)
    /\ 0 <= tr /\ 0 <= tw /\ tr + tw = whole_total rows.
Proof.
  intros Hrows Hlt.
  destruct (stats_loop_lift rows 0 0 Hrows) as (tr & tw & Hf & Hz & Htr & Htw & Hsum);
    try lia.
  exists tr, tw. unfold stats.
  change (@num_zero float _) with (Z2F 0). rewrite Hf.
  change (@num_zero Z whole_number) with 0. rewrite Hz.
  change (@num_add float float_number) with PrimFloat.add.
  rewrite Z2F_add by lia.
  repeat split; try lia.
Qed.

Lemma category_sum_whole rows :
  Forall whole_row rows -> whole_total rows < 2 ^ 53 ->
  sum (snd (typeData (num := float) rows)) = Z2F (whole_total rows)
  /\ totalSales (stats (num := float) rows) = Z2F (whole_total rows).
Proof.
  intros Hrows Hlt.
  destruct (stats_lift rows Hrows Hlt) as (tr & tw & Hs & HsZ & Htr & Htw & Hsum).
  split; [|rewrite Hs; simpl; rewrite Hsum; reflexivity].
  destruct (type_loop_lift rows [] Hrows) as (Hfold & Hnn & Htot);
    [constructor | unfold total; simpl; lia |].
  assert (HZ : @sum Z whole_number (snd (@typeData Z whole_number rows)) = whole_total rows).
  { rewrite (@category_sum_is_total Z whole_number) by (simpl; intros; lia).
    rewrite HsZ. simpl. exact Hsum. }
  unfold typeData, typeAggregated in *. cbn [snd] in *.
  change (@nil (string * float)) with (lift Z2F []). rewrite Hfold, values_lift.
  rewrite sum_Z2F, HZ; [reflexivity | | rewrite HZ; exact Hlt].
  unfold Obj.values. apply List.Forall_forall. intros x Hx.
  apply in_map_iff in Hx as (e & <- & He).
  apply (Permutation_in _ (entries_perm _)) in He.
  unfold nonneg in Hnn. rewrite List.Forall_forall in Hnn. apply Hnn, He.
Qed.

End WholeReducers.

(** C9, amended.  For every record list whose sales fields the program
    reads as whole amounts not below zero, with a total below [2^53], the
    values of the category aggregate sum to the total sales of the summary,
    in binary64 as the program computes them: every sum on the way is a
    whole number below [2^53] and so exact, and both sides are the exact
    total of the sales. *)
Theorem category_sum_exact (rows : list row) :
  Forall whole_row rows ->
  whole_total rows < 2 ^ 53 ->
  sum (snd (typeData (num := float) rows)) = totalSales (stats rows)
  /\ totalSales (stats (num := float) rows) = Z2F (whole_total rows).
Proof.
  intros Hrows Hlt.
  destruct (category_sum_whole rows Hrows Hlt) as [Hc Ht].
  split; [rewrite Hc, Ht; reflexivity | exact Ht].
Qed.

Lemma category_sum_exact_witness :
  sum (snd (typeData (num := float) rows_scenario)) = totalSales (stats rows_scenario)
  /\ totalSales (stats (num := float) rows_scenario) = Z2F (whole_total rows_scenario).
Proof.
  apply (category_sum_exact rows_scenario).
  - repeat constructor; eexists; vm_compute; reflexivity.
  - vm_compute. reflexivity.
Defined.

(** ** Monthly aggregation *)

Section StringFacts.

Lemma digit_not_hyphen c : Str.is_digit c = true -> Ascii.eqb c "-" = false.
Proof.
  intros Hd. destruct (Ascii.eqb_spec c "-") as [->|]; [discriminate | reflexivity].
Qed.

Lemma digit_not_space c : Str.is_digit c = true -> Str.is_space c = false.
Proof.
  unfold Str.is_digit, Str.is_space. intros Hd.
  apply andb_true_iff in Hd. destruct Hd as [H1 H2].
  apply N.leb_le in H1. apply N.leb_le in H2.
  repeat (apply orb_false_iff; split).
  - apply andb_false_iff. right. apply N.leb_gt. lia.
  - apply N.eqb_neq. lia.
  - apply N.eqb_neq. lia.
Qed.

Lemma all_app p a b : Str.all p (a ++ b) = Str.all p a && Str.all p b.
Proof.
  induction a as [|c a IH]; simpl; [reflexivity|].
  rewrite IH, andb_assoc. reflexivity.
Qed.

Lemma all_impl (p q : ascii -> bool) s :
  (forall c, p c = true -> q c = true) -> Str.all p s = true -> Str.all q s = true.
Proof.
  intros Hpq. induction s as [|c s IH]; simpl; [reflexivity|].
  rewrite !andb_true_iff. intros [Hc Hs]. auto.
Qed.

Lemma app_cons x a b : String x a ++ b = String x (a ++ b).
Proof. reflexivity. Qed.

Lemma app_assoc_char a c b : (a ++ String c "") ++ b = a ++ String c b.
Proof.
  induction a as [|x a IH]; [reflexivity|].
  rewrite !app_cons, IH. reflexivity.
Qed.

Lemma app_empty_r a : a ++ "" = a.
Proof.
  induction a as [|x a IH]; [reflexivity|].
  rewrite app_cons, IH. reflexivity.
Qed.

Lemma span_digits_all s acc n :
  Str.all Str.is_digit s = true ->
  Str.span_digits s acc n = (decimal s acc, (n + String.length s)%nat, "").
Proof.
  revert acc n. induction s as [|c s IH]; intros acc n; simpl.
  - intros _. rewrite Nat.add_0_r. reflexivity.
  - rewrite andb_true_iff. intros [Hc Hs]. rewrite Hc, (IH _ _ Hs).
    rewrite Nat.add_succ_r. reflexivity.
Qed.

Lemma numeral_hyphen_free s : numeral s -> hyphen_free s.
Proof.
  intros [_ Hd]. eapply all_impl; [|exact Hd].
  intros c Hc. rewrite (digit_not_hyphen _ Hc). reflexivity.
Qed.

Lemma split_aux_plain s cur :
  hyphen_free s -> Str.split_aux "-" s cur = [cur ++ s].
Proof.
  unfold hyphen_free. revert cur. induction s as [|c s IH]; intros cur; simpl.
  - intros _. rewrite app_empty_r. reflexivity.
  - rewrite andb_true_iff, negb_true_iff. intros [Hc Hs].
    rewrite Hc, (IH _ Hs), app_assoc_char. reflexivity.
Qed.

Lemma split_aux_hyphen y rest cur :
  hyphen_free y ->
  Str.split_aux "-" (y ++ String "-" rest) cur
  = (cur ++ y) :: Str.split_aux "-" rest "".
Proof.
  unfold hyphen_free. revert cur. induction y as [|c y IH]; intros cur; simpl.
  - intros _. rewrite app_empty_r. reflexivity.
  - rewrite andb_true_iff, negb_true_iff. intros [Hc Hy].
    rewrite Hc, (IH _ Hy), app_assoc_char. reflexivity.
Qed.

Lemma split_period y m :
  hyphen_free y -> hyphen_free m ->
  Str.split "-" (y ++ "-" ++ m) = [y; m].
Proof.
  intros Hy Hm. unfold Str.split.
  change (y ++ "-" ++ m) with (y ++ String "-" m).
  rewrite (split_aux_hyphen _ _ _ Hy), (split_aux_plain _ _ Hm). reflexivity.
Qed.

Lemma padStart_two_digits m : m <> "" -> Str.padStart 2 "0" m = two_digits m.
Proof.
  intros Hm. unfold Str.padStart, two_digits.
  destruct m as [|c [|d m]]; [congruence | reflexivity |].
  simpl. reflexivity.
Qed.

Lemma two_digits_numeral m :
  numeral m ->
  numeral (two_digits m) /\ numeral_value (two_digits m) = numeral_value m.
Proof.
  intros [Hne Hd]. unfold two_digits.
  destruct (String.length m <? 2)%nat; [|split; [split|]; auto].
  split; [split|].
  - discriminate.
  - simpl. exact Hd.
  - reflexivity.
Qed.

Lemma parseInt_numeral s : numeral s -> JSInt.parseInt s = Some (numeral_value s).
Proof.
  intros [Hne Hd]. destruct s as [|c s]; [congruence|].
  simpl in Hd. apply andb_true_iff in Hd. destruct Hd as [Hc Hs].
  unfold JSInt.parseInt. simpl Str.trim_start.
  rewrite (digit_not_space _ Hc).
  assert (Hsign : JSNumber.read_sign (String c s) = (false, String c s)).
  { unfold JSNumber.read_sign.
    destruct (Ascii.eqb_spec c "-") as [->|]; [discriminate|].
    destruct (Ascii.eqb_spec c "+") as [->|]; [discriminate|].
    destruct c as [[] [] [] [] [] [] [] []]; try reflexivity; congruence. }
  rewrite Hsign.
  assert (Hhex : JSInt.strip_hex_prefix (String c s) = None).
  { unfold JSInt.strip_hex_prefix. destruct s as [|d s].
    - destruct c as [[] [] [] [] [] [] [] []]; reflexivity.
    - simpl in Hs. apply andb_true_iff in Hs. destruct Hs as [Hd _].
      assert (Hx : Ascii.eqb d "x" || Ascii.eqb d "X" = false).
      { destruct (Ascii.eqb_spec d "x") as [->|]; [discriminate|].
        destruct (Ascii.eqb_spec d "X") as [->|]; [discriminate|]. reflexivity. }
      destruct c as [[] [] [] [] [] [] [] []]; try reflexivity. rewrite Hx. reflexivity. }
  rewrite Hhex.
  rewrite span_digits_all by (simpl; rewrite Hc, Hs; reflexivity).
  simpl. reflexivity.
Qed.

Lemma month_name_abbreviation n :
  1 <= n <= 12 -> month_name (Some n) = Some (abbreviation n).
Proof.
  intros Hn.
  assert (Hcases : n = 1 \/ n = 2 \/ n = 3 \/ n = 4 \/ n = 5 \/ n = 6 \/ n = 7
                   \/ n = 8 \/ n = 9 \/ n = 10 \/ n = 11 \/ n = 12) by lia.
  repeat (destruct Hcases as [-> | Hcases]; [reflexivity|]).
  subst n. reflexivity.
Qed.

(** The label of the key of a calendar period. *)
Lemma label_period y m :
  hyphen_free y -> numeral m -> 1 <= numeral_value m <= 12 ->
  label (period_key y m) = abbreviation (numeral_value m) ++ " " ++ y.
Proof.
  intros Hy Hm Hrange.
  destruct (two_digits_numeral m Hm) as [Hm2 Hv].
  unfold label, period_key.
  rewrite (split_period y (two_digits m) Hy (numeral_hyphen_free _ Hm2)).
  simpl. rewrite (parseInt_numeral _ Hm2), Hv.
  rewrite (month_name_abbreviation _ Hrange). reflexivity.
Qed.

End StringFacts.

Section ObjLookup.
Context {V : Type}.
Implicit Types (o : list (string * V)) (k : string) (v : V).

Lemma get_set_ne k k' v o : k <> k' -> Obj.get k' (Obj.set k v o) = Obj.get k' o.
Proof.
  intros Hne. induction o as [|[k0 v0] o IH]; simpl.
  - destruct (String.eqb_spec k' k); [congruence | reflexivity].
  - destruct (String.eqb_spec k k0) as [->|Hk]; simpl.
    + destruct (String.eqb_spec k' k0); [congruence | reflexivity].
    + destruct (String.eqb_spec k' k0); [reflexivity | exact IH].
Qed.

Lemma get_alter_eq f k o : Obj.get k (Obj.alter f k o) = f <$> Obj.get k o.
Proof.
  induction o as [|[k0 v0] o IH]; simpl; [reflexivity|].
  destruct (String.eqb k k0) eqn:E; simpl; rewrite E; [reflexivity | exact IH].
Qed.

Lemma get_alter_ne f k k' o : k <> k' -> Obj.get k' (Obj.alter f k o) = Obj.get k' o.
Proof.
  intros Hne. induction o as [|[k0 v0] o IH]; simpl; [reflexivity|].
  destruct (String.eqb_spec k k0) as [->|Hk]; simpl.
  - destruct (String.eqb_spec k' k0); [congruence | reflexivity].
  - destruct (String.eqb_spec k' k0); [reflexivity | exact IH].
Qed.

Lemma fst_alter f k o : map fst (Obj.alter f k o) = map fst o.
Proof.
  induction o as [|[k0 v0] o IH]; simpl; [reflexivity|].
  destruct (String.eqb k k0); simpl; [reflexivity | rewrite IH; reflexivity].
Qed.

Lemma get_None_iff k o : Obj.get k o = None <-> ~ In k (map fst o).
Proof.
  induction o as [|[k0 v0] o IH]; simpl; [tauto|].
  destruct (String.eqb_spec k k0) as [->|Hk].
  - split; [discriminate | intros Hn; exfalso; apply Hn; left; reflexivity].
  - rewrite IH. split; [intros Hn [Heq|Hin]; [congruence | exact (Hn Hin)] | tauto].
Qed.

Lemma get_Some_In k v o : Obj.get k o = Some v -> In (k, v) o.
Proof.
  induction o as [|[k0 v0] o IH]; simpl; [discriminate|].
  destruct (String.eqb_spec k k0) as [->|Hk].
  - intros [= ->]. left. reflexivity.
  - intros Hget. right. exact (IH Hget).
Qed.

Lemma get_In k v o : List.NoDup (map fst o) -> In (k, v) o -> Obj.get k o = Some v.
Proof.
  induction o as [|[k0 v0] o IH]; simpl; [tauto|].
  intros Hnd [Heq|Hin].
  - injection Heq as -> ->. rewrite String.eqb_refl. reflexivity.
  - apply List.NoDup_cons_iff in Hnd.
    destruct (String.eqb_spec k k0) as [->|Hk].
    + exfalso. apply (proj1 Hnd). apply (in_map fst) in Hin. exact Hin.
    + apply IH; [exact (proj2 Hnd) | exact Hin].
Qed.

Lemma fst_set k v o :
  map fst (Obj.set k v o)
  = match Obj.get k o with
    | Some _ => map fst o
    | None => (map fst o ++ [k])%list
    end.
Proof.
  induction o as [|[k0 v0] o IH]; simpl; [reflexivity|].
  destruct (String.eqb_spec k k0) as [->|Hk]; simpl; [reflexivity|].
  rewrite IH. destruct (Obj.get k o); reflexivity.
Qed.

End ObjLookup.

Section ArraySortFacts.
Context {A : Type} (cmp : A -> A -> Z) (P : A -> Prop) (le : A -> A -> Prop).
Hypothesis cmp_le : forall x y, P x -> P y -> (cmp x y <=? 0)%Z = true -> le x y.
Hypothesis cmp_gt : forall x y, P x -> P y -> (cmp x y <=? 0)%Z = false -> le y x.

Lemma sort_insert_sorted x l :
  P x -> Forall P l -> Sorted le l -> Sorted le (sort_insert cmp x l).
Proof.
  intros Hx Hl Hs. induction l as [|y l IH]; simpl.
  - repeat constructor.
  - apply Forall_cons in Hl. destruct Hl as [Hy Hl].
    destruct (cmp x y <=? 0)%Z eqn:E.
    + constructor; [exact Hs | constructor; apply cmp_le; assumption].
    + apply Sorted_inv in Hs. destruct Hs as [Hs Hhd].
      constructor; [apply IH; assumption|].
      destruct l as [|z l]; simpl.
      * constructor. apply cmp_gt; assumption.
      * destruct (cmp x z <=? 0)%Z.
        -- constructor. apply cmp_gt; assumption.
        -- constructor. apply HdRel_inv in Hhd. exact Hhd.
Qed.

Lemma Array_sort_sorted l : Forall P l -> Sorted le (Array_sort cmp l).
Proof.
  induction l as [|x l IH]; simpl; [constructor|].
  intros Hl. apply Forall_cons in Hl. destruct Hl as [Hx Hl].
  apply sort_insert_sorted; [exact Hx | | apply IH; exact Hl].
  eapply Permutation_Forall; [|exact Hl].
  symmetry. apply Array_sort_perm.
Qed.

End ArraySortFacts.

Section CodeUnitOrder.

Lemma leb_compare a b : String.leb a b = true <-> String.compare a b <> Gt.
Proof. unfold String.leb. destruct (String.compare a b); intuition congruence. Qed.

Lemma compare_lt_trans a b c :
  String.compare a b = Lt -> String.compare b c = Lt -> String.compare a c = Lt.
Proof.
  intros Hab Hbc. apply String_as_OT.cmp_lt.
  eapply String_as_OT.lt_trans; apply String_as_OT.cmp_lt; eassumption.
Qed.

Lemma leb_trans a b c :
  String.leb a b = true -> String.leb b c = true -> String.leb a c = true.
Proof.
  rewrite !leb_compare. intros Hab Hbc.
  destruct (String.compare a b) eqn:Eab; [| |congruence].
  - apply String.compare_eq_iff in Eab. subst b. exact Hbc.
  - destruct (String.compare b c) eqn:Ebc; [| |congruence].
    + apply String.compare_eq_iff in Ebc. subst c. rewrite Eab. discriminate.
    + rewrite (compare_lt_trans _ _ _ Eab Ebc). discriminate.
Qed.

Lemma sorted_distinct_strict (l : list string) :
  Sorted (fun a b => String.leb a b = true) l -> List.NoDup l ->
  StronglySorted (fun a b => String.compare a b = Lt) l.
Proof.
  intros Hs Hnd.
  apply Sorted_StronglySorted in Hs; [|intros a b c; apply leb_trans].
  induction Hs as [|a l Hs IH Hall]; [constructor|].
  apply List.NoDup_cons_iff in Hnd. destruct Hnd as [Hnotin Hnd].
  constructor; [apply IH; exact Hnd|].
  apply List.Forall_forall. intros b Hb.
  rewrite List.Forall_forall in Hall. specialize (Hall b Hb).
  apply leb_compare in Hall.
  destruct (String.compare a b) eqn:E; [|reflexivity|congruence].
  apply String.compare_eq_iff in E. subst b. contradiction.
Qed.

End CodeUnitOrder.

Section MonthlyFacts.
Context {num : Type} `{Number num}.
Implicit Types (a : list (string * bucket num)) (r : row) (rows : list row).

Lemma monthly_step_get a r key :
  monthKey r = Some key ->
  exists a', monthly_step a r = Some a'
    /\ (List.NoDup (map fst a) -> List.NoDup (map fst a'))
    /\ (forall k, Obj.get k a'
                  = if String.eqb key k
                    then Some (add_row r (default empty_bucket (Obj.get k a)))
                    else Obj.get k a).
Proof.
  intros Hkey. unfold monthly_step. rewrite Hkey. eexists. split; [reflexivity|].
  split.
  - intros Hnd. rewrite fst_alter.
    destruct (Obj.get key a) eqn:Hget; [exact Hnd|].
    rewrite fst_set, Hget. apply List.NoDup_app.
    + exact Hnd.
    + constructor; [simpl; tauto | constructor].
    + intros k Hin [<-|[]]. apply get_None_iff in Hget. exact (Hget Hin).
  - intros k. destruct (String.eqb_spec key k) as [<-|Hne].
    + rewrite get_alter_eq.
      destruct (Obj.get key a) eqn:Hget; simpl.
      * rewrite Hget. reflexivity.
      * rewrite get_set_eq. reflexivity.
    + rewrite get_alter_ne by exact Hne.
      destruct (Obj.get key a); [reflexivity | apply get_set_ne; exact Hne].
Qed.

Lemma monthly_loop_get rows : forall a,
  Forall (fun r => is_Some (monthKey r)) rows ->
  List.NoDup (map fst a) ->
  exists res, monthly_loop a rows = Some res
    /\ List.NoDup (map fst res)
    /\ (forall k, Obj.get k res = grown (Obj.get k a) (rows_of_key k rows)).
Proof.
  induction rows as [|r rows IH]; intros a Hrows Hnd; simpl.
  - exists a. auto.
  - apply Forall_cons in Hrows. destruct Hrows as [[key Hkey] Hrows].
    destruct (monthly_step_get a r key Hkey) as (a' & Hstep & Hnd' & Hget').
    rewrite Hstep.
    destruct (IH a' Hrows (Hnd' Hnd)) as (res & Hloop & Hndres & Hget).
    exists res. split; [exact Hloop | split; [exact Hndres|]].
    intros k. rewrite Hget, Hget'. unfold rows_of_key. simpl. rewrite Hkey.
    destruct (String.eqb_spec key k) as [<-|Hne].
    + rewrite bool_decide_eq_true_2 by reflexivity. simpl.
      destruct (List.filter _ rows); reflexivity.
    + rewrite bool_decide_eq_false_2 by congruence. reflexivity.
Qed.

Lemma fold_add_row rs (b : bucket num) :
  fold_left (fun b r => add_row r b) rs b
  = Bucket (fold_left num_add (map retailSales rs) (retail b))
           (fold_left num_add (map warehouseSales rs) (warehouse b))
           (length rs + count b).
Proof.
  revert b. induction rs as [|r rs IH]; intros b; simpl.
  - destruct b. reflexivity.
  - rewrite IH. simpl. rewrite Nat.add_succ_r. reflexivity.
Qed.

Lemma grown_bucket_of rs :
  rs <> [] -> grown None rs = Some (bucket_of rs).
Proof.
  intros Hne. destruct rs as [|r rs]; [congruence|].
  unfold grown, bucket_of. rewrite fold_add_row. simpl default.
  unfold empty_bucket. simpl retail. simpl warehouse. simpl count.
  rewrite Nat.add_0_r. reflexivity.
Qed.

Lemma rows_of_key_nonempty k rows :
  rows_of_key k rows <> [] <-> exists r, In r rows /\ monthKey r = Some k.
Proof.
  unfold rows_of_key. split.
  - intros Hne. destruct (List.filter _ rows) as [|r rs] eqn:E; [congruence|].
    exists r. assert (Hin : In r (List.filter (fun r => bool_decide (monthKey r = Some k)) rows))
      by (rewrite E; left; reflexivity).
    apply filter_In in Hin. destruct Hin as [Hin Hk].
    apply bool_decide_eq_true in Hk. auto.
  - intros (r & Hin & Hk) E.
    assert (Hin' : In r (List.filter (fun r => bool_decide (monthKey r = Some k)) rows)).
    { apply filter_In. split; [exact Hin | apply bool_decide_eq_true; exact Hk]. }
    rewrite E in Hin'. exact Hin'.
Qed.

Lemma calendar_monthKey r y m :
  r !! "YEAR" = Some y -> r !! "MONTH" = Some m -> numeral m ->
  monthKey r = Some (period_key y m).
Proof.
  intros Hy Hm [Hne _]. unfold monthKey, period_key.
  rewrite Hy, Hm. simpl template. rewrite (padStart_two_digits _ Hne). reflexivity.
Qed.

Lemma calendar_is_Some r : calendar_row r -> is_Some (monthKey r).
Proof.
  intros (y & m & Hy & Hm & _ & Hnm & _).
  rewrite (calendar_monthKey r y m Hy Hm Hnm). eexists. reflexivity.
Qed.

Section Sorted.
Variable localeCompare : string -> string -> Z.

Lemma monthlySorted_calendar rows :
  (forall r1 r2 k1 k2, In r1 rows -> In r2 rows ->
     monthKey r1 = Some k1 -> monthKey r2 = Some k2 ->
     (localeCompare k1 k2 <=? 0)%Z = String.leb k1 k2) ->
  Forall calendar_row rows ->
  exists sorted,
    monthlySorted localeCompare rows = Some sorted
    /\ StronglySorted (fun s t : string => String.compare s t = Lt) (map fst sorted)
    /\ (forall k, In k (map fst sorted) <->
                  exists r, In r rows /\ monthKey r = Some k)
    /\ (forall k b, In (k, b) sorted -> b = bucket_of (rows_of_key k rows)).
Proof.
  intros localeCompare_code_units Hrows.
  destruct (monthly_loop_get rows []) as (res & Hloop & Hnd & Hget).
  { eapply Forall_impl; [exact Hrows|]. intros r. apply calendar_is_Some. }
  { constructor. }
  unfold monthlySorted. rewrite Hloop. eexists. split; [reflexivity|].
  set (sorted := Array_sort (by_key localeCompare) (Obj.entries res)).
  assert (Hperm : Permutation sorted res).
  { unfold sorted. rewrite Array_sort_perm. apply entries_perm. }
  assert (Hkeys : forall k, In k (map fst res) <->
                            exists r, In r rows /\ monthKey r = Some k).
  { intros k. rewrite <- rows_of_key_nonempty.
    specialize (Hget k). simpl in Hget. split.
    - intros Hin E. rewrite E in Hget. simpl in Hget.
      apply get_None_iff in Hget. exact (Hget Hin).
    - intros Hne. destruct (in_dec string_dec k (map fst res)) as [Hin|Hnin]; [exact Hin|].
      apply get_None_iff in Hnin. rewrite Hnin in Hget.
      rewrite (grown_bucket_of _ Hne) in Hget. discriminate. }
  set (occurs := fun e : string * bucket num =>
                   exists r, In r rows /\ monthKey r = Some (fst e)).
  assert (Htext : Forall occurs res).
  { apply List.Forall_forall. intros e He.
    exact (proj1 (Hkeys (fst e)) (in_map fst _ _ He)). }
  assert (Hcmp : forall x y, occurs x -> occurs y ->
            (by_key localeCompare x y <=? 0)%Z = String.leb (fst x) (fst y)).
  { intros x y (r1 & Hin1 & Hk1) (r2 & Hin2 & Hk2).
    exact (localeCompare_code_units r1 r2 _ _ Hin1 Hin2 Hk1 Hk2). }
  split; [|split].
  - apply sorted_distinct_strict.
    + assert (Hs : Sorted (fun e1 e2 => String.leb (fst e1) (fst e2) = true) sorted).
      { unfold sorted.
        apply (Array_sort_sorted (by_key localeCompare) occurs).
        - intros x y Hx Hy Hc. rewrite (Hcmp _ _ Hx Hy) in Hc. exact Hc.
        - intros x y Hx Hy Hc. rewrite (Hcmp _ _ Hx Hy) in Hc.
          destruct (String.leb_total (fst x) (fst y)) as [Hle|Hle]; [congruence | exact Hle].
        - eapply Permutation_Forall; [|exact Htext]. symmetry. apply entries_perm. }
      clearbody sorted. clear -Hs.
      induction Hs as [|e l Hs IH Hhd]; simpl; [constructor|].
      constructor; [exact IH|].
      destruct Hhd as [|e' l Hle]; simpl; constructor. exact Hle.
    + eapply Permutation_NoDup; [|exact Hnd].
      apply Permutation_map. symmetry. exact Hperm.
  - intros k. rewrite <- Hkeys. split; apply Permutation_in, Permutation_map;
      [exact Hperm | symmetry; exact Hperm].
  - intros k b Hin. apply (Permutation_in _ Hperm) in Hin.
    apply (get_In _ _ _ Hnd) in Hin. rewrite Hget in Hin. simpl in Hin.
    assert (Hne : rows_of_key k rows <> []).
    { intros E. rewrite E in Hin. discriminate. }
    rewrite (grown_bucket_of _ Hne) in Hin. injection Hin as <-. reflexivity.
Qed.

End Sorted.

End MonthlyFacts.

(** C4, as stated, fails: a record of month 1 whose YEAR holds a hyphen
    goes to the key ["20-20-01"], and the label of that bucket, taken from
    the first two pieces of the key, is ["undefined 20"], not the
    abbreviation of month 1. *)
Lemma monthlyData_hyphen_in_year :
  let rows := filteredData (cleanData [row_hyphen_year]) all_facets in
  rows = [row_hyphen_year]
  /\ monthKey row_hyphen_year = Some "20-20-01"
  /\ JSInt.parseInt (template (row_hyphen_year !! "MONTH")) = Some 1
  /\ Chart.labels <$> monthlyData (num := float) lexCompare rows
     = Some ["undefined 20"]
  /\ abbreviation 1 = "Jan".
Proof. repeat split; vm_compute; reflexivity. Qed.

(** C4, amended.  For every filtered list of calendar rows (a YEAR without
    a hyphen, a MONTH that is a decimal numeral of 1 to 12), on a host
    whose [localeCompare] orders the keys of the list as their code units
    do:
    [monthlyData] returns a chart; each record goes to the key "YEAR-MM"
    with the month padded to two digits; there is one bucket per key that
    occurs, holding the sums of the retail and of the warehouse sales of
    the records of that key and their count; the buckets come out in
    strictly ascending order of their keys; the chart lists their labels,
    retail sums and warehouse sums in that order; and the label of a key is
    the abbreviation of its month (1 "Jan", ..., 12 "Dec") followed by the
    year. *)
Theorem monthlyData_calendar
    (localeCompare : string -> string -> Z) (rows : list row) :
  (forall r1 r2 k1 k2, In r1 rows -> In r2 rows ->
     monthKey r1 = Some k1 -> monthKey r2 = Some k2 ->
     (localeCompare k1 k2 <=? 0)%Z = String.leb k1 k2) ->
  Forall calendar_row rows ->
  exists sorted : list (string * bucket float),
    monthlySorted localeCompare rows = Some sorted
    /\ monthlyData localeCompare rows
       = Some (Chart.Make (map (fun e => label (fst e)) sorted)
                          (map (fun e => retail (snd e)) sorted)
                          (map (fun e => warehouse (snd e)) sorted))
    /\ StronglySorted (fun s t : string => String.compare s t = Lt) (map fst sorted)
    /\ (forall k, In k (map fst sorted) <->
                  exists r, In r rows /\ monthKey r = Some k)
    /\ (forall k b, In (k, b) sorted -> b = bucket_of (rows_of_key k rows))
    /\ (forall r y m, In r rows -> r !! "YEAR" = Some y -> r !! "MONTH" = Some m ->
          monthKey r = Some (period_key y m)
          /\ label (period_key y m) = abbreviation (numeral_value m) ++ " " ++ y).
Proof.
  intros Hcmp Hrows.
  destruct (monthlySorted_calendar localeCompare rows Hcmp Hrows)
    as (sorted & Hsorted & Hstrict & Hkeys & Hbuckets).
  exists sorted. split; [exact Hsorted|].
  split; [unfold monthlyData; rewrite Hsorted; reflexivity|].
  split; [exact Hstrict|]. split; [exact Hkeys|]. split; [exact Hbuckets|].
  intros r y m Hin Hy Hm. rewrite List.Forall_forall in Hrows.
  destruct (Hrows r Hin) as (y' & m' & Hy' & Hm' & Hny & Hnm & Hrange).
  rewrite Hy in Hy'. rewrite Hm in Hm'. injection Hy' as <-. injection Hm' as <-.
  split.
  - apply calendar_monthKey; assumption.
  - apply label_period; assumption.
Qed.

Lemma lexCompare_code_units (s t : string) :
  (lexCompare s t <=? 0)%Z = String.leb s t.
Proof. unfold lexCompare, String.leb. destruct (String.compare s t); reflexivity. Qed.

Lemma rows_calendar_ok : Forall calendar_row rows_calendar.
Proof.
  repeat constructor.
  - exists "2020", "1". repeat split; try reflexivity; try discriminate.
  - exists "2019", "12". repeat split; try reflexivity; try discriminate.
  - exists "2020", "01". repeat split; try reflexivity; try discriminate.
Defined.

Lemma monthlyData_calendar_witness :
  exists sorted : list (string * bucket float),
    monthlySorted lexCompare rows_calendar = Some sorted
    /\ monthlyData lexCompare rows_calendar
       = Some (Chart.Make (map (fun e => label (fst e)) sorted)
                          (map (fun e => retail (snd e)) sorted)
                          (map (fun e => warehouse (snd e)) sorted))
    /\ StronglySorted (fun s t : string => String.compare s t = Lt) (map fst sorted)
    /\ (forall k, In k (map fst sorted) <->
                  exists r, In r rows_calendar /\ monthKey r = Some k)
    /\ (forall k b, In (k, b) sorted -> b = bucket_of (rows_of_key k rows_calendar))
    /\ (forall r y m, In r rows_calendar ->
          r !! "YEAR" = Some y -> r !! "MONTH" = Some m ->
          monthKey r = Some (period_key y m)
          /\ label (period_key y m) = abbreviation (numeral_value m) ++ " " ++ y).
Proof.
  apply (monthlyData_calendar lexCompare rows_calendar).
  - intros r1 r2 k1 k2 _ _ _ _. apply lexCompare_code_units.
  - exact rows_calendar_ok.
Defined.


(** ** Vote tally *)

Section VoteFacts.
Implicit Types (st : app) (db : store) (net : list bool) (uid k : string) (now : Z).

Lemma cast_resolves uid k now db net :
  resolving 3 net = true ->
  cast uid k now (db, net) = (Some tt, (voted uid k now db, skipn 3 net)).
Proof.
  unfold resolving, cast, voted, await, setDoc_userVotes, getDoc_votes,
    setDoc_votes, setDoc_votes_increment, request.
  destruct db as [uv sd].
  destruct net as [|[] [|[] [|[] net]]]; simpl; try discriminate;
    intros _; destruct sd; reflexivity.
Qed.


Lemma handleVote_voted k now st e :
  truthy (userVote st) = true -> handleVote k now st e = (st, e).
Proof.
  intros Hv. unfold handleVote. destruct (user st); [|reflexivity].
  rewrite Hv. reflexivity.
Qed.

Lemma handleVote_resolves uid k now st db net :
  user st = Some uid -> truthy (userVote st) = false -> resolving 3 net = true ->
  handleVote k now st (db, net)
  = (setUserVote (Some k) st, (voted uid k now db, skipn 3 net)).
Proof.
  intros Hu Hv Hnet. unfold handleVote. rewrite Hu, Hv.
  rewrite (cast_resolves _ _ _ _ _ Hnet). reflexivity.
Qed.


Lemma tally_voted_same uid k now db :
  k = "support" \/ k = "against" ->
  tally (voted uid k now db) k = tally db k + 1.
Proof.
  intros Hk. unfold tally, voted. simpl. destruct (salesData db) as [d|]; simpl.
  - rewrite lookup_insert_eq. reflexivity.
  - destruct Hk as [-> | ->]; reflexivity.
Qed.


Lemma run_voted (votes : list (string * Z)) st e :
  truthy (userVote st) = true ->
  run (map (fun v => HandleVote (fst v) (snd v)) votes) (st, e) = (st, e).
Proof.
  intros Hv. induction votes as [|[k now] votes IH]; simpl; [reflexivity|].
  rewrite (handleVote_voted _ _ _ _ Hv). exact IH.
Qed.

End VoteFacts.





(** C7.  When the counter document does not exist and a signed-in viewer
    without a vote casts ["support"], with the requests resolving, the
    counter document becomes [{support: 1, against: 0}]. *)
Theorem first_support_creates_counter
    (st : app) (db : store) (net : list bool) (uid : string) (now : Z) :
  user st = Some uid ->
  truthy (userVote st) = false ->
  salesData db = None ->
  resolving 3 net = true ->
  salesData (fst (snd (handleVote "support" now st (db, net))))
  = Some {[ "support" := 1; "against" := 0 ]}.
Proof.
  intros Hu Hv Hdoc Hnet.
  rewrite (handleVote_resolves uid) by assumption.
  unfold voted. simpl. rewrite Hdoc. reflexivity.
Qed.

Lemma first_support_creates_counter_witness :
  salesData (fst (snd (handleVote "support" 20 (App (Some "bob") None)
                                  (Store ∅ None, []))))
  = Some {[ "support" := 1; "against" := 0 ]}.
Proof.
  apply (first_support_creates_counter (App (Some "bob") None) (Store ∅ None) []
           "bob" 20); reflexivity.
Defined.

(** ** Vote tally: handlers that overlap *)

Section AsyncFacts.
Import Async.
Implicit Types (w : world) (v : viewer) (t : task) (i : nat) (ok : bool).

Lemma session_render v f w : session (render v f w) v = f (session w v).
Proof. unfold session, render. simpl. rewrite lookup_insert_eq. reflexivity. Qed.

Lemma session_render_ne v v' f w : v' <> v -> session (render v' f w) v = session w v.
Proof.
  intros Hne. unfold session, render. simpl.
  rewrite lookup_insert_ne by exact Hne. reflexivity.
Qed.

Lemma served_frame {A} (m : remote A) ok w :
  sessions (snd (served m ok w)) = sessions w
  /\ pending (snd (served m ok w)) = pending w
  /\ next (snd (served m ok w)) = next w.
Proof.
  unfold served. destruct (m (db w, [ok])) as [a [db' net']]. simpl. auto.
Qed.

(** A task going on leaves the pending tasks and their numbering alone,
    and the state of every other page. *)
Lemma continue_frame v t ok w :
  pending (snd (continue v t ok w)) = pending w
  /\ next (snd (continue v t ok w)) = next w
  /\ (forall v', v <> v' ->
        session (snd (continue v t ok w)) v' = session w v').
Proof.
  destruct t as [uid|[d|]|uid k now|k|k found|k]; simpl.
  - pose proof (served_frame (getDoc_userVotes uid) ok w) as (Hs & Hp & Hn).
    destruct (served (getDoc_userVotes uid) ok w) as [[a|] w']; simpl in *;
      (split; [exact Hp|]; split; [exact Hn|]; intros v' _; unfold session; rewrite Hs;
       reflexivity).
  - split; [reflexivity|]. split; [reflexivity|].
    intros v' Hne. apply session_render_ne, Hne.
  - auto.
  - pose proof (served_frame (setDoc_userVotes uid (VoteDoc k now)) ok w) as (Hs & Hp & Hn).
    destruct (served (setDoc_userVotes uid (VoteDoc k now)) ok w) as [[a|] w']; simpl in *;
      (split; [exact Hp|]; split; [exact Hn|]; intros v' _; unfold session; rewrite Hs;
       reflexivity).
  - pose proof (served_frame getDoc_votes ok w) as (Hs & Hp & Hn).
    destruct (served getDoc_votes ok w) as [[a|] w']; simpl in *;
      (split; [exact Hp|]; split; [exact Hn|]; intros v' _; unfold session; rewrite Hs;
       reflexivity).
  - match goal with |- context [served ?m ok w] =>
      pose proof (served_frame m ok w) as (Hs & Hp & Hn);
      destruct (served m ok w) as [[a|] w'] end; simpl in *;
      (split; [exact Hp|]; split; [exact Hn|]; intros v' _; unfold session; rewrite Hs;
       reflexivity).
  - split; [reflexivity|]. split; [reflexivity|].
    intros v' Hne. apply session_render_ne, Hne.
Qed.

Lemma sign_in v uid w :
  session (authStateChanged v (Some uid) w) v = App (Some uid) (userVote (session w v))
  /\ pending (authStateChanged v (Some uid) w) = <[next w := (v, GetVote uid)]> (pending w)
  /\ next (authStateChanged v (Some uid) w) = S (next w).
Proof.
  unfold authStateChanged, spawn, session, render. simpl.
  rewrite lookup_insert_eq. auto.
Qed.

Lemma kept_refl v w : kept v w w.
Proof. unfold kept. repeat split; auto. Qed.

Lemma kept_spawn v v' t w : v' <> v -> kept v w (spawn v' t w).
Proof.
  intros Hne. unfold kept, spawn, session. simpl.
  split; [reflexivity|]. split; [lia|]. split; [|split].
  - intros i t'. destruct (decide (next w = i)) as [<-|Hi].
    + rewrite lookup_insert_eq. intros [= Hv _]. congruence.
    + rewrite lookup_insert_ne by exact Hi. auto.
  - intros i Hi. rewrite lookup_insert_ne by lia. auto.
  - intros i t' Hi. rewrite lookup_insert_ne by lia. auto.
Qed.

Lemma kept_render v v' f w : v' <> v -> kept v w (render v' f w).
Proof.
  intros Hne. unfold kept. rewrite session_render_ne by exact Hne.
  simpl. repeat split; auto.
Qed.

Lemma kept_trans v w1 w2 w3 : kept v w1 w2 -> kept v w2 w3 -> kept v w1 w3.
Proof.
  intros (Hs & Hn & Hb & Hnone & Hsome) (Hs' & Hn' & Hb' & Hnone' & Hsome').
  unfold kept. split; [congruence|]. split; [lia|]. split; [|split].
  - intros i t Hi. apply Hb, Hb', Hi.
  - intros i Hi Hp. apply Hnone'; [lia|]. apply Hnone; assumption.
  - intros i t Hi Hp. apply Hsome'; [lia|]. apply Hsome; assumption.
Qed.

Lemma foreign_step v ev w : foreign_event v ev w -> kept v w (step ev w).
Proof.
  destruct ev as [v' u|v' k now|j ok]; cbn [foreign_event step]; intros Hf.
  - unfold authStateChanged. destruct u as [uid|].
    + eapply kept_trans; [apply kept_render, Hf | apply kept_spawn, Hf].
    + eapply kept_trans; apply kept_render, Hf.
  - unfold handleVote. destruct (user (session w v')); [|apply kept_refl].
    destruct (truthy _); [apply kept_refl | apply kept_spawn, Hf].
  - destruct (pending w !! j) as [[v' t']|] eqn:Hj; [|apply kept_refl].
    assert (Hne : v' <> v) by (intros ->; exact (Hf _ eq_refl)).
    destruct (continue_frame v' t' ok w) as (Hp & Hn & Hs).
    destruct (continue v' t' ok w) as [[t1|] w'] eqn:Hc; unfold kept, session in *;
      simpl in *; rewrite Hp, Hn.
    + split; [apply Hs, Hne|]. split; [lia|]. split; [|split].
      * intros i t. destruct (decide (j = i)) as [<-|Hji].
        { rewrite lookup_insert_eq. intros [= Hv _]. congruence. }
        { rewrite lookup_insert_ne by exact Hji. auto. }
      * intros i _ Hi. rewrite lookup_insert_ne by congruence. exact Hi.
      * intros i t _ Hi. rewrite lookup_insert_ne by congruence. exact Hi.
    + split; [apply Hs, Hne|]. split; [lia|]. split; [|split].
      * intros i t. destruct (decide (j = i)) as [<-|Hji].
        { rewrite lookup_delete_eq. discriminate. }
        { rewrite lookup_delete_ne by exact Hji. auto. }
      * intros i _ Hi. rewrite lookup_delete_ne by congruence. exact Hi.
      * intros i t _ Hi. rewrite lookup_delete_ne by congruence. exact Hi.
Qed.

Lemma foreign_run v evs : forall w, foreign v evs w -> kept v w (run evs w).
Proof.
  induction evs as [|ev evs IH]; intros w; cbn [foreign run fold_left].
  - intros _. apply kept_refl.
  - intros [Hev Hevs]. eapply kept_trans; [apply foreign_step, Hev|].
    apply IH, Hevs.
Qed.

End AsyncFacts.

(** C10, as stated, fails: the vote of an earlier identity can be carried
    over.  The read that the listener starts at a sign-in is not awaited,
    and a read that finds no record leaves the vote state as it is.  With
    a record ["against"] for alice and none for dave: alice signs in and
    signs out before her read has returned; the read then returns and its
    callback sets the vote state of the signed-out session to ["against"];
    dave signs in, his read finds no record, and dave is shown as having
    voted ["against"].  The same happens when the session goes from alice
    to dave with no sign-out between the two. *)
Lemma authStateChanged_carries_over :
  let w0 := Async.World sample_store ∅ ∅ 0 in
  let w1 := Async.run [Async.AuthStateChanged 0 (Some "alice");
                       Async.AuthStateChanged 0 None;
                       Async.Settle 0 true; Async.Settle 0 true] w0 in
  let w2 := Async.run [Async.AuthStateChanged 0 (Some "dave");
                       Async.Settle 1 true; Async.Settle 1 true] w1 in
  let w3 := Async.run [Async.AuthStateChanged 0 (Some "alice");
                       Async.Settle 0 true; Async.Settle 0 true;
                       Async.AuthStateChanged 0 (Some "dave");
                       Async.Settle 1 true; Async.Settle 1 true] w0 in
  Async.session w1 0 = App None (Some "against")
  /\ userVotes (Async.db w2) !! "dave" = None
  /\ Async.session w2 0 = App (Some "dave") (Some "against")
  /\ Async.pending w2 = ∅
  /\ Async.session w3 0 = App (Some "dave") (Some "against").
Proof. vm_compute. repeat split. Qed.

(** C10, amended.  When the session of a page becomes unauthenticated the
    listener sets the vote state to null at once.  At a sign-in the
    listener sets the user and starts a read of the vote record of the new
    uid, without waiting for it: the vote state stays what it was until
    the read has returned and its callback has run, and then it is the
    vote of the record that the read found, or still what it was when the
    read found no record or was rejected.  So, for a page with no handler
    pending, whatever the other pages do in between, the vote state after
    a sign-in is that of the new identity when its record exists, and is
    null when the sign-in found it null. *)
Theorem authStateChanged_per_identity
    (w : Async.world) (v : Async.viewer) (uid : string)
    (evs1 evs2 : list Async.event) (ok : bool) :
  Async.quiet v w ->
  let i := Async.next w in
  let w1 := Async.step (Async.AuthStateChanged v (Some uid)) w in
  Async.foreign v evs1 w1 ->
  let w2 := Async.run evs1 w1 in
  let w3 := Async.step (Async.Settle i ok) w2 in
  Async.foreign v evs2 w3 ->
  let w4 := Async.run evs2 w3 in
  let w5 := Async.step (Async.Settle i true) w4 in
  (forall w', Async.session (Async.step (Async.AuthStateChanged v None) w') v
              = App None None)
  /\ Async.session w4 v = App (Some uid) (userVote (Async.session w v))
  /\ Async.session w5 v
     = App (Some uid)
           (if ok
            then match userVotes (Async.db w2) !! uid with
                 | Some d => Some (vote d)
                 | None => userVote (Async.session w v)
                 end
            else userVote (Async.session w v))
  /\ Async.quiet v w5.
Proof.
  intros Hq i w1 Hf1 w2 w3 Hf2 w4 w5.
  split.
  { intros w'. cbn [Async.step]. unfold Async.authStateChanged.
    rewrite !session_render. reflexivity. }
  (* after the sign-in *)
  assert (H1 : Async.session w1 v = App (Some uid) (userVote (Async.session w v))
               /\ Async.pending w1 !! i = Some (v, Async.GetVote uid)
               /\ (i < Async.next w1)%nat
               /\ (forall j t, Async.pending w1 !! j = Some (v, t) -> j = i)).
  { unfold w1. cbn [Async.step].
    destruct (sign_in v uid w) as (Hs & Hp & Hn). rewrite Hs, Hp, Hn. fold i.
    split; [reflexivity|]. rewrite lookup_insert_eq. split; [reflexivity|].
    split; [lia|]. intros j t. destruct (decide (i = j)) as [<-|Hne]; [reflexivity|].
    rewrite lookup_insert_ne by exact Hne. intros Hj. exfalso. exact (Hq _ _ Hj). }
  destruct H1 as (Hs1 & Hp1 & Hn1 & Hown1).
  destruct (foreign_run v evs1 w1 Hf1) as (Hs2 & Hn2 & Hb2 & _ & Hk2).
  fold w2 in Hs2, Hn2, Hb2, Hk2.
  assert (Hp2 : Async.pending w2 !! i = Some (v, Async.GetVote uid)) by (apply Hk2; assumption).
  (* the read is served *)
  assert (H3 : Async.session w3 v = Async.session w2 v
               /\ Async.next w3 = Async.next w2
               /\ Async.pending w3
                  = if ok
                    then <[i := (v, Async.GotVote (userVotes (Async.db w2) !! uid))]>
                           (Async.pending w2)
                    else delete i (Async.pending w2)).
  { unfold w3. cbn [Async.step]. rewrite Hp2.
    unfold Async.continue, Async.served, getDoc_userVotes, request.
    destruct w2 as [db2 ss2 p2 n2]. cbn. destruct ok; cbn; auto. }
  destruct H3 as (Hs3 & Hn3 & Hp3).
  destruct (foreign_run v evs2 w3 Hf2) as (Hs4 & Hn4 & Hb4 & Hnone4 & Hk4).
  fold w4 in Hs4, Hn4, Hb4, Hnone4, Hk4.
  assert (Hi3 : (i < Async.next w3)%nat) by lia.
  split; [congruence|].
  destruct ok.
  - assert (Hp4 : Async.pending w4 !! i
                  = Some (v, Async.GotVote (userVotes (Async.db w2) !! uid))).
    { apply Hk4; [exact Hi3|]. rewrite Hp3. apply lookup_insert_eq. }
    assert (Hown4 : forall j t, Async.pending w4 !! j = Some (v, t) -> j = i).
    { intros j t Hj. apply Hb4 in Hj. rewrite Hp3 in Hj.
      destruct (decide (i = j)) as [<-|Hne]; [reflexivity|].
      rewrite lookup_insert_ne in Hj by exact Hne. apply Hb2 in Hj.
      apply (Hown1 _ _ Hj). }
    unfold w5. cbn [Async.step]. rewrite Hp4. cbn [Async.continue].
    destruct (userVotes (Async.db w2) !! uid) as [d|].
    + split.
      * unfold Async.session at 1. cbn [Async.sessions Async.render].
        rewrite lookup_insert_eq. cbn. rewrite Hs4, Hs3, Hs2, Hs1. reflexivity.
      * intros j t. cbn [Async.pending Async.render].
        destruct (decide (i = j)) as [<-|Hne].
        { rewrite lookup_delete_eq. discriminate. }
        { rewrite lookup_delete_ne by exact Hne. intros Hj. apply Hne.
          symmetry. apply (Hown4 _ _ Hj). }
    + split.
      * unfold Async.session at 1. cbn [Async.sessions].
        fold (Async.session w4 v). rewrite Hs4, Hs3, Hs2, Hs1. reflexivity.
      * intros j t. cbn [Async.pending].
        destruct (decide (i = j)) as [<-|Hne].
        { rewrite lookup_delete_eq. discriminate. }
        { rewrite lookup_delete_ne by exact Hne. intros Hj. apply Hne.
          symmetry. apply (Hown4 _ _ Hj). }
  - assert (Hq3 : forall j t, Async.pending w3 !! j <> Some (v, t)).
    { intros j t. rewrite Hp3. destruct (decide (i = j)) as [<-|Hne].
      - rewrite lookup_delete_eq. discriminate.
      - rewrite lookup_delete_ne by exact Hne. intros Hj. apply Hne.
        apply Hb2 in Hj. symmetry. apply (Hown1 _ _ Hj). }
    assert (Hp4 : Async.pending w4 !! i = None).
    { apply Hnone4; [exact Hi3|]. rewrite Hp3. apply lookup_delete_eq. }
    unfold w5. cbn [Async.step]. rewrite Hp4.
    split; [congruence|].
    intros j t Hj. apply Hb4 in Hj. exact (Hq3 _ _ Hj).
Qed.

Lemma authStateChanged_per_identity_witness :
  let w := Async.World sample_store ∅ ∅ 0 in
  let evs1 := [Async.AuthStateChanged 1 (Some "bob"); Async.Settle 1 true;
               Async.Settle 1 true; Async.HandleVote 1 "support" 20;
               Async.Settle 2 true] in
  let evs2 := [Async.Settle 2 true; Async.Settle 2 true] in
  let w1 := Async.step (Async.AuthStateChanged 0 (Some "alice")) w in
  let w2 := Async.run evs1 w1 in
  let w3 := Async.step (Async.Settle 0 true) w2 in
  let w4 := Async.run evs2 w3 in
  let w5 := Async.step (Async.Settle 0 true) w4 in
  (forall w', Async.session (Async.step (Async.AuthStateChanged 0 None) w') 0
              = App None None)
  /\ Async.session w4 0 = App (Some "alice") (userVote (Async.session w 0))
  /\ Async.session w5 0
     = App (Some "alice")
           match userVotes (Async.db w2) !! "alice" with
           | Some d => Some (vote d)
           | None => userVote (Async.session w 0)
           end
  /\ Async.quiet 0 w5.
Proof.
  apply (authStateChanged_per_identity (Async.World sample_store ∅ ∅ 0)
           0%nat "alice"
           [Async.AuthStateChanged 1 (Some "bob"); Async.Settle 1 true;
            Async.Settle 1 true; Async.HandleVote 1 "support" 20;
            Async.Settle 2 true]
           [Async.Settle 2 true; Async.Settle 2 true] true).
  - intros j t. cbn [Async.pending]. rewrite lookup_empty. discriminate.
  - cbn [Async.foreign Async.foreign_event].
    repeat split; try discriminate; intros t; vm_compute; discriminate.
  - cbn [Async.foreign Async.foreign_event].
    repeat split; try discriminate; intros t; vm_compute; discriminate.
Defined.

(** ** The session taken in sequence, among the handlers that overlap *)

Section InSequence.
Implicit Types (w : Async.world) (v : Async.viewer) (t : Async.task) (i : nat) (ok : bool).

(** The one Async.pending task goes on. *)
Lemma settle_one i ok d ss v t n :
  Async.step (Async.Settle i ok) (Async.World d ss {[ i := (v, t) ]} n)
  = Async.World (Async.db (snd (Async.continue v t ok (Async.World d ss ∅ n))))
          (Async.sessions (snd (Async.continue v t ok (Async.World d ss ∅ n))))
          match fst (Async.continue v t ok (Async.World d ss ∅ n)) with
          | Some t1 => {[ i := (v, t1) ]}
          | None => ∅
          end n.
Proof.
  cbn [Async.step Async.pending]. rewrite lookup_singleton_eq.
  destruct d as [uv sd].
  destruct t as [uid|[doc|]|uid k now|k|k [|]|k]; destruct ok; cbn;
    rewrite ?insert_singleton_eq, ?delete_singleton_eq; try reflexivity;
    destruct sd; cbn; rewrite ?insert_singleton_eq; reflexivity.
Qed.

Lemma settle_none i ok d ss n :
  Async.step (Async.Settle i ok) (Async.World d ss ∅ n) = Async.World d ss ∅ n.
Proof. cbn [Async.step Async.pending]. rewrite lookup_empty. reflexivity. Qed.

Lemma sign_in_world v uid d ss n :
  Async.step (Async.AuthStateChanged v (Some uid)) (Async.World d ss ∅ n)
  = Async.World d (<[v := setUser (Some uid) (default initial_app (ss !! v))]> ss)
          {[ n := (v, Async.GetVote uid) ]} (S n).
Proof.
  cbn [Async.step]. unfold Async.authStateChanged, Async.spawn, Async.render, Async.session. cbn.
  rewrite insert_empty. reflexivity.
Qed.

Lemma sign_out_world v d ss n :
  Async.step (Async.AuthStateChanged v None) (Async.World d ss ∅ n)
  = Async.World d (<[v := App None None]>
                     (<[v := setUser None (default initial_app (ss !! v))]> ss)) ∅ n.
Proof.
  cbn [Async.step]. unfold Async.authStateChanged, Async.render, Async.session. cbn.
  rewrite lookup_insert_eq. reflexivity.
Qed.

Lemma click_world v k now d ss n :
  Async.step (Async.HandleVote v k now) (Async.World d ss ∅ n)
  = match user (default initial_app (ss !! v)) with
    | Some uid =>
        if truthy (userVote (default initial_app (ss !! v))) then Async.World d ss ∅ n
        else Async.World d ss {[ n := (v, Async.SetRecord uid k now) ]} (S n)
    | None => Async.World d ss ∅ n
    end.
Proof.
  cbn [Async.step]. unfold Async.handleVote, Async.spawn, Async.session. cbn.
  destruct (user _); [destruct (truthy _)|]; reflexivity.
Qed.

Local Ltac same_session :=
  unfold Async.session; cbn; rewrite ?lookup_insert_eq; cbn;
  split; [reflexivity|]; split; [reflexivity|]; split; [reflexivity|];
  split; [lia|];
  let v' := fresh "v" in let Hne := fresh "Hne" in
  intros v' Hne; rewrite ?lookup_insert_ne by congruence; reflexivity.

(** One event of the session taken in sequence is the handler followed at
    once by the steps of its task, with the same outcomes: the state of
    the page and the store come out the same, nothing is left Async.pending, and
    the other pages are as they were. *)
Lemma in_sequence_step v ev (net : list bool) d ss n :
  let w := Async.World d ss ∅ n in
  let s' := step ev (Async.session w v, (d, net)) in
  let w' := Async.run (in_sequence v n net ev) w in
  Async.session w' v = fst s'
  /\ Async.db w' = fst (snd s')
  /\ Async.pending w' = ∅
  /\ (n <= Async.next w')%nat
  /\ (forall v', v' <> v -> Async.session w' v' = Async.session w v').
Proof.
  intros w s' w'. unfold w', s', w, in_sequence.
  destruct ev as [[uid|]|k now]; cbn [Async.run fold_left].
  - rewrite sign_in_world.
    unfold step, authStateChanged, getDoc_userVotes, request. cbn [fst snd].
    destruct net as [|[] net]; cbn [nth]; rewrite settle_one; cbn -[Async.step];
      try (destruct (userVotes d !! uid) as [doc|]; cbn -[Async.step]);
      rewrite ?settle_one, ?settle_none; cbn -[Async.step]; same_session.
  - rewrite sign_out_world, !settle_none. same_session.
  - rewrite click_world. unfold step, handleVote, Async.session. cbn [fst snd Async.sessions].
    destruct (user (default initial_app (ss !! v))) as [uid|] eqn:Hu;
      [|rewrite !settle_none; same_session].
    destruct (truthy (userVote (default initial_app (ss !! v)))) eqn:Hv;
      [rewrite !settle_none; same_session|].
    unfold cast, await, setDoc_userVotes, getDoc_votes, setDoc_votes,
      setDoc_votes_increment, request.
    destruct d as [uv sd].
    destruct net as [|[] [|[] [|[] net]]]; cbn [nth];
      rewrite settle_one; cbn -[Async.step]; rewrite ?settle_one, ?settle_none; cbn -[Async.step];
      destruct sd; cbn -[Async.step]; rewrite ?settle_one, ?settle_none; cbn -[Async.step];
      rewrite ?settle_one, ?settle_none; cbn -[Async.step]; same_session.
Qed.

(** Every run of the session taken in sequence is a run of the handlers
    that overlap: the one in which each task is the only one pending and
    goes on at once. *)
Lemma run_in_sequence v (evs : list event) : forall (net : list bool) d ss n,
  let w := Async.World d ss ∅ n in
  let s' := run evs (Async.session w v, (d, net)) in
  exists aevs,
    let w' := Async.run aevs w in
    Async.session w' v = fst s'
    /\ Async.db w' = fst (snd s')
    /\ Async.pending w' = ∅
    /\ (forall v', v' <> v -> Async.session w' v' = Async.session w v').
Proof.
  induction evs as [|ev evs IH]; intros net d ss n.
  - exists []. cbn. auto.
  - destruct (in_sequence_step v ev net d ss n) as (Hs & Hd & Hp & _ & Ho).
    set (w1 := Async.run (in_sequence v n net ev) (Async.World d ss ∅ n)) in *.
    destruct w1 as [d1 ss1 p1 n1] eqn:Hw1. cbn [Async.db Async.pending] in Hd, Hp.
    subst p1.
    destruct (IH (snd (snd (step ev (Async.session (Async.World d ss ∅ n) v, (d, net)))))
                d1 ss1 n1) as (aevs & Hs' & Hd' & Hp' & Ho').
    exists (in_sequence v n net ev ++ aevs)%list.
    cbv zeta. unfold Async.run at 1 2 3 4. rewrite !fold_left_app.
    fold (Async.run (in_sequence v n net ev) (Async.World d ss ∅ n)).
    fold w1. rewrite Hw1.
    fold (Async.run aevs (Async.World d1 ss1 ∅ n1)).
    cbn [run fold_left].
    assert (Hstep : step ev (Async.session (Async.World d ss ∅ n) v, (d, net))
                    = (Async.session (Async.World d1 ss1 ∅ n1) v,
                       (d1, snd (snd (step ev (Async.session (Async.World d ss ∅ n) v,
                                               (d, net))))))).
    { rewrite Hs, Hd.
      destruct (step ev (Async.session (Async.World d ss ∅ n) v, (d, net))) as [st' [d' net']].
      reflexivity. }
    rewrite Hstep. fold (run evs (Async.session (Async.World d1 ss1 ∅ n1) v,
                                  (d1, snd (snd (step ev (Async.session (Async.World d ss ∅ n) v,
                                               (d, net))))))).
    split; [exact Hs'|]. split; [exact Hd'|]. split; [exact Hp'|].
    intros v' Hne. rewrite (Ho' v' Hne). apply Ho, Hne.
Qed.

End InSequence.

(** * Further properties *)

(** ** Filter engine *)

Lemma filter_all {A} (f : A -> bool) (l : list A) :
  Forall (fun x => f x = true) l -> List.filter f l = l.
Proof.
  induction 1 as [|x l Hx _ IH]; simpl; [reflexivity|].
  rewrite Hx, IH. reflexivity.
Qed.

Lemma filter_filter {A} (f g : A -> bool) (l : list A) :
  List.filter g (List.filter f l) = List.filter (fun x => f x && g x) l.
Proof.
  induction l as [|x l IH]; simpl; [reflexivity|].
  destruct (f x); simpl; [destruct (g x)|]; rewrite ?IH; reflexivity.
Qed.

Lemma filter_ext_bool {A} (f g : A -> bool) (l : list A) :
  (forall x, f x = g x) -> List.filter f l = List.filter g l.
Proof.
  intros Hfg. induction l as [|x l IH]; simpl; [reflexivity|].
  rewrite Hfg, IH. reflexivity.
Qed.

Lemma merge_facet_spec a b (v : option string) :
  facets_agree a b ->
  ((merge_facet a b <> "ALL" -> v = Some (merge_facet a b))
   <-> (a <> "ALL" -> v = Some a) /\ (b <> "ALL" -> v = Some b)).
Proof.
  unfold facets_agree, merge_facet.
  destruct (String.eqb_spec a "ALL") as [->|Ha]; intros Hagree.
  - tauto.
  - destruct Hagree as [->|[->|<-]]; tauto.
Qed.

Lemma keep_row_merge s1 s2 r :
  agree s1 s2 -> keep_row (merge s1 s2) r = keep_row s1 r && keep_row s2 r.
Proof.
  intros (Ht & Hy & Hs). apply Bool.eq_iff_eq_true.
  rewrite andb_true_iff, !keep_row_spec. unfold matches, merge. simpl.
  rewrite (merge_facet_spec _ _ (r !! "ITEM TYPE") Ht).
  rewrite (merge_facet_spec _ _ (r !! "YEAR") Hy).
  rewrite (merge_facet_spec _ _ (r !! "SUPPLIER") Hs).
  tauto.
Qed.

(** With every facet at ["ALL"], the selection the component starts
    with, [filteredData] gives back the whole list. *)
Theorem filteredData_all_facets (data : list row) :
  filteredData data all_facets = data.
Proof.
  unfold filteredData. apply filter_all. apply List.Forall_forall.
  intros r _. reflexivity.
Qed.

(** X1.  Filtering a filtered list is filtering once by both selections:
    when the two selections agree (no facet is asked two different values)
    the result is that of the merged selection, whatever the order of the
    two filters; and filtering twice by one selection changes nothing. *)
Theorem filteredData_compose (data : list row) (s1 s2 : selection) :
  agree s1 s2 ->
  filteredData (filteredData data s1) s2 = filteredData data (merge s1 s2)
  /\ filteredData (filteredData data s2) s1 = filteredData data (merge s1 s2)
  /\ filteredData (filteredData data s1) s1 = filteredData data s1.
Proof.
  intros Hagree. unfold filteredData. rewrite !filter_filter.
  repeat split; apply filter_ext_bool; intros r.
  - symmetry. apply keep_row_merge, Hagree.
  - rewrite (keep_row_merge _ _ _ Hagree). apply andb_comm.
  - destruct (keep_row s1 r); reflexivity.
Qed.

Lemma filteredData_compose_witness :
  let s1 := Build_selection "WINE" "ALL" "ALL" in
  let s2 := Build_selection "ALL" "2020" "ALL" in
  filteredData (filteredData rows_calendar s1) s2
  = filteredData rows_calendar (merge s1 s2)
  /\ filteredData (filteredData rows_calendar s2) s1
     = filteredData rows_calendar (merge s1 s2)
  /\ filteredData (filteredData rows_calendar s1) s1 = filteredData rows_calendar s1.
Proof.
  apply (filteredData_compose rows_calendar
           (Build_selection "WINE" "ALL" "ALL") (Build_selection "ALL" "2020" "ALL")).
  repeat split; simpl; unfold facets_agree; auto.
Defined.

(** X2.  Two selections that ask a facet for two different values leave
    nothing: the second filter empties the result of the first. *)
Theorem filteredData_disagree (data : list row) (s1 s2 : selection) :
  (selectedType s1 <> "ALL" /\ selectedType s2 <> "ALL"
   /\ selectedType s1 <> selectedType s2)
  \/ (selectedYear s1 <> "ALL" /\ selectedYear s2 <> "ALL"
      /\ selectedYear s1 <> selectedYear s2)
  \/ (selectedSupplier s1 <> "ALL" /\ selectedSupplier s2 <> "ALL"
      /\ selectedSupplier s1 <> selectedSupplier s2) ->
  filteredData (filteredData data s1) s2 = [].
Proof.
  intros Hdis. unfold filteredData. rewrite filter_filter.
  induction data as [|r data IH]; simpl; [reflexivity|].
  destruct (keep_row s1 r && keep_row s2 r) eqn:E; [|exact IH].
  exfalso. apply andb_true_iff in E. destruct E as [E1 E2].
  apply keep_row_spec in E1. apply keep_row_spec in E2.
  destruct E1 as (T1 & Y1 & S1). destruct E2 as (T2 & Y2 & S2).
  destruct Hdis as [(Ha & Hb & Hne)|[(Ha & Hb & Hne)|(Ha & Hb & Hne)]].
  - specialize (T1 Ha). specialize (T2 Hb). congruence.
  - specialize (Y1 Ha). specialize (Y2 Hb). congruence.
  - specialize (S1 Ha). specialize (S2 Hb). congruence.
Qed.

Lemma filteredData_disagree_witness :
  filteredData (filteredData rows_calendar (Build_selection "WINE" "ALL" "ALL"))
               (Build_selection "BEER" "ALL" "ALL") = [].
Proof.
  apply (filteredData_disagree rows_calendar
           (Build_selection "WINE" "ALL" "ALL") (Build_selection "BEER" "ALL" "ALL")).
  left. repeat split; discriminate.
Defined.

Lemma filtered_valid (results : list row) (sel : selection) :
  Forall (fun r => valid_row r = true) (filteredData (cleanData results) sel).
Proof.
  apply List.Forall_forall. intros r Hin. unfold filteredData, cleanData in Hin.
  apply filter_In in Hin. destruct Hin as [Hin _].
  apply filter_In in Hin. apply Hin.
Qed.

(** X3.  Every filtered view of the loaded data is made of validated
    records: the loader's filter leaves it as it is, and it is a
    subsequence of the parsed rows. *)
Theorem filtered_view_validated (results : list row) (sel : selection) :
  cleanData (filteredData (cleanData results) sel)
  = filteredData (cleanData results) sel
  /\ Forall (fun r => valid_row r = true) (filteredData (cleanData results) sel)
  /\ sublist (filteredData (cleanData results) sel) results.
Proof.
  pose proof (filtered_valid results sel) as Hv.
  split; [apply filter_all; exact Hv|]. split; [exact Hv|].
  etransitivity; apply filter_sublist.
Qed.

(** ** Facet lists *)

Section SetFacts.
Context {A : Type} `{EqDecision A}.

Lemma Set_has_In (s : list A) (x : A) : Set_has s x = true <-> In x s.
Proof.
  unfold Set_has. rewrite existsb_exists. split.
  - intros (y & Hy & Heq). apply bool_decide_eq_true in Heq. subst y. exact Hy.
  - intros Hin. exists x. split; [exact Hin | apply bool_decide_eq_true; reflexivity].
Qed.

Lemma fold_Set_add (l : list A) : forall acc,
  List.NoDup acc ->
  List.NoDup (fold_left Set_add l acc)
  /\ (forall x, In x (fold_left Set_add l acc) <-> In x acc \/ In x l).
Proof.
  induction l as [|y l IH]; intros acc Hnd; simpl.
  - split; [exact Hnd | intros x; tauto].
  - assert (Hnd' : List.NoDup (Set_add acc y)).
    { unfold Set_add. destruct (Set_has acc y) eqn:E; [exact Hnd|].
      apply List.NoDup_app; [exact Hnd | constructor; [simpl; tauto | constructor] |].
      intros x Hx [<-|[]]. apply Set_has_In in Hx. congruence. }
    destruct (IH _ Hnd') as [Hres Hin]. split; [exact Hres|].
    intros x. rewrite Hin. unfold Set_add.
    destruct (Set_has acc y) eqn:E.
    + apply Set_has_In in E. split; [intros [?|?]; auto | intros [?|[<-|?]]; auto].
    + rewrite in_app_iff. simpl. tauto.
Qed.

Lemma new_Set_NoDup (l : list A) : List.NoDup (new_Set l).
Proof. apply fold_Set_add. constructor. Qed.

Lemma new_Set_In (l : list A) (x : A) : In x (new_Set l) <-> In x l.
Proof.
  unfold new_Set. destruct (fold_Set_add l [] (List.NoDup_nil A)) as [_ Hin].
  rewrite Hin. simpl. tauto.
Qed.

End SetFacts.

Section DefaultSort.

Lemma sorts_before_trans x y z :
  sorts_before x y -> sorts_before y z -> sorts_before x z.
Proof.
  destruct x as [a|], y as [b|], z as [c|]; simpl; try tauto.
  apply compare_lt_trans.
Qed.

Lemma default_compare_le x y :
  (default_compare x y <=? 0)%Z = true <-> x = y \/ sorts_before x y.
Proof.
  destruct x as [a|], y as [b|]; simpl.
  - destruct (String.compare a b) eqn:E; simpl.
    + apply String.compare_eq_iff in E. subst b. tauto.
    + tauto.
    + split; [discriminate | intros [[= ->]|H]; [|discriminate]].
      pose proof (String.compare_antisym b b) as Hanti.
      rewrite E in Hanti. discriminate.
  - tauto.
  - split; [discriminate | intros [[=]|[]]].
  - tauto.
Qed.

Lemma default_compare_total x y :
  (default_compare x y <=? 0)%Z = false -> (default_compare y x <=? 0)%Z = true.
Proof.
  destruct x as [a|], y as [b|]; simpl; try reflexivity; try discriminate.
  rewrite (String.compare_antisym b a).
  destruct (String.compare a b); simpl; try reflexivity; discriminate.
Qed.

Lemma sorted_strict {A} (lt : A -> A -> Prop) (l : list A) :
  (forall x y z, lt x y -> lt y z -> lt x z) ->
  Sorted (fun x y => x = y \/ lt x y) l -> List.NoDup l -> StronglySorted lt l.
Proof.
  intros Htrans Hs Hnd.
  apply Sorted_StronglySorted in Hs.
  2:{ intros x y z [->|Hxy] [->|Hyz]; auto. right. eapply Htrans; eassumption. }
  induction Hs as [|a l Hs IH Hall]; [constructor|].
  apply List.NoDup_cons_iff in Hnd. destruct Hnd as [Hnotin Hnd].
  constructor; [apply IH; exact Hnd|].
  apply List.Forall_forall. intros b Hb.
  rewrite List.Forall_forall in Hall. destruct (Hall b Hb) as [->|Hlt]; [contradiction | exact Hlt].
Qed.

Lemma default_sort_strict (l : list (option string)) :
  List.NoDup l -> StronglySorted sorts_before (Array_sort default_compare l).
Proof.
  intros Hnd. apply sorted_strict.
  - apply sorts_before_trans.
  - apply (Array_sort_sorted default_compare (fun _ => True)).
    + intros x y _ _ Hc. apply default_compare_le, Hc.
    + intros x y _ _ Hc. apply default_compare_le, default_compare_total, Hc.
    + apply List.Forall_forall. auto.
  - eapply Permutation_NoDup; [|exact Hnd]. symmetry. apply Array_sort_perm.
Qed.

Lemma default_sort_In (l : list (option string)) x :
  In x (Array_sort default_compare l) <-> In x l.
Proof.
  split; apply Permutation_in; [|symmetry]; apply Array_sort_perm.
Qed.

Lemma StronglySorted_app_inv {A} (R : A -> A -> Prop) (l1 l2 : list A) :
  StronglySorted R (l1 ++ l2)%list ->
  StronglySorted R l1 /\ (forall x y, In x l1 -> In y l2 -> R x y).
Proof.
  induction l1 as [|a l1 IH]; simpl; intros Hs.
  - split; [constructor | intros x y []].
  - apply StronglySorted_inv in Hs. destruct Hs as [Hs Hall].
    destruct (IH Hs) as [Hs1 Hcross]. split.
    + constructor; [exact Hs1|]. apply List.Forall_forall. intros x Hx.
      rewrite List.Forall_forall in Hall. apply Hall, in_or_app. left. exact Hx.
    + intros x y [<-|Hx] Hy; [|apply Hcross; assumption].
      rewrite List.Forall_forall in Hall. apply Hall, in_or_app. right. exact Hy.
Qed.

End DefaultSort.

Lemma years_In (data : list row) (y : option string) :
  In y (years data) <-> exists r, In r data /\ r !! "YEAR" = y.
Proof.
  unfold years. rewrite default_sort_In, new_Set_In, in_map_iff.
  split; intros (r & H1 & H2); exists r; auto.
Qed.

(** X4.  The list of years holds exactly the YEAR values of the data, each
    once, in strictly ascending order of code units (a missing YEAR, read
    as [undefined], last); on validated data every entry is a non-empty
    text. *)
Theorem years_sorted_exact (data : list row) :
  StronglySorted sorts_before (years data)
  /\ (forall y, In y (years data) <-> exists r, In r data /\ r !! "YEAR" = y)
  /\ (Forall (fun r => valid_row r = true) data -> Forall present (years data)).
Proof.
  split; [unfold years; apply default_sort_strict, new_Set_NoDup|].
  split; [apply years_In|].
  intros Hvalid. apply List.Forall_forall. intros y Hy.
  apply years_In in Hy. destruct Hy as (r & Hr & <-).
  rewrite List.Forall_forall in Hvalid. specialize (Hvalid r Hr).
  apply valid_row_spec in Hvalid. apply Hvalid.
Qed.

(** X5.  Every year of the list, chosen in the year filter, selects at
    least one record, and exactly the records of that YEAR (for a year
    that is not the text ["ALL"], which stands for no filter). *)
Theorem years_select_records (data : list row) (y : string) :
  In (Some y) (years data) ->
  y <> "ALL" ->
  filteredData data (Build_selection "ALL" y "ALL") <> []
  /\ (forall r, In r (filteredData data (Build_selection "ALL" y "ALL"))
                <-> In r data /\ r !! "YEAR" = Some y).
Proof.
  intros Hy Hne.
  assert (Hspec : forall r, In r (filteredData data (Build_selection "ALL" y "ALL"))
                            <-> In r data /\ r !! "YEAR" = Some y).
  { intros r. unfold filteredData. rewrite filter_In, keep_row_spec.
    unfold matches. simpl. intuition congruence. }
  split; [|exact Hspec].
  apply years_In in Hy.
  destruct Hy as (r & Hr & Hyear).
  intros Hempty. assert (Hin : In r (filteredData data (Build_selection "ALL" y "ALL")))
    by (apply Hspec; auto).
  rewrite Hempty in Hin. exact Hin.
Qed.

Lemma years_select_records_witness :
  filteredData rows_suppliers (Build_selection "ALL" "2019" "ALL") <> []
  /\ (forall r, In r (filteredData rows_suppliers (Build_selection "ALL" "2019" "ALL"))
                <-> In r rows_suppliers /\ r !! "YEAR" = Some "2019").
Proof.
  apply (years_select_records rows_suppliers "2019").
  - vm_compute. left. reflexivity.
  - discriminate.
Defined.

Lemma suppliers_full_list (data : list row) :
  let full := Array_sort default_compare
                (List.filter truthy (new_Set (map (fun r : row => r !! "SUPPLIER") data))) in
  StronglySorted sorts_before full
  /\ (forall x, In x full <-> present x /\ exists r, In r data /\ r !! "SUPPLIER" = x).
Proof.
  intros full. split.
  - apply default_sort_strict. apply List.NoDup_filter, new_Set_NoDup.
  - intros x. unfold full.
    rewrite default_sort_In, filter_In, new_Set_In, in_map_iff, truthy_present.
    split.
    + intros [(r & H1 & H2) Hp]. split; [exact Hp | exists r; auto].
    + intros [Hp (r & H1 & H2)]. split; [exists r; auto | exact Hp].
Qed.

(** X6.  The list of suppliers has at most 50 entries, in strictly
    ascending order of code units, and each is the non-empty SUPPLIER of a
    record. *)
Theorem suppliers_sorted_bounded (data : list row) :
  (length (suppliers data) <= 50)%nat
  /\ StronglySorted sorts_before (suppliers data)
  /\ (forall x, In x (suppliers data) ->
        present x /\ exists r, In r data /\ r !! "SUPPLIER" = x).
Proof.
  destruct (suppliers_full_list data) as [Hsorted Hin].
  unfold suppliers. split; [apply firstn_le_length|].
  set (full := Array_sort _ _) in *.
  rewrite <- (firstn_skipn 50 full) in Hsorted.
  apply StronglySorted_app_inv in Hsorted. split; [apply Hsorted|].
  intros x Hx. apply Hin. rewrite <- (firstn_skipn 50 full).
  apply in_or_app. left. exact Hx.
Qed.

(** X7.  The list of suppliers is cut after the first 50: a non-empty
    SUPPLIER of a record is in the list, or else the list is full and all
    its 50 entries come before that supplier. *)
Theorem suppliers_first_fifty (data : list row) (s : string) (r : row) :
  In r data -> r !! "SUPPLIER" = Some s -> s <> "" ->
  In (Some s) (suppliers data)
  \/ (length (suppliers data) = 50%nat
      /\ forall t, In t (suppliers data) -> sorts_before t (Some s)).
Proof.
  intros Hr Hs Hne.
  destruct (suppliers_full_list data) as [Hsorted Hin].
  unfold suppliers. set (full := Array_sort _ _) in *.
  assert (Hfull : In (Some s) full).
  { apply Hin. split; [exists s; auto | exists r; auto]. }
  rewrite <- (firstn_skipn 50 full) in Hfull, Hsorted.
  apply in_app_or in Hfull. destruct Hfull as [Hfirst|Hrest]; [left; exact Hfirst|].
  right. split.
  - apply firstn_length_le.
    destruct (Nat.le_gt_cases 50 (length full)) as [Hle|Hgt]; [exact Hle|].
    rewrite skipn_all2 in Hrest by lia. destruct Hrest.
  - apply StronglySorted_app_inv in Hsorted. destruct Hsorted as [_ Hcross].
    intros t Ht. apply Hcross; assumption.
Qed.

Lemma suppliers_first_fifty_witness :
  In (Some "A CO") (suppliers rows_suppliers)
  \/ (length (suppliers rows_suppliers) = 50%nat
      /\ forall t, In t (suppliers rows_suppliers) -> sorts_before t (Some "A CO")).
Proof.
  apply (suppliers_first_fifty rows_suppliers "A CO"
           (mkrow [("YEAR", "2019"); ("MONTH", "3"); ("ITEM TYPE", "WINE");
                   ("SUPPLIER", "A CO")])).
  - right. left. reflexivity.
  - reflexivity.
  - discriminate.
Defined.

(** ** Aggregation engine *)

Section MonthlyMore.
Context {num : Type} `{Number num}.
Implicit Types (acc : list (string * bucket num)) (rows : list row).

Lemma monthKey_None (r : row) : monthKey r = None <-> r !! "MONTH" = None.
Proof. unfold monthKey. destruct (r !! "MONTH"); split; congruence. Qed.

Lemma monthly_loop_None rows : forall acc,
  monthly_loop acc rows = None <-> exists r, In r rows /\ r !! "MONTH" = None.
Proof.
  induction rows as [|r rows IH]; intros acc; simpl.
  - split; [discriminate | intros (r & [] & _)].
  - unfold monthly_step at 1. destruct (monthKey r) as [key|] eqn:Hkey.
    + rewrite IH. split.
      * intros (r' & Hin & Hm). exists r'. auto.
      * intros (r' & [<-|Hin] & Hm); [|exists r'; auto].
        apply monthKey_None in Hm. congruence.
    + split; [|reflexivity]. intros _. exists r. split; [auto|].
      apply monthKey_None, Hkey.
Qed.

Lemma monthly_keys rows res :
  monthly_loop [] rows = Some res ->
  List.NoDup (map fst res)
  /\ (forall k, In k (map fst res) <-> exists r, In r rows /\ monthKey r = Some k).
Proof.
  intros Hloop.
  assert (Hall : Forall (fun r => is_Some (monthKey r)) rows).
  { apply List.Forall_forall. intros r Hr.
    destruct (monthKey r) eqn:E; [eexists; reflexivity|].
    assert (Hnone : monthly_loop [] rows = None).
    { apply monthly_loop_None. exists r. split; [exact Hr | apply monthKey_None, E]. }
    congruence. }
  destruct (monthly_loop_get rows [] Hall (List.NoDup_nil _)) as (res' & Hloop' & Hnd & Hget).
  rewrite Hloop in Hloop'. injection Hloop' as <-.
  split; [exact Hnd|].
  intros k. rewrite <- rows_of_key_nonempty.
  specialize (Hget k). simpl in Hget. split.
  - intros Hin E. rewrite E in Hget. simpl in Hget.
    apply get_None_iff in Hget. exact (Hget Hin).
  - intros Hne. destruct (in_dec string_dec k (map fst res)) as [Hin|Hnin]; [exact Hin|].
    apply get_None_iff in Hnin. rewrite Hnin in Hget.
    rewrite (grown_bucket_of _ Hne) in Hget. discriminate.
Qed.

Lemma NoDup_map_Some {A} (l : list A) : List.NoDup l -> List.NoDup (map Some l).
Proof.
  induction 1 as [|x l Hx _ IH]; simpl; constructor; [|exact IH].
  rewrite in_map_iff. intros (y & [= ->] & Hy). exact (Hx Hy).
Qed.

Lemma list_sum_perm (l1 l2 : list nat) : Permutation l1 l2 -> list_sum l1 = list_sum l2.
Proof.
  induction 1 as [|x l1 l2 _ IH|x y l|l1 l2 l3 _ IH1 _ IH2]; simpl; lia.
Qed.

Lemma count_total_app acc1 acc2 :
  count_total (acc1 ++ acc2)%list = (count_total acc1 + count_total acc2)%nat.
Proof. unfold count_total. rewrite map_app, list_sum_app. reflexivity. Qed.

Lemma count_total_alter r k acc b :
  Obj.get k acc = Some b ->
  count_total (Obj.alter (add_row r) k acc) = S (count_total acc).
Proof.
  unfold count_total. revert b. induction acc as [|[k' b'] acc IH]; intros b; simpl; [discriminate|].
  destruct (String.eqb k k'); simpl.
  - intros _. reflexivity.
  - intros Hget. rewrite (IH _ Hget). lia.
Qed.

Lemma count_total_step acc r acc' :
  monthly_step acc r = Some acc' -> count_total acc' = S (count_total acc).
Proof.
  unfold monthly_step. destruct (monthKey r) as [key|]; [|discriminate].
  intros [= <-]. destruct (Obj.get key acc) as [b|] eqn:Hget.
  - apply (count_total_alter r key acc b Hget).
  - rewrite (count_total_alter r key _ empty_bucket) by apply get_set_eq.
    rewrite (set_new _ _ _ Hget), count_total_app. unfold count_total. simpl. lia.
Qed.

Lemma count_total_loop rows : forall acc res,
  monthly_loop acc rows = Some res ->
  count_total res = (count_total acc + length rows)%nat.
Proof.
  induction rows as [|r rows IH]; intros acc res; simpl.
  - intros [= <-]. lia.
  - destruct (monthly_step acc r) as [acc'|] eqn:Hstep; [|discriminate].
    intros Hloop. rewrite (IH _ _ Hloop), (count_total_step _ _ _ Hstep). lia.
Qed.

Lemma monthlySorted_perm localeCompare rows sorted :
  monthlySorted localeCompare rows = Some sorted ->
  exists res, monthly_loop [] rows = Some res /\ Permutation sorted res.
Proof.
  unfold monthlySorted. destruct (monthly_loop [] rows) as [res|]; [|discriminate].
  intros [= <-]. exists res. split; [reflexivity|].
  rewrite Array_sort_perm. apply entries_perm.
Qed.

End MonthlyMore.

(** X8.  [monthlyData] throws exactly when a record has no MONTH; so it
    never throws on a filtered view of the loaded data.  The chart it
    returns has one label, one retail sum and one warehouse sum per
    distinct key of the records. *)
Theorem monthlyData_defined
    (localeCompare : string -> string -> Z) (rows : list row) :
  (monthlyData (num := float) localeCompare rows = None
   <-> exists r, In r rows /\ r !! "MONTH" = None)
  /\ (forall results sel,
        is_Some (monthlyData (num := float) localeCompare
                             (filteredData (cleanData results) sel)))
  /\ (forall chart, monthlyData (num := float) localeCompare rows = Some chart ->
        let keys := new_Set (map monthKey rows) in
        length (Chart.labels chart) = length keys
        /\ length (Chart.retail chart) = length keys
        /\ length (Chart.warehouse chart) = length keys).
Proof.
  assert (Hnone : forall rows',
             monthlyData (num := float) localeCompare rows' = None
             <-> exists r, In r rows' /\ r !! "MONTH" = None).
  { intros rows'. rewrite <- (monthly_loop_None rows' []).
    unfold monthlyData, monthlySorted.
    destruct (monthly_loop [] rows'); split; congruence. }
  split; [apply Hnone|]. split.
  - intros results sel.
    destruct (monthlyData localeCompare (filteredData (cleanData results) sel)) eqn:E;
      [eexists; reflexivity|].
    apply Hnone in E. destruct E as (r & Hin & Hm). exfalso.
    pose proof (filtered_valid results sel) as Hv.
    rewrite List.Forall_forall in Hv. specialize (Hv r Hin).
    apply valid_row_spec in Hv. destruct Hv as (_ & (m & Hm' & _) & _). congruence.
  - intros chart Hchart keys. unfold monthlyData in Hchart.
    destruct (monthlySorted localeCompare rows) as [sorted|] eqn:Hsorted; [|discriminate].
    injection Hchart as <-. simpl. rewrite !length_map.
    destruct (monthlySorted_perm _ _ _ Hsorted) as (res & Hloop & Hperm).
    destruct (monthly_keys rows res Hloop) as [Hnd Hkeys].
    assert (Hlen : length sorted = length keys).
    { rewrite (Permutation_length Hperm), <- (length_map fst res), <- (length_map Some).
      apply Permutation_length, Stdlib.Sorting.Permutation.NoDup_Permutation.
      - apply NoDup_map_Some, Hnd.
      - apply new_Set_NoDup.
      - intros k. unfold keys. rewrite new_Set_In, !in_map_iff. split.
        + intros (k' & <- & Hk'). apply Hkeys in Hk'. destruct Hk' as (r & Hr & Hk).
          exists r. auto.
        + intros (r & Hk & Hr).
          destruct k as [k|].
          * exists k. split; [reflexivity|]. apply Hkeys. exists r. auto.
          * exfalso. assert (Hn : monthly_loop (num := float) [] rows = None).
            { apply monthly_loop_None. exists r. split; [exact Hr | apply monthKey_None, Hk]. }
            congruence. }
    auto.
Qed.

(** X9.  The buckets of the monthly aggregation count every record once:
    their counts add up to the number of records. *)
Theorem monthly_counts_all
    (localeCompare : string -> string -> Z) (rows : list row)
    (sorted : list (string * bucket float)) :
  monthlySorted localeCompare rows = Some sorted ->
  count_total sorted = length rows.
Proof.
  intros Hsorted.
  destruct (monthlySorted_perm _ _ _ Hsorted) as (res & Hloop & Hperm).
  unfold count_total.
  rewrite (list_sum_perm _ (map (fun e => count (snd e)) res))
    by (apply Permutation_map, Hperm).
  apply (count_total_loop rows [] res Hloop).
Qed.

Lemma monthly_counts_all_witness :
  count_total [("2019-12", Bucket 0.5%float 0%float 1%nat);
               ("2020-01", Bucket 30%float 5%float 2%nat)]
  = length rows_calendar.
Proof.
  apply (monthly_counts_all lexCompare rows_calendar). vm_compute. reflexivity.
Defined.

Section ExactMonthly.
Context {num : Type} `{Number num}.
Hypothesis add_assoc : forall x y z : num,
  num_add x (num_add y z) = num_add (num_add x y) z.
Hypothesis add_comm : forall x y : num, num_add x y = num_add y x.
Hypothesis add_zero : forall x : num, num_add num_zero x = x.
Implicit Types (acc : list (string * bucket num)) (rows : list row).

Lemma add_zero_r (x : num) : num_add x num_zero = x.
Proof. rewrite add_comm. apply add_zero. Qed.

Lemma series_alter (g : bucket num -> num) (f : bucket num -> bucket num) (x : num) k acc b :
  (forall b', g (f b') = num_add (g b') x) ->
  Obj.get k acc = Some b ->
  sumr (map (fun e => g (snd e)) (Obj.alter f k acc))
  = num_add (sumr (map (fun e => g (snd e)) acc)) x.
Proof.
  intros Hg. revert b. induction acc as [|[k' b'] acc IH]; intros b; simpl; [discriminate|].
  destruct (String.eqb k k'); simpl.
  - intros _. rewrite Hg, <- !add_assoc, (add_comm x). reflexivity.
  - intros Hget. rewrite (IH _ Hget), add_assoc. reflexivity.
Qed.

Lemma series_step (g : bucket num -> num) (x : row -> num) acc r acc' :
  g empty_bucket = num_zero ->
  (forall b, g (add_row r b) = num_add (g b) (x r)) ->
  monthly_step acc r = Some acc' ->
  sumr (map (fun e => g (snd e)) acc')
  = num_add (sumr (map (fun e => g (snd e)) acc)) (x r).
Proof.
  intros Hempty Hg. unfold monthly_step.
  destruct (monthKey r) as [key|]; [|discriminate]. intros [= <-].
  destruct (Obj.get key acc) as [b|] eqn:Hget.
  - apply (series_alter g _ (x r) key acc b Hg Hget).
  - rewrite (series_alter g _ (x r) key _ empty_bucket Hg) by apply get_set_eq.
    rewrite (set_new _ _ _ Hget), map_app, (sumr_app add_assoc add_zero). simpl.
    rewrite Hempty, add_zero, add_zero_r. reflexivity.
Qed.

Lemma series_loop (g : bucket num -> num) (x : row -> num) rows : forall acc res,
  g empty_bucket = num_zero ->
  (forall r b, g (add_row r b) = num_add (g b) (x r)) ->
  monthly_loop acc rows = Some res ->
  sumr (map (fun e => g (snd e)) res)
  = num_add (sumr (map (fun e => g (snd e)) acc)) (sumr (map x rows)).
Proof.
  induction rows as [|r rows IH]; intros acc res Hempty Hg; simpl.
  - intros [= <-]. rewrite add_zero_r. reflexivity.
  - destruct (monthly_step acc r) as [acc'|] eqn:Hstep; [|discriminate].
    intros Hloop. rewrite (IH _ _ Hempty Hg Hloop).
    rewrite (series_step g x _ _ _ Hempty (Hg r) Hstep), add_assoc. reflexivity.
Qed.

Lemma stats_totals rows (a b : num) :
  fold_left stats_step rows (a, b)
  = (fold_left num_add (map retailSales rows) a,
     fold_left num_add (map warehouseSales rows) b).
Proof.
  revert a b. induction rows as [|r rows IH]; intros a b; simpl; [reflexivity|].
  unfold stats_step at 2. simpl. apply IH.
Qed.

Lemma monthly_series_total localeCompare rows chart :
  monthlyData localeCompare rows = Some chart ->
  sum (Chart.retail chart) = totalRetail (stats rows)
  /\ sum (Chart.warehouse chart) = totalWarehouse (stats rows).
Proof.
  unfold monthlyData.
  destruct (monthlySorted localeCompare rows) as [sorted|] eqn:Hsorted; [|discriminate].
  intros [= <-]. simpl.
  destruct (monthlySorted_perm _ _ _ Hsorted) as (res & Hloop & Hperm).
  unfold stats. rewrite stats_totals. simpl.
  rewrite !(sum_sumr add_assoc add_comm add_zero).
  rewrite !(fold_left_add add_assoc add_comm add_zero), !add_zero.
  split.
  - rewrite (sumr_perm add_assoc add_comm _ (map (fun e => retail (snd e)) res))
      by (apply Permutation_map, Hperm).
    pose proof (series_loop retail retailSales rows [] res eq_refl
                  (fun r b => eq_refl) Hloop) as Hsum.
    simpl in Hsum. rewrite add_zero in Hsum. exact Hsum.
  - rewrite (sumr_perm add_assoc add_comm _ (map (fun e => warehouse (snd e)) res))
      by (apply Permutation_map, Hperm).
    pose proof (series_loop warehouse warehouseSales rows [] res eq_refl
                  (fun r b => eq_refl) Hloop) as Hsum.
    simpl in Hsum. rewrite add_zero in Hsum. exact Hsum.
Qed.

End ExactMonthly.

Section WholeMonthly.
Implicit Types (rows : list row) (r : row) (acc : list (string * bucket Z)).

Lemma series_nonneg acc : nonneg_b acc -> 0 <= series acc.
Proof.
  induction 1 as [|[k b] acc Hb _ IH]; simpl in *; lia.
Qed.

Lemma bucket_bound acc k b :
  nonneg_b acc -> Obj.get k acc = Some b ->
  0 <= retail b /\ 0 <= warehouse b /\ retail b + warehouse b <= series acc.
Proof.
  induction 1 as [|[k' b'] acc Hb Hacc IH]; simpl; [discriminate|].
  pose proof (series_nonneg acc Hacc). simpl in Hb.
  destruct (String.eqb k k').
  - intros [= <-]. lia.
  - intros Hget. specialize (IH Hget). lia.
Qed.

Lemma add_row_whole r (b : bucket Z) :
  @add_row Z whole_number r b
  = Bucket (retail b + amount (retailSales r)) (warehouse b + amount (warehouseSales r))
           (S (count b)).
Proof. reflexivity. Qed.

Lemma add_row_lift r (b : bucket Z) :
  whole_row r -> 0 <= retail b -> 0 <= warehouse b ->
  retail b + amount (retailSales r) < 2 ^ 53 ->
  warehouse b + amount (warehouseSales r) < 2 ^ 53 ->
  add_row r (lift_bucket b) = lift_bucket (@add_row Z whole_number r b).
Proof.
  intros [Hr Hw] Hb1 Hb2 Hlt1 Hlt2.
  destruct (whole_amount _ Hr) as [Er Br]. destruct (whole_amount _ Hw) as [Ew Bw].
  rewrite add_row_whole. unfold add_row, lift_bucket. simpl.
  rewrite Er at 1. rewrite Ew at 1. rewrite !Z2F_add by lia. reflexivity.
Qed.

Lemma series_set k acc :
  Obj.get k acc = None ->
  series (Obj.set k (@empty_bucket Z whole_number) acc) = series acc
  /\ (nonneg_b acc -> nonneg_b (Obj.set k (@empty_bucket Z whole_number) acc)).
Proof.
  induction acc as [|[k' b'] acc IH]; simpl.
  - intros _. split; [reflexivity|]. intros _. constructor; [simpl; lia | constructor].
  - destruct (String.eqb k k'); [discriminate|]. intros Hget.
    destruct (IH Hget) as [Hs Hn]. simpl. rewrite Hs. split; [reflexivity|].
    intros Hnn. apply Forall_cons in Hnn as [Hb Hnn].
    constructor; [exact Hb | apply Hn, Hnn].
Qed.

Lemma series_alter_row r k acc b :
  Obj.get k acc = Some b ->
  series (Obj.alter (@add_row Z whole_number r) k acc)
  = series acc + (amount (retailSales r) + amount (warehouseSales r))
  /\ (nonneg_b acc -> nonneg_b (Obj.alter (@add_row Z whole_number r) k acc)).
Proof.
  pose proof (amount_nonneg (retailSales r)) as Hr0.
  pose proof (amount_nonneg (warehouseSales r)) as Hw0.
  revert b. induction acc as [|[k' b'] acc IH]; intros b; cbn [Obj.alter Obj.get];
    [discriminate|].
  destruct (String.eqb k k').
  - intros _. cbn [series fold_right snd]. rewrite add_row_whole.
    cbn [retail warehouse]. split; [lia|].
    intros Hnn. apply Forall_cons in Hnn as [Hb Hnn]. simpl in Hb.
    constructor; [cbn [snd retail warehouse]; lia | exact Hnn].
  - intros Hget. destruct (IH _ Hget) as [Hs Hn]. cbn [series fold_right snd].
    fold (series (Obj.alter (@add_row Z whole_number r) k acc)). rewrite Hs.
    fold (series acc). split; [lia|].
    intros Hnn. apply Forall_cons in Hnn as [Hb Hnn].
    constructor; [exact Hb | apply Hn, Hnn].
Qed.

Lemma monthly_step_lift acc r :
  whole_row r -> nonneg_b acc ->
  series acc + (amount (retailSales r) + amount (warehouseSales r)) < 2 ^ 53 ->
  monthly_step (lift lift_bucket acc) r
  = lift lift_bucket <$> @monthly_step Z whole_number acc r
  /\ (forall acc', @monthly_step Z whole_number acc r = Some acc' ->
        nonneg_b acc'
        /\ series acc' = series acc + (amount (retailSales r) + amount (warehouseSales r))).
Proof.
  intros Hr Hacc Hlt.
  pose proof (series_nonneg acc Hacc) as Hs0.
  pose proof (amount_nonneg (retailSales r)) as Hr0.
  pose proof (amount_nonneg (warehouseSales r)) as Hw0.
  unfold monthly_step. destruct (monthKey r) as [key|]; [|split; [reflexivity | discriminate]].
  rewrite get_lift.
  destruct (Obj.get key acc) as [b|] eqn:Hget; simpl.
  - destruct (bucket_bound acc key b Hacc Hget) as (Hb1 & Hb2 & Hb3).
    split.
    + f_equal. apply alter_lift. intros b'. rewrite Hget. intros [= <-].
      apply add_row_lift; try assumption; lia.
    + intros acc' [= <-]. destruct (series_alter_row r key acc b Hget) as [Hs Hn].
      split; [apply Hn, Hacc | exact Hs].
  - destruct (series_set key acc Hget) as [Hs Hn].
    split.
    + f_equal. change (@empty_bucket float _) with (lift_bucket (@empty_bucket Z whole_number)).
      rewrite set_lift. apply alter_lift. intros b'. rewrite get_set_eq. intros [= <-].
      apply add_row_lift; try assumption; unfold empty_bucket; cbn [retail warehouse];
        change (@num_zero Z whole_number) with 0; lia.
    + intros acc' [= <-].
      destruct (series_alter_row r key (Obj.set key (@empty_bucket Z whole_number) acc)
                  (@empty_bucket Z whole_number) (get_set_eq _ _ _)) as [Hs' Hn'].
      split; [apply Hn', Hn, Hacc | rewrite Hs', Hs; reflexivity].
Qed.

Lemma monthly_loop_lift rows : forall acc,
  Forall whole_row rows -> nonneg_b acc ->
  series acc + whole_total rows < 2 ^ 53 ->
  monthly_loop (lift lift_bucket acc) rows
  = lift lift_bucket <$> @monthly_loop Z whole_number acc rows
  /\ (forall res, @monthly_loop Z whole_number acc rows = Some res -> nonneg_b res).
Proof.
  induction rows as [|r rows IH]; intros acc Hrows Hacc Hlt.
  - simpl. split; [reflexivity|]. intros res [= <-]. exact Hacc.
  - apply Forall_cons in Hrows as [Hr Hrows].
    cbn [whole_total fold_right] in Hlt. fold (whole_total rows) in Hlt.
    pose proof (whole_total_nonneg rows) as Hrest.
    destruct (monthly_step_lift acc r Hr Hacc) as [Hstep Hinv]; [lia|].
    cbn [monthly_loop]. rewrite Hstep.
    destruct (@monthly_step Z whole_number acc r) as [acc'|]; simpl;
      [|split; [reflexivity | discriminate]].
    destruct (Hinv acc' eq_refl) as [Hnn Hs].
    apply IH; [exact Hrows | exact Hnn | lia].
Qed.

Lemma monthlyData_lift localeCompare rows :
  Forall whole_row rows -> whole_total rows < 2 ^ 53 ->
  match @monthlyData Z whole_number localeCompare rows with
  | Some chartZ =>
      monthlyData localeCompare rows
      = Some (Chart.Make (Chart.labels chartZ) (map Z2F (Chart.retail chartZ))
                         (map Z2F (Chart.warehouse chartZ)))
      /\ Forall (fun x => 0 <= x) (Chart.retail chartZ)
      /\ Forall (fun x => 0 <= x) (Chart.warehouse chartZ)
  | None => monthlyData (num := float) localeCompare rows = None
  end.
Proof.
  intros Hrows Hlt.
  destruct (monthly_loop_lift rows [] Hrows) as [Hloop Hnn]; [constructor | simpl; lia |].
  unfold monthlyData, monthlySorted.
  change (@nil (string * bucket float)) with (lift lift_bucket []). rewrite Hloop.
  destruct (@monthly_loop Z whole_number [] rows) as [res|]; simpl; [|reflexivity].
  specialize (Hnn res eq_refl).
  rewrite entries_lift. unfold lift.
  rewrite (Array_sort_map (fun e => (fst e, lift_bucket (snd e)))
             (by_key (num := Z) localeCompare) (by_key (num := float) localeCompare))
    by reflexivity.
  set (sorted := Array_sort (by_key localeCompare) (Obj.entries res)).
  assert (Hperm : Permutation sorted res).
  { unfold sorted. rewrite Array_sort_perm. apply entries_perm. }
  assert (Hs : nonneg_b sorted).
  { unfold nonneg_b in *. rewrite List.Forall_forall in *. intros e He.
    apply Hnn. apply (Permutation_in _ Hperm), He. }
  split; [rewrite !map_map; reflexivity|].
  unfold nonneg_b in Hs. rewrite List.Forall_forall in Hs.
  split; apply List.Forall_forall; intros x Hx;
    apply in_map_iff in Hx as (e & <- & He); apply Hs, He.
Qed.

Lemma monthly_series_whole localeCompare rows (chart : Chart.t float) :
  Forall whole_row rows -> whole_total rows < 2 ^ 53 ->
  monthlyData localeCompare rows = Some chart ->
  sum (Chart.retail chart) = totalRetail (stats rows)
  /\ sum (Chart.warehouse chart) = totalWarehouse (stats rows).
Proof.
  intros Hrows Hlt Hchart.
  pose proof (monthlyData_lift localeCompare rows Hrows Hlt) as Hl.
  destruct (@monthlyData Z whole_number localeCompare rows) as [chartZ|] eqn:HZ;
    [|congruence].
  destruct Hl as (Hc & Hr & Hw). rewrite Hc in Hchart. injection Hchart as <-.
  destruct (stats_lift rows Hrows Hlt) as (tr & tw & Hs & HsZ & Htr & Htw & Hsum).
  destruct (@monthly_series_total Z whole_number
              (fun x y z => Z.add_assoc x y z) Z.add_comm Z.add_0_l
              localeCompare rows chartZ HZ) as [HsumR HsumW].
  rewrite HsZ in HsumR, HsumW. simpl in HsumR, HsumW.
  rewrite Hs. simpl.
  rewrite !sum_Z2F by (try assumption; lia).
  rewrite HsumR, HsumW. split; reflexivity.
Qed.

End WholeMonthly.

(** X10.  For a record list whose sales fields the program reads as whole
    amounts not below zero, with a total below [2^53], the retail sums of
    the monthly chart add up to the retail total of the summary, and the
    warehouse sums to the warehouse total, in binary64 as the program
    computes them: both reducers add the same sales, grouped differently,
    and no sum is rounded. *)
Theorem monthly_series_exact
    (localeCompare : string -> string -> Z) (rows : list row) (chart : Chart.t float) :
  Forall whole_row rows ->
  whole_total rows < 2 ^ 53 ->
  monthlyData localeCompare rows = Some chart ->
  sum (Chart.retail chart) = totalRetail (stats rows)
  /\ sum (Chart.warehouse chart) = totalWarehouse (stats rows).
Proof.
  intros Hrows Hlt Hchart.
  exact (monthly_series_whole localeCompare rows chart Hrows Hlt Hchart).
Qed.

Lemma monthly_series_exact_witness :
  sum [JSNumber.parseFloat "12"; JSNumber.parseFloat "30"]
  = totalRetail (stats rows_months)
  /\ sum [JSNumber.parseFloat "0"; JSNumber.parseFloat "5"]
     = totalWarehouse (stats rows_months).
Proof.
  apply (monthly_series_exact lexCompare rows_months
           (Chart.Make ["Dec 2019"; "Jan 2020"]
              [JSNumber.parseFloat "12"; JSNumber.parseFloat "30"]
              [JSNumber.parseFloat "0"; JSNumber.parseFloat "5"])).
  - repeat constructor; eexists; vm_compute; reflexivity.
  - vm_compute. reflexivity.
  - vm_compute. reflexivity.
Defined.

Section TypeMore.
Context {num : Type} `{Number num}.
Implicit Types (acc : list (string * num)) (rows : list row).

Lemma Set_has_get acc t : Set_has (map fst acc) t = false <-> Obj.get t acc = None.
Proof.
  rewrite get_None_iff, <- Set_has_In. destruct (Set_has (map fst acc) t); split; congruence.
Qed.

Lemma keys_type_step acc r :
  map fst (type_step acc r) = Set_add (map fst acc) (type_of r).
Proof.
  unfold type_step, Set_add. fold (type_of r). rewrite fst_alter.
  destruct (Obj.get (type_of r) acc) as [v|] eqn:Hget.
  - assert (Hhas : Set_has (map fst acc) (type_of r) = true).
    { destruct (Set_has (map fst acc) (type_of r)) eqn:E; [reflexivity|].
      apply Set_has_get in E. congruence. }
    rewrite Hhas. destruct (num_falsy v); [|reflexivity].
    rewrite fst_set, Hget. reflexivity.
  - rewrite (proj2 (Set_has_get acc (type_of r)) Hget), fst_set, Hget. reflexivity.
Qed.

Lemma keys_type_loop rows : forall acc,
  map fst (fold_left type_step rows acc)
  = fold_left Set_add (map type_of rows) (map fst acc).
Proof.
  induction rows as [|r rows IH]; intros acc; simpl; [reflexivity|].
  rewrite IH, keys_type_step. reflexivity.
Qed.

Lemma keys_typeAggregated rows :
  map fst (typeAggregated rows) = new_Set (map type_of rows).
Proof. apply (keys_type_loop rows []). Qed.

Lemma filter_none {A} (f : A -> bool) (l : list A) :
  Forall (fun x => f x = false) l -> List.filter f l = [].
Proof.
  induction 1 as [|x l Hx _ IH]; simpl; [reflexivity|]. rewrite Hx. exact IH.
Qed.

Lemma entries_plain {V} (o : list (string * V)) :
  Forall (fun e => Obj.is_array_index (fst e) = false) o -> Obj.entries o = o.
Proof.
  intros Hplain. unfold Obj.entries.
  rewrite (filter_none _ _ Hplain). simpl.
  apply filter_all. eapply Forall_impl; [exact Hplain|].
  intros e ->. reflexivity.
Qed.

Lemma combine_fst_snd {A B} (l : list (A * B)) : combine (map fst l) (map snd l) = l.
Proof.
  induction l as [|[a b] l IH]; simpl; [reflexivity | rewrite IH; reflexivity].
Qed.

Lemma valid_type_of r : valid_row r = true -> In (type_of r) ITEM_TYPES.
Proof.
  intros Hv. apply valid_row_spec in Hv. destruct Hv as (_ & _ & _ & Hrec).
  unfold type_of.
  destruct Hrec as [->|[->|[->|[->| ->]]]]; simpl; auto 6.
Qed.

Lemma item_type_plain t : In t ITEM_TYPES -> Obj.is_array_index t = false.
Proof.
  intros [<-|[<-|[<-|[<-|[<-|[]]]]]]; reflexivity.
Qed.

Lemma typeAggregated_loaded results sel :
  let rows := filteredData (cleanData results) sel in
  incl (map fst (typeAggregated rows)) ITEM_TYPES
  /\ Obj.entries (typeAggregated rows) = typeAggregated rows.
Proof.
  intros rows.
  assert (Hincl : incl (map fst (typeAggregated rows)) ITEM_TYPES).
  { intros t Ht. rewrite keys_typeAggregated, new_Set_In, in_map_iff in Ht.
    destruct Ht as (r & <- & Hr). apply valid_type_of.
    pose proof (filtered_valid results sel) as Hv.
    rewrite List.Forall_forall in Hv. apply Hv, Hr. }
  split; [exact Hincl|].
  apply entries_plain, List.Forall_forall. intros e He.
  apply item_type_plain, Hincl, in_map, He.
Qed.

Lemma type_step_get acc r t :
  Obj.get t (type_step acc r)
  = if String.eqb (type_of r) t
    then Some (add_sales (default num_zero (Obj.get t acc)) r)
    else Obj.get t acc.
Proof.
  unfold type_step, add_sales. fold (type_of r).
  destruct (String.eqb_spec (type_of r) t) as [<-|Hne].
  - rewrite get_alter_eq.
    destruct (Obj.get (type_of r) acc) as [v|] eqn:Hget; simpl.
    + destruct (num_falsy v) eqn:Hf.
      * rewrite get_set_eq. reflexivity.
      * rewrite Hget. reflexivity.
    + rewrite get_set_eq. simpl. destruct (num_falsy num_zero); reflexivity.
  - rewrite get_alter_ne by exact Hne.
    destruct (Obj.get (type_of r) acc) as [v|]; [destruct (num_falsy v)|];
      try reflexivity; apply get_set_ne; exact Hne.
Qed.

Lemma type_loop_get rows : forall acc t,
  Obj.get t (fold_left type_step rows acc)
  = type_grown (Obj.get t acc) (rows_of_type t rows).
Proof.
  induction rows as [|r rows IH]; intros acc t; simpl; [reflexivity|].
  rewrite IH, type_step_get. unfold rows_of_type. simpl.
  destruct (String.eqb_spec (type_of r) t) as [Heq|Hne].
  - rewrite bool_decide_eq_true_2 by exact Heq. simpl.
    destruct (List.filter _ rows); reflexivity.
  - rewrite bool_decide_eq_false_2 by exact Hne. reflexivity.
Qed.

Lemma category_values results sel t v :
  let rows := filteredData (cleanData results) sel in
  In (t, v) (combine (fst (typeData rows)) (snd (typeData rows))) ->
  rows_of_type t rows <> [] /\ v = category_sum (rows_of_type t rows).
Proof.
  intros rows. unfold typeData, Obj.keys, Obj.values. simpl.
  rewrite combine_fst_snd.
  destruct (typeAggregated_loaded results sel) as [_ Hplain]. fold rows in Hplain.
  rewrite Hplain. intros Hin.
  apply get_In in Hin.
  2:{ rewrite keys_typeAggregated. apply new_Set_NoDup. }
  unfold typeAggregated in Hin. rewrite type_loop_get in Hin. simpl in Hin.
  destruct (rows_of_type t rows) as [|r rs] eqn:E; [discriminate|].
  split; [discriminate|]. injection Hin as <-. reflexivity.
Qed.

End TypeMore.

(** X11.  On a filtered view of the loaded data the labels of the category
    chart are the item types of the records, each once, in the order in
    which they first occur; they are among the five item types, so there
    are at most five, one per colour of the chart, with one value each. *)
Theorem typeData_labels (results : list row) (sel : selection) :
  let rows := filteredData (cleanData results) sel in
  fst (typeData (num := float) rows) = new_Set (map type_of rows)
  /\ List.NoDup (fst (typeData (num := float) rows))
  /\ incl (fst (typeData (num := float) rows)) ITEM_TYPES
  /\ (length (fst (typeData (num := float) rows)) <= 5)%nat
  /\ length (snd (typeData (num := float) rows))
     = length (fst (typeData (num := float) rows)).
Proof.
  intros rows.
  destruct (typeAggregated_loaded (num := float) results sel) as [Hincl Hplain].
  fold rows in Hincl, Hplain.
  assert (Hkeys : fst (typeData (num := float) rows) = new_Set (map type_of rows)).
  { unfold typeData, Obj.keys. simpl. rewrite Hplain. apply keys_typeAggregated. }
  assert (Hnd : List.NoDup (fst (typeData (num := float) rows))).
  { rewrite Hkeys. apply new_Set_NoDup. }
  assert (Hsub : incl (fst (typeData (num := float) rows)) ITEM_TYPES).
  { unfold typeData, Obj.keys. simpl. rewrite Hplain. exact Hincl. }
  split; [exact Hkeys|]. split; [exact Hnd|]. split; [exact Hsub|]. split.
  - apply (NoDup_incl_length Hnd Hsub).
  - unfold typeData, Obj.keys, Obj.values. simpl. rewrite !length_map. reflexivity.
Qed.

Lemma add_sales_whole a r :
  whole_row r -> 0 <= a ->
  a + (amount (retailSales r) + amount (warehouseSales r)) < 2 ^ 53 ->
  add_sales (Z2F a) r = Z2F (a + (amount (retailSales r) + amount (warehouseSales r))).
Proof.
  intros Hr Ha Hlt.
  pose proof (amount_nonneg (retailSales r)) as Hr0.
  pose proof (amount_nonneg (warehouseSales r)) as Hw0.
  unfold add_sales.
  change (@num_add float float_number) with PrimFloat.add.
  change (@num_falsy float float_number) with JSNumber.falsy.
  rewrite (sales_sum r Hr) by lia. rewrite falsy_Z2F by lia.
  destruct (Z.eqb_spec a 0) as [->|Hne].
  - change (@num_zero float _) with (Z2F 0). apply Z2F_add; lia.
  - apply Z2F_add; lia.
Qed.

Lemma category_sum_rows rows : forall a,
  Forall whole_row rows -> 0 <= a -> a + whole_total rows < 2 ^ 53 ->
  fold_left add_sales rows (Z2F a) = Z2F (a + whole_total rows).
Proof.
  induction rows as [|r rows IH]; intros a Hrows Ha Hlt.
  - simpl. rewrite Z.add_0_r. reflexivity.
  - apply Forall_cons in Hrows as [Hr Hrows].
    cbn [whole_total fold_right] in *. fold (whole_total rows) in *.
    pose proof (whole_total_nonneg rows) as Hrest.
    pose proof (amount_nonneg (retailSales r)) as Hr0.
    pose proof (amount_nonneg (warehouseSales r)) as Hw0.
    cbn [fold_left]. rewrite add_sales_whole by (try assumption; lia).
    rewrite IH by (try assumption; lia). f_equal. lia.
Qed.

(** X12.  Each value of the category chart of a filtered view of the
    loaded data is the retail plus warehouse sales of the records of its
    type, added in the order of the records to a running total that starts
    at [0] and starts again from [0] whenever it is [0] or [NaN]; and every
    label has at least one record.  When the sales of those records are
    whole amounts not below zero with a total below [2^53], the value is
    their exact total. *)
Theorem typeData_values
    (results : list row) (sel : selection) (t : string) (v : float) :
  let rows := filteredData (cleanData results) sel in
  In (t, v) (combine (fst (typeData rows)) (snd (typeData rows))) ->
  rows_of_type t rows <> []
  /\ v = category_sum (rows_of_type t rows)
  /\ (Forall whole_row (rows_of_type t rows) ->
      whole_total (rows_of_type t rows) < 2 ^ 53 ->
      v = Z2F (whole_total (rows_of_type t rows))).
Proof.
  intros rows Hin.
  destruct (category_values results sel t v Hin) as [Hne Hv].
  split; [exact Hne|]. split; [exact Hv|].
  intros Hrows Hlt. rewrite Hv. unfold category_sum.
  change (@num_zero float _) with (Z2F 0).
  rewrite category_sum_rows by (try assumption; lia). reflexivity.
Qed.

Lemma typeData_values_witness :
  let rows := filteredData (cleanData rows_calendar) all_facets in
  rows_of_type "BEER" rows <> []
  /\ Z2F 15 = category_sum (rows_of_type "BEER" rows)
  /\ (Forall whole_row (rows_of_type "BEER" rows) ->
      whole_total (rows_of_type "BEER" rows) < 2 ^ 53 ->
      Z2F 15 = Z2F (whole_total (rows_of_type "BEER" rows))).
Proof.
  apply (typeData_values rows_calendar all_facets "BEER" (Z2F 15)).
  vm_compute. left. reflexivity.
Defined.

(** ** Sales fields with other text after the digits *)

Section NumericPrefix.

Lemma span_digits_stop s c rest acc n :
  Str.all Str.is_digit s = true -> Str.is_digit c = false ->
  Str.span_digits (s ++ String c rest) acc n
  = (decimal s acc, (n + String.length s)%nat, String c rest).
Proof.
  intros Hs Hc. revert acc n Hs. induction s as [|d s IH]; intros acc n Hs.
  - change ("" ++ String c rest) with (String c rest). simpl.
    rewrite Hc, Nat.add_0_r. reflexivity.
  - rewrite app_cons. simpl in Hs. apply andb_true_iff in Hs. destruct Hs as [Hd Hs].
    cbn [Str.span_digits String.length decimal].
    rewrite Hd, (IH _ _ Hs), Nat.add_succ_r. reflexivity.
Qed.

Lemma digit_first_char d tail :
  Str.is_digit d = true ->
  JSNumber.read_sign (Str.trim_start (String d tail)) = (false, String d tail)
  /\ Str.strip_prefix "Infinity" (String d tail) = None.
Proof.
  intros Hd. simpl Str.trim_start. rewrite (digit_not_space _ Hd). split.
  - unfold JSNumber.read_sign.
    destruct (Ascii.eqb_spec d "-") as [->|]; [discriminate|].
    destruct (Ascii.eqb_spec d "+") as [->|]; [discriminate|].
    destruct d as [[] [] [] [] [] [] [] []]; try reflexivity; congruence.
  - cbn [Str.strip_prefix].
    destruct (Ascii.eqb_spec "I" d) as [<-|]; [discriminate | reflexivity].
Qed.

Lemma read_literal_numeral s :
  numeral s -> JSNumber.read_literal s = JSNumber.LitDecimal false (numeral_value s) 0.
Proof.
  intros [Hne Hs]. destruct s as [|d s]; [congruence|].
  pose proof Hs as Hall. simpl in Hs. apply andb_true_iff in Hs. destruct Hs as [Hd _].
  unfold JSNumber.read_literal.
  destruct (digit_first_char d s Hd) as [-> ->].
  rewrite (span_digits_all _ _ _ Hall). reflexivity.
Qed.

Lemma read_literal_prefix s c rest :
  numeral s -> Str.is_digit c = false -> c <> "."%char -> c <> "e"%char -> c <> "E"%char ->
  JSNumber.read_literal (s ++ String c rest)
  = JSNumber.LitDecimal false (numeral_value s) 0.
Proof.
  intros [Hne Hs] Hc Hdot He HE. destruct s as [|d s]; [congruence|].
  pose proof Hs as Hall. simpl in Hs. apply andb_true_iff in Hs. destruct Hs as [Hd _].
  unfold JSNumber.read_literal. rewrite app_cons.
  destruct (digit_first_char d (s ++ String c rest) Hd) as [-> ->].
  rewrite <- app_cons, (span_digits_stop _ _ _ _ _ Hall Hc).
  assert (Hexp : JSNumber.read_exponent (String c rest) = 0).
  { unfold JSNumber.read_exponent.
    destruct (Ascii.eqb_spec c "e"); [congruence|].
    destruct (Ascii.eqb_spec c "E"); [congruence|]. reflexivity. }
  rewrite Hexp.
  destruct c as [[] [] [] [] [] [] [] []]; try reflexivity; congruence.
Qed.

End NumericPrefix.

(** ** Sales fields written in digits *)

Section WholeFields.

Lemma decimal_nonneg s : forall acc,
  Str.all Str.is_digit s = true -> 0 <= acc -> 0 <= decimal s acc.
Proof.
  induction s as [|c s IH]; intros acc Hs Hacc; simpl in *; [exact Hacc|].
  apply andb_true_iff in Hs as [Hc Hs]. apply IH; [exact Hs|].
  unfold Str.is_digit in Hc. apply andb_true_iff in Hc as [Hlo _].
  apply N.leb_le in Hlo. unfold Str.digit_val. lia.
Qed.

(** A field written in digits, with a value below [2^53], is read as the
    whole amount it spells. *)
Lemma parseFloat_numeral s :
  numeral s -> numeral_value s < 2 ^ 53 ->
  JSNumber.parseFloat s = Z2F (numeral_value s)
  /\ whole (JSNumber.parseFloat s) = Some (numeral_value s).
Proof.
  intros Hs Hlt.
  assert (H0 : 0 <= numeral_value s) by (apply decimal_nonneg; [apply Hs | lia]).
  assert (Hp : JSNumber.parseFloat s = Z2F (numeral_value s)).
  { unfold JSNumber.parseFloat. rewrite (read_literal_numeral s Hs).
    unfold JSNumber.round_decimal.
    destruct (numeral_value s) as [|p|p]; [reflexivity | | lia].
    cbn [Z.leb Z.compare Z.pow Z.to_pos]. rewrite Pos.mul_1_r. reflexivity. }
  split; [exact Hp|]. rewrite Hp. apply whole_Z2F. lia.
Qed.

(** So a row whose two sales fields are missing, empty or written in digits
    is a row of whole amounts. *)
Lemma sales_digits (v : option string) :
  truthy v = false \/ (exists s, v = Some s /\ numeral s /\ numeral_value s < 2 ^ 53) ->
  is_Some (whole (sales v)).
Proof.
  intros [Hv|(s & -> & Hs & Hlt)]; unfold sales.
  - rewrite Hv. exists 0. vm_compute. reflexivity.
  - assert (Ht : truthy (Some s) = true).
    { destruct Hs as [Hne _]. destruct s; [congruence | reflexivity]. }
    rewrite Ht. simpl. exists (numeral_value s). apply parseFloat_numeral; assumption.
Qed.

End WholeFields.

(** X13.  A sales field whose text is a decimal numeral followed by other
    text (a character that is not a digit, a point or an exponent mark,
    then anything) contributes the numeral alone: ["1,234.50"] counts as
    1 and ["12 units"] as 12. *)
Theorem sales_numeric_prefix (s rest : string) (c : ascii) :
  numeral s ->
  Str.is_digit c = false -> c <> "."%char -> c <> "e"%char -> c <> "E"%char ->
  sales (num := float) (Some (s ++ String c rest)) = sales (Some s).
Proof.
  intros Hs Hc Hdot He HE. unfold sales.
  assert (Ht1 : truthy (Some (s ++ String c rest)) = true).
  { destruct s as [|d s]; [destruct Hs; congruence | reflexivity]. }
  assert (Ht2 : truthy (Some s) = true).
  { destruct s as [|d s]; [destruct Hs; congruence | reflexivity]. }
  rewrite Ht1, Ht2. simpl template. simpl. unfold JSNumber.parseFloat.
  rewrite (read_literal_prefix s c rest Hs Hc Hdot He HE), (read_literal_numeral s Hs).
  reflexivity.
Qed.

Lemma sales_numeric_prefix_witness :
  sales (num := float) (Some ("1" ++ String "," "234.50")) = sales (Some "1").
Proof.
  apply (sales_numeric_prefix "1" "234.50" ","); try discriminate; try reflexivity.
  split; [discriminate | reflexivity].
Defined.

(** ** Table preview *)

(** X14.  For a record whose YEAR holds no hyphen and whose MONTH is a
    numeral of 1 to 12, the month cell of the table is the abbreviation of
    that month, and the label of the record's bucket in the monthly chart
    is this same abbreviation followed by the year. *)
Theorem tableMonth_matches_label (r : row) (y m : string) :
  r !! "YEAR" = Some y -> r !! "MONTH" = Some m ->
  hyphen_free y -> numeral m -> 1 <= numeral_value m <= 12 ->
  tableMonth r = Some (abbreviation (numeral_value m))
  /\ exists key, monthKey r = Some key
       /\ label key = abbreviation (numeral_value m) ++ " " ++ y.
Proof.
  intros Hy Hm Hfree Hnum Hrange. split.
  - unfold tableMonth. rewrite Hm. simpl template.
    rewrite (parseInt_numeral _ Hnum). apply month_name_abbreviation, Hrange.
  - exists (period_key y m). split.
    + apply calendar_monthKey; assumption.
    + apply label_period; assumption.
Qed.

Lemma tableMonth_matches_label_witness :
  let r := mkrow [("YEAR", "2019"); ("MONTH", "12"); ("ITEM TYPE", "WINE")] in
  tableMonth r = Some (abbreviation (numeral_value "12"))
  /\ exists key, monthKey r = Some key
       /\ label key = abbreviation (numeral_value "12") ++ " " ++ "2019".
Proof.
  apply (tableMonth_matches_label
           (mkrow [("YEAR", "2019"); ("MONTH", "12"); ("ITEM TYPE", "WINE")])
           "2019" "12"); try reflexivity.
  - split; [discriminate | reflexivity].
  - vm_compute. split; discriminate.
Defined.

(** X15.  Rendering the type badge never throws on a filtered view of the
    loaded data, and its class is one of five: the item type in lower
    case after ["type-badge "]. *)
Theorem badge_loaded (results : list row) (sel : selection) :
  Forall (fun r => In (badge r)
                      [Some "type-badge beer"; Some "type-badge wine";
                       Some "type-badge liquor"; Some "type-badge kegs";
                       Some "type-badge non-alcohol"])
         (filteredData (cleanData results) sel).
Proof.
  pose proof (filtered_valid results sel) as Hv.
  eapply Forall_impl; [exact Hv|]. intros r Hr.
  apply valid_row_spec in Hr. destruct Hr as (_ & _ & _ & Hrec).
  unfold badge.
  destruct Hrec as [->|[->|[->|[->| ->]]]]; vm_compute; auto 6.
Qed.

(** X16.  The preview lists the first 100 records of the filtered list, or
    all of them when there are fewer, and the note under it appears exactly
    when the preview leaves records out. *)
Theorem table_preview (filtered : list row) :
  length (tableRows filtered) = Nat.min 100 (length filtered)
  /\ (exists rest, filtered = (tableRows filtered ++ rest)%list)
  /\ (tableNote filtered = true <-> tableRows filtered <> filtered).
Proof.
  unfold tableRows, tableNote. split; [apply length_firstn|]. split.
  - exists (skipn 100 filtered). symmetry. apply firstn_skipn.
  - rewrite Nat.ltb_lt. split.
    + intros Hlt Heq. apply (f_equal (@length row)) in Heq.
      rewrite length_firstn in Heq. lia.
    + intros Hne. destruct (Nat.le_gt_cases (length filtered) 100) as [Hle|Hgt]; [|exact Hgt].
      exfalso. apply Hne, firstn_all2, Hle.
Qed.

(** ** Vote tally: what the store keeps *)

Section StoreFacts.
Implicit Types (st : app) (db : store) (net : list bool) (uid k : string) (now : Z).

(** The store after the requests of a vote: untouched, with the record
    only, or with the record and the count. *)
Lemma cast_store uid k now db net :
  let db' := fst (snd (cast uid k now (db, net))) in
  db' = db
  \/ db' = Store (<[uid := VoteDoc k now]> (userVotes db)) (salesData db)
  \/ db' = voted uid k now db.
Proof.
  unfold cast, voted, await, setDoc_userVotes, getDoc_votes,
    setDoc_votes, setDoc_votes_increment, request.
  destruct db as [uv sd].
  destruct net as [|[] [|[] [|[] net]]]; simpl; destruct sd; simpl; auto.
Qed.

Lemma handleVote_store k now st db net :
  let db' := fst (snd (handleVote k now st (db, net))) in
  db' = db
  \/ exists uid, user st = Some uid
       /\ (db' = Store (<[uid := VoteDoc k now]> (userVotes db)) (salesData db)
           \/ db' = voted uid k now db).
Proof.
  unfold handleVote. destruct (user st) as [uid|]; [|left; reflexivity].
  destruct (truthy (userVote st)); [left; reflexivity|].
  pose proof (cast_store uid k now db net) as Hc.
  destruct (cast uid k now (db, net)) as [[[]|] [db' net']]; simpl in *;
    (destruct Hc as [->|Hc]; [left; reflexivity | right; exists uid; auto]).
Qed.

Lemma authStateChanged_store u st db net :
  fst (snd (authStateChanged u st (db, net))) = db.
Proof.
  unfold authStateChanged, getDoc_userVotes, request.
  destruct u as [uid|]; [|reflexivity].
  destruct net as [|[] net]; simpl; try reflexivity;
    destruct (userVotes db !! uid); reflexivity.
Qed.

Lemma tally_voted_ge uid k now db f : tally db f <= tally (voted uid k now db) f.
Proof.
  unfold tally, voted. simpl. destruct (salesData db) as [d|]; simpl.
  - destruct (decide (k = f)) as [->|Hne].
    + rewrite lookup_insert_eq. simpl. lia.
    + rewrite lookup_insert_ne by exact Hne. lia.
  - rewrite lookup_empty. simpl.
    destruct (decide (f = "support")) as [->|Hs].
    + rewrite lookup_insert_eq. simpl. destruct (String.eqb k "support"); lia.
    + rewrite lookup_insert_ne by congruence.
      destruct (decide (f = "against")) as [->|Ha].
      * rewrite lookup_singleton_eq. simpl. destruct (String.eqb k "against"); lia.
      * rewrite lookup_singleton_ne by congruence. simpl. lia.
Qed.

Lemma step_store_grows ev (s : app * env) :
  (forall uid, is_Some (userVotes (fst (snd s)) !! uid) ->
               is_Some (userVotes (fst (snd (step ev s))) !! uid))
  /\ (forall f, tally (fst (snd s)) f <= tally (fst (snd (step ev s))) f).
Proof.
  destruct s as [st [db net]]. destruct ev as [u|k now]; simpl.
  - rewrite authStateChanged_store. split; [auto | intros; lia].
  - destruct (handleVote_store k now st db net) as [->|(uid & _ & [->| ->])].
    + split; [auto | intros; lia].
    + split; [|intros; unfold tally; simpl; lia].
      intros uid' Hsome. simpl.
      destruct (decide (uid = uid')) as [->|Hne];
        [rewrite lookup_insert_eq; eauto | rewrite lookup_insert_ne by exact Hne; exact Hsome].
    + split; [|intros f; apply tally_voted_ge].
      intros uid' Hsome. unfold voted. simpl.
      destruct (decide (uid = uid')) as [->|Hne];
        [rewrite lookup_insert_eq; eauto | rewrite lookup_insert_ne by exact Hne; exact Hsome].
Qed.

Lemma counter_ok_voted uid k now db :
  counter_ok (salesData db) -> counter_ok (salesData (voted uid k now db)).
Proof.
  unfold voted. simpl. destruct (salesData db) as [d|]; simpl.
  - intros (s & a & Hs & Ha & Hs0 & Ha0).
    destruct (decide (k = "support")) as [->|Hks].
    + exists (s + 1), a. rewrite lookup_insert_eq, Hs, lookup_insert_ne by discriminate.
      simpl. repeat split; auto; lia.
    + destruct (decide (k = "against")) as [->|Hka].
      * exists s, (a + 1). rewrite lookup_insert_eq, Ha, lookup_insert_ne by discriminate.
        simpl. repeat split; auto; lia.
      * exists s, a. rewrite !lookup_insert_ne by congruence.
        repeat split; auto.
  - intros _.
    exists (if String.eqb k "support" then 1 else 0),
           (if String.eqb k "against" then 1 else 0).
    rewrite lookup_insert_eq, lookup_insert_ne by discriminate.
    rewrite lookup_singleton_eq.
    repeat split; auto; destruct (String.eqb k _); lia.
Qed.

Lemma step_counter_ok ev (s : app * env) :
  counter_ok (salesData (fst (snd s))) ->
  counter_ok (salesData (fst (snd (step ev s)))).
Proof.
  destruct s as [st [db net]]. destruct ev as [u|k now]; simpl.
  - rewrite authStateChanged_store. auto.
  - destruct (handleVote_store k now st db net) as [->|(uid & _ & [->| ->])]; auto.
    apply counter_ok_voted.
Qed.

End StoreFacts.

Section AsyncStore.
Import Async.
Implicit Types (w : world) (v : viewer) (t : task) (i : nat) (ok : bool).

(** What a task going on does to the store. *)
Lemma continue_db v t ok w :
  let w' := snd (continue v t ok w) in
  db w' = db w
  \/ (exists uid k now, t = SetRecord uid k now
        /\ db w' = Store (<[uid := VoteDoc k now]> (userVotes (db w))) (salesData (db w)))
  \/ (exists k, t = SetCounter k true
        /\ db w' = Store (userVotes (db w))
                     (Some (<[k := default 0 (default ∅ (salesData (db w)) !! k) + 1]>
                              (default ∅ (salesData (db w))))))
  \/ (exists k d, t = SetCounter k false
        /\ db w' = Store (userVotes (db w)) (Some d)).
Proof.
  destruct w as [[uv sd] ss p n].
  destruct t as [uid|[d|]|uid k now|k|k [|]|k]; destruct ok; cbn; eauto 10.
Qed.

Lemma continue_next v t ok w k :
  fst (continue v t ok w) = Some (SetCounter k false) ->
  t = GetCounter k /\ salesData (db w) = None.
Proof.
  destruct w as [[uv sd] ss p n].
  destruct t as [uid|[d|]|uid k' now|k'|k' [|]|k']; destruct ok; cbn; try discriminate.
  destruct sd; [discriminate|]. intros [= ->]. auto.
Qed.

Lemma tally_increment uv d k f :
  tally (Store uv (Some d)) f
  <= tally (Store uv (Some (<[k := default 0 (d !! k) + 1]> d))) f.
Proof.
  unfold tally. simpl. destruct (decide (k = f)) as [->|Hne].
  - rewrite lookup_insert_eq. simpl. lia.
  - rewrite lookup_insert_ne by exact Hne. lia.
Qed.

Lemma authStateChanged_db v u w : db (authStateChanged v u w) = db w.
Proof. unfold authStateChanged. destruct u; reflexivity. Qed.

Lemma handleVote_db v k now w : db (handleVote v k now w) = db w.
Proof.
  unfold handleVote. destruct (user _); [destruct (truthy _)|]; reflexivity.
Qed.

Lemma step_records ev w uid :
  is_Some (userVotes (db w) !! uid) -> is_Some (userVotes (db (step ev w)) !! uid).
Proof.
  intros Hsome. destruct ev as [v u|v k now|i ok]; cbn [step].
  - unfold authStateChanged. destruct u; exact Hsome.
  - unfold handleVote. destruct (user _); [destruct (truthy _)|]; exact Hsome.
  - destruct (pending w !! i) as [[v t]|]; [|exact Hsome].
    pose proof (continue_db v t ok w) as Hdb.
    destruct (continue v t ok w) as [t' w']. simpl in *.
    destruct Hdb as [->|[(uid' & k & now & _ & ->)|[(k & _ & ->)|(k & d & _ & ->)]]];
      simpl; try exact Hsome.
    destruct (decide (uid' = uid)) as [->|Hne];
      [rewrite lookup_insert_eq; eauto | rewrite lookup_insert_ne by exact Hne; exact Hsome].
Qed.

Lemma step_settled ev w :
  counter_settled w ->
  counter_settled (step ev w) /\ forall f, tally (db w) f <= tally (db (step ev w)) f.
Proof.
  intros [Hdoc Hpend]. destruct ev as [v u|v k now|i ok]; cbn [step].
  - split; [|intros; rewrite authStateChanged_db; lia].
    unfold authStateChanged. destruct u as [uid|].
    + split; [exact Hdoc|]. intros j v' k. simpl.
      destruct (decide (next w = j)) as [<-|Hne];
        [rewrite lookup_insert_eq; discriminate | rewrite lookup_insert_ne by exact Hne; apply Hpend].
    + split; [exact Hdoc | exact Hpend].
  - split; [|intros; rewrite handleVote_db; lia]. unfold handleVote.
    destruct (user _); [destruct (truthy _)|]; try (split; [exact Hdoc | exact Hpend]).
    split; [exact Hdoc|]. intros j v' k'. simpl.
    destruct (decide (next w = j)) as [<-|Hne];
      [rewrite lookup_insert_eq; discriminate | rewrite lookup_insert_ne by exact Hne; apply Hpend].
  - destruct (pending w !! i) as [[v t]|] eqn:Hi;
      [|split; [split; [exact Hdoc | exact Hpend] | intros; lia]].
    pose proof (continue_db v t ok w) as Hdb.
    pose proof (continue_next v t ok w) as Hnext.
    destruct (continue_frame v t ok w) as (Hp & _ & _).
    destruct (continue v t ok w) as [t' w'] eqn:Hc. simpl in *.
    assert (Hstore : is_Some (salesData (db w'))
                     /\ forall f, tally (db w) f <= tally (db w') f).
    { destruct Hdb as [->|[(uid' & k & now & _ & ->)|[(k & _ & ->)|(k & d & -> & _)]]].
      - split; [exact Hdoc | intros; lia].
      - split; [exact Hdoc | intros; unfold tally; simpl; lia].
      - split; [eauto|]. intros f. destruct (db w) as [uv sd]. simpl in *.
        destruct Hdoc as [d ->]. simpl. apply tally_increment.
      - exfalso. exact (Hpend _ _ _ Hi). }
    destruct Hstore as [Hdoc' Hmono]. split; [|exact Hmono].
    split; [exact Hdoc'|]. rewrite Hp.
    intros j v' k. destruct t' as [t1|]; cbn [pending].
    + destruct (decide (i = j)) as [<-|Hne].
      * rewrite lookup_insert_eq. intros [= -> ->].
        destruct (Hnext k eq_refl) as [_ Hnone]. rewrite Hnone in Hdoc.
        destruct Hdoc as [? [=]].
      * rewrite lookup_insert_ne by exact Hne. apply Hpend.
    + destruct (decide (i = j)) as [<-|Hne].
      * rewrite lookup_delete_eq. discriminate.
      * rewrite lookup_delete_ne by exact Hne. apply Hpend.
Qed.

End AsyncStore.

(** X17.  Whatever handlers overlap, on one page or on several, no vote
    record is ever removed from the store; and once the counter document
    exists, with no write that would create it still pending, it goes on
    existing and no bucket ever goes down.  Without that, counts are lost:
    when two pages vote while the document does not exist, both read it as
    absent and both create it, and the second write takes the bucket of
    the first vote from 1 back to 0. *)
Theorem store_only_grows (evs : list Async.event) (w : Async.world) :
  (forall uid, is_Some (userVotes (Async.db w) !! uid) ->
               is_Some (userVotes (Async.db (Async.run evs w)) !! uid))
  /\ (Async.counter_settled w ->
      Async.counter_settled (Async.run evs w)
      /\ forall f, tally (Async.db w) f <= tally (Async.db (Async.run evs w)) f)
  /\ (let w0 := Async.World (Store ∅ None)
                  {[ 0%nat := App (Some "u1") None; 1%nat := App (Some "u2") None ]} ∅ 0 in
      let w1 := Async.run [Async.HandleVote 0 "support" 5; Async.HandleVote 1 "against" 6;
                           Async.Settle 0 true; Async.Settle 1 true;
                           Async.Settle 0 true; Async.Settle 1 true;
                           Async.Settle 0 true] w0 in
      let w2 := Async.run [Async.Settle 1 true; Async.Settle 0 true; Async.Settle 1 true] w1 in
      tally (Async.db w1) "support" = 1
      /\ tally (Async.db w2) "support" = 0
      /\ Async.session w2 0 = App (Some "u1") (Some "support")
      /\ Async.pending w2 = ∅).
Proof.
  split; [|split].
  - revert w. induction evs as [|ev evs IH]; intros w uid Hsome; simpl; [exact Hsome|].
    apply IH, step_records, Hsome.
  - revert w. induction evs as [|ev evs IH]; intros w Hw; simpl.
    + split; [exact Hw | intros; lia].
    + destruct (step_settled ev w Hw) as [Hw' Hmono].
      destruct (IH _ Hw') as [Hw'' Hmono'].
      split; [exact Hw''|]. intros f. specialize (Hmono f). specialize (Hmono' f). lia.
  - vm_compute. repeat split.
Qed.

Lemma store_only_grows_witness :
  let w := Async.World sample_store ∅ ∅ 0 in
  let evs := [Async.AuthStateChanged 0 (Some "bob"); Async.AuthStateChanged 1 (Some "carol");
              Async.HandleVote 0 "support" 20; Async.HandleVote 1 "support" 21;
              Async.Settle 2 true; Async.Settle 3 true; Async.Settle 2 true;
              Async.Settle 3 true; Async.Settle 3 true; Async.Settle 2 true] in
  Async.counter_settled (Async.run evs w)
  /\ forall f, tally (Async.db w) f <= tally (Async.db (Async.run evs w)) f.
Proof.
  apply (proj1 (proj2 (store_only_grows
           [Async.AuthStateChanged 0 (Some "bob"); Async.AuthStateChanged 1 (Some "carol");
            Async.HandleVote 0 "support" 20; Async.HandleVote 1 "support" 21;
            Async.Settle 2 true; Async.Settle 3 true; Async.Settle 2 true;
            Async.Settle 3 true; Async.Settle 3 true; Async.Settle 2 true]
           (Async.World sample_store ∅ ∅ 0)))).
  split.
  - eexists. reflexivity.
  - intros i v k. cbn [Async.pending]. rewrite lookup_empty. discriminate.
Defined.

(** X18.  When the write of the vote record resolves and the write of the
    counter is rejected, the store keeps the record while the counter is as
    it was.  Once the viewer has signed out and in again, the recorded vote
    is shown as cast, and no later call changes the counter: that vote is
    never counted. *)
Theorem uncounted_vote_becomes_final
    (st : app) (db : store) (uid k : string) (now : Z) (rest net2 : list bool) :
  user st = Some uid ->
  truthy (userVote st) = false ->
  k = "support" \/ k = "against" ->
  resolving 1 net2 = true ->
  let s1 := handleVote k now st (db, true :: true :: false :: rest) in
  let s2 := run [AuthStateChanged None; AuthStateChanged (Some uid)]
                (fst s1, (fst (snd s1), net2)) in
  fst s1 = st
  /\ userVotes (fst (snd s1)) !! uid = Some (VoteDoc k now)
  /\ salesData (fst (snd s1)) = salesData db
  /\ userVote (fst s2) = Some k
  /\ salesData (fst (snd s2)) = salesData db
  /\ (forall votes : list (string * Z),
        run (map (fun v => HandleVote (fst v) (snd v)) votes) s2 = s2).
Proof.
  intros Hu Hv Hk Hnet2 s1 s2.
  assert (Hs1 : s1 = (st, (Store (<[uid := VoteDoc k now]> (userVotes db)) (salesData db),
                           rest))).
  { unfold s1, handleVote. rewrite Hu, Hv.
    unfold cast, await, setDoc_userVotes, getDoc_votes, setDoc_votes,
      setDoc_votes_increment, request.
    destruct db as [uv sd]. simpl. destruct sd; reflexivity. }
  assert (Hs2 : s2 = (App (Some uid) (Some k),
                      (Store (<[uid := VoteDoc k now]> (userVotes db)) (salesData db),
                       skipn 1 net2))).
  { unfold s2. rewrite Hs1. cbn [run fold_left step fst snd].
    unfold authStateChanged, getDoc_userVotes, request. simpl.
    destruct net2 as [|[] net2]; simpl in *; try discriminate;
      rewrite lookup_insert_eq; reflexivity. }
  rewrite Hs1, Hs2. simpl. rewrite lookup_insert_eq.
  repeat split; try reflexivity.
  intros votes. apply run_voted. simpl. destruct Hk as [-> | ->]; reflexivity.
Qed.

Lemma uncounted_vote_becomes_final_witness :
  let st := App (Some "bob") None in
  let s1 := handleVote "support" 20 st (sample_store, true :: true :: false :: []) in
  let s2 := run [AuthStateChanged None; AuthStateChanged (Some "bob")]
                (fst s1, (fst (snd s1), [])) in
  fst s1 = st
  /\ userVotes (fst (snd s1)) !! "bob" = Some (VoteDoc "support" 20)
  /\ salesData (fst (snd s1)) = salesData sample_store
  /\ userVote (fst s2) = Some "support"
  /\ salesData (fst (snd s2)) = salesData sample_store
  /\ (forall votes : list (string * Z),
        run (map (fun v => HandleVote (fst v) (snd v)) votes) s2 = s2).
Proof.
  apply (uncounted_vote_becomes_final (App (Some "bob") None) sample_store
           "bob" "support" 20 [] []).
  - reflexivity.
  - reflexivity.
  - left. reflexivity.
  - reflexivity.
Defined.

(** X19.  When the read of the vote record at sign-in is rejected, a
    viewer who has a vote on record is left without a vote state and can
    vote again: the call overwrites the record and raises a bucket once
    more. *)
Theorem rejected_read_allows_second_vote
    (st : app) (db : store) (uid k : string) (d : voteDoc) (now : Z) (rest : list bool) :
  userVote st = None ->
  userVotes db !! uid = Some d ->
  k = "support" \/ k = "against" ->
  resolving 3 rest = true ->
  let s1 := authStateChanged (Some uid) st (db, false :: rest) in
  let s2 := handleVote k now (fst s1) (snd s1) in
  fst s1 = App (Some uid) None
  /\ userVote (fst s2) = Some k
  /\ userVotes (fst (snd s2)) !! uid = Some (VoteDoc k now)
  /\ tally (fst (snd s2)) k = tally db k + 1.
Proof.
  intros Hv Hd Hk Hrest s1 s2.
  assert (Hs1 : s1 = (App (Some uid) None, (db, rest))).
  { unfold s1, authStateChanged, getDoc_userVotes, request, setUser. simpl.
    rewrite Hv. reflexivity. }
  assert (Hs2 : s2 = (App (Some uid) (Some k), (voted uid k now db, skipn 3 rest))).
  { unfold s2. rewrite Hs1. simpl.
    rewrite (handleVote_resolves uid) by (try reflexivity; exact Hrest). reflexivity. }
  rewrite Hs1, Hs2. simpl. rewrite lookup_insert_eq.
  repeat split; try reflexivity. apply tally_voted_same, Hk.
Qed.

Lemma rejected_read_allows_second_vote_witness :
  let s1 := authStateChanged (Some "alice") initial_app (sample_store, false :: []) in
  let s2 := handleVote "support" 30 (fst s1) (snd s1) in
  fst s1 = App (Some "alice") None
  /\ userVote (fst s2) = Some "support"
  /\ userVotes (fst (snd s2)) !! "alice" = Some (VoteDoc "support" 30)
  /\ tally (fst (snd s2)) "support" = tally sample_store "support" + 1.
Proof.
  apply (rejected_read_allows_second_vote initial_app sample_store "alice" "support"
           (VoteDoc "against" 7) 30 []).
  - reflexivity.
  - reflexivity.
  - left. reflexivity.
  - reflexivity.
Defined.

(** X20.  The counter document stays in order: if it is absent or holds
    both buckets not below zero, then after any session, whatever the vote
    types and the rejected requests, it is absent or holds both buckets not
    below zero, and the counts that the snapshot listener hands to the
    view are two numbers not below zero. *)
Theorem counter_stays_in_order (evs : list event) (s : app * env) :
  counter_ok (salesData (fst (snd s))) ->
  counter_ok (salesData (fst (snd (run evs s))))
  /\ exists sup ag,
       votesSnapshot (salesData (fst (snd (run evs s)))) initial_votes !! "support"
       = Some sup
       /\ votesSnapshot (salesData (fst (snd (run evs s)))) initial_votes !! "against"
          = Some ag
       /\ 0 <= sup /\ 0 <= ag.
Proof.
  intros Hok.
  assert (Hrun : counter_ok (salesData (fst (snd (run evs s))))).
  { revert s Hok. unfold run. induction evs as [|ev evs IH]; intros s Hok; simpl.
    - exact Hok.
    - apply IH, step_counter_ok, Hok. }
  split; [exact Hrun|].
  destruct (salesData (fst (snd (run evs s)))) as [d|]; simpl.
  - exact Hrun.
  - exists 0, 0. repeat split; try reflexivity; lia.
Qed.

Lemma counter_stays_in_order_witness :
  let s := (initial_app, (Store ∅ None, [true; true; false])) in
  let evs := [AuthStateChanged (Some "u1"); HandleVote "support" 5;
              HandleVote "against" 6] in
  counter_ok (salesData (fst (snd (run evs s))))
  /\ exists sup ag,
       votesSnapshot (salesData (fst (snd (run evs s)))) initial_votes !! "support"
       = Some sup
       /\ votesSnapshot (salesData (fst (snd (run evs s)))) initial_votes !! "against"
          = Some ag
       /\ 0 <= sup /\ 0 <= ag.
Proof.
  apply (counter_stays_in_order
           [AuthStateChanged (Some "u1"); HandleVote "support" 5; HandleVote "against" 6]
           (initial_app, (Store ∅ None, [true; true; false]))).
  exact I.
Defined.
